(** * Scan job orchestration of the htb console

    A shallow embedding of the job-handling code of [htb/__main__.py]:
    the [jobs list] and [jobs kill] commands, scanner selection and job
    creation in [machine scan], the foreground monitor, and the drain loop
    that runs when the console exits.

    Tracker objects are shared between the job table, the completion queue
    and the code that watches them, so they live in a store and are named by
    reference.  Console methods are programs in a state-and-exception monad
    over that store; every message printed and every thread joined is
    appended to an effect log carried in the state.

    The development also embeds the commands on lab machines
    ([machine list], [start], [stop], [reset], [cancel] and [enum]), the
    completion of machine names, the notification handler, and the import
    and disconnection of the lab VPN with the reading of the output of
    [nmcli].  Calls that leave [htb/__main__.py] are
    answered by functions the definitions take as parameters, so every
    property holds whatever the lab service answers. *)

From Stdlib Require Import Ascii PrimFloat.
From stdpp Require Import base list strings pretty gmap.

(** ** Data model *)

(** [htb.scanner.scanner.Service]: the attributes the console reads. *)
Record Service := {
  port : Z;
  protocol : string;
  service_name : string
}.

(** [htb.Machine]: the attributes the console reads. *)
Record Machine := {
  machine_name : string;
  services : list Service
}.

(** [htb.scanner.scanner.Scanner]; [match_] is the method [match]. *)
Record Scanner := {
  scanner_name : string;
  recommended : bool;
  match_ : Machine -> bool;
  match_service : Service -> bool
}.

(** The execution handle of a job, a [threading.Thread]: whether it has
    been started, and its [daemon] attribute. *)
Record Thread := {
  started : bool;
  daemon : bool
}.

(** References to tracker objects. *)
Abbreviation ref := nat (only parsing).

(** Identity of a [queue.Queue] object: the console's [self.job_events], or
    the queue [monitor_scan] creates for the tracker it watches. *)
Inductive Queue :=
| shared_queue
| local_queue (owner : ref).

(** [htb.scanner.scanner.Tracker].  [events] and [job_events] are the two
    attributes the console assigns queues to; [lock] is [true] while the
    lock is held; [thread] is [None] once the console cleared it. *)
Record Tracker := {
  machine : Machine;
  service : Service;
  scanner : Scanner;
  status : string;
  stop : bool;
  silent : bool;
  events : option Queue;
  job_events : option Queue;
  lock : bool;
  thread : option Thread
}.

Definition set_status (v : string) (t : Tracker) : Tracker :=
  {| machine := machine t; service := service t; scanner := scanner t;
     status := v; stop := stop t; silent := silent t; events := events t;
     job_events := job_events t; lock := lock t; thread := thread t |}.

Definition set_stop (v : bool) (t : Tracker) : Tracker :=
  {| machine := machine t; service := service t; scanner := scanner t;
     status := status t; stop := v; silent := silent t; events := events t;
     job_events := job_events t; lock := lock t; thread := thread t |}.

Definition set_silent (v : bool) (t : Tracker) : Tracker :=
  {| machine := machine t; service := service t; scanner := scanner t;
     status := status t; stop := stop t; silent := v; events := events t;
     job_events := job_events t; lock := lock t; thread := thread t |}.

Definition set_events (v : option Queue) (t : Tracker) : Tracker :=
  {| machine := machine t; service := service t; scanner := scanner t;
     status := status t; stop := stop t; silent := silent t; events := v;
     job_events := job_events t; lock := lock t; thread := thread t |}.

Definition set_job_events (v : option Queue) (t : Tracker) : Tracker :=
  {| machine := machine t; service := service t; scanner := scanner t;
     status := status t; stop := stop t; silent := silent t; events := events t;
     job_events := v; lock := lock t; thread := thread t |}.

Definition set_lock (v : bool) (t : Tracker) : Tracker :=
  {| machine := machine t; service := service t; scanner := scanner t;
     status := status t; stop := stop t; silent := silent t; events := events t;
     job_events := job_events t; lock := v; thread := thread t |}.

Definition set_thread (v : option Thread) (t : Tracker) : Tracker :=
  {| machine := machine t; service := service t; scanner := scanner t;
     status := status t; stop := stop t; silent := silent t; events := events t;
     job_events := job_events t; lock := lock t; thread := v |}.

(** What [signal.signal(signal.SIGTSTP, ...)] installs. *)
Inductive Handler := SIG_DFL | background_me.

(** Observable effects of the console, in the order they happen.  The
    print effects carry the message given to [perror], [pwarning] and
    [poutput], before the console adds its coloured prefix; [ppaged_table]
    carries the table handed to [util.build_table], whose rendering is
    defined outside [htb/__main__.py]. *)
Inductive Effect :=
| perror_msg (msg : string)
| pwarning_msg (msg : string)
| poutput_msg (msg : string)
| ppaged_table (table : list (list string))
| thread_join (t : ref)
| signal_SIGTSTP (h : Handler).

(** The part of the [HackTheBox] object the job code uses: the store of
    tracker objects, [self.jobs], the content of the queue
    [self.job_events] (oldest first), and the effect log. *)
Record Console := {
  trackers : list Tracker;
  self_jobs : list ref;
  self_job_events : list ref;
  output : list Effect
}.

(** ** Programs *)

(** Exceptions that can leave the modelled methods.  [ScanLaunchFailed]
    is what [Machine.scan] raises when the tool cannot be started.
    [DanglingRef] stands for a reference to an object the store does not
    hold; Python cannot produce one, the constructor only makes
    dereferencing total. *)
Inductive Exn :=
| AttributeError
| RuntimeError
| IndexError
| ValueError
| ScanLaunchFailed
| DanglingRef.

(** A method either returns, raises, or stays blocked in a wait that the
    environment never ends; the console state reached is kept in each
    case. *)
Inductive Outcome (A : Type) :=
| Return (a : A) (c : Console)
| Raise (e : Exn) (c : Console)
| Blocked (c : Console).
Arguments Return {A} a c.
Arguments Raise {A} e c.
Arguments Blocked {A} c.

Definition M (A : Type) := Console -> Outcome A.

Definition ret {A} (a : A) : M A := fun c => Return a c.

Definition bind {A B} (m : M A) (k : A -> M B) : M B :=
  fun c =>
    match m c with
    | Return a c' => k a c'
    | Raise e c' => Raise e c'
    | Blocked c' => Blocked c'
    end.

Declare Scope prog_scope.
Delimit Scope prog_scope with prog.
Notation "'let*' x := m 'in' k" := (bind m (fun x => k))
  (at level 10, x binder, m at level 100, k at level 200) : prog_scope.
Notation "m ;; k" := (bind m (fun _ => k))
  (at level 100, k at level 200, right associativity) : prog_scope.
Open Scope prog_scope.

Definition raise {A} (e : Exn) : M A := fun c => Raise e c.
Definition block {A} : M A := fun c => Blocked c.
Definition gets {A} (f : Console -> A) : M A := fun c => Return (f c) c.

Definition with_trackers (v : list Tracker) (c : Console) : Console :=
  {| trackers := v; self_jobs := self_jobs c;
     self_job_events := self_job_events c; output := output c |}.

Definition with_jobs (v : list ref) (c : Console) : Console :=
  {| trackers := trackers c; self_jobs := v;
     self_job_events := self_job_events c; output := output c |}.

Definition with_job_events (v : list ref) (c : Console) : Console :=
  {| trackers := trackers c; self_jobs := self_jobs c;
     self_job_events := v; output := output c |}.

Definition report (e : Effect) (c : Console) : Console :=
  {| trackers := trackers c; self_jobs := self_jobs c;
     self_job_events := self_job_events c; output := output c ++ [e] |}.

Definition modify (f : Console -> Console) : M unit := fun c => Return tt (f c).

Definition emit (e : Effect) : M unit := modify (report e).
Definition perror (msg : string) : M unit := emit (perror_msg msg).
Definition pwarning (msg : string) : M unit := emit (pwarning_msg msg).
Definition poutput (msg : string) : M unit := emit (poutput_msg msg).

(** Read the object a reference denotes. *)
Definition deref (r : ref) : M Tracker :=
  fun c =>
    match trackers c !! r with
    | Some t => Return t c
    | None => Raise DanglingRef c
    end.

(** Attribute assignment on the object a reference denotes. *)
Definition assign (r : ref) (f : Tracker -> Tracker) : M unit :=
  modify (fun c => with_trackers (alter f r (trackers c)) c).

(** Python's [l[i]] for an integer [i]: negative indices count from the
    end, anything else out of range raises [IndexError]. *)
Definition py_getitem {A} (l : list A) (i : Z) : option A :=
  if (i <? 0)%Z then
    if (- i <=? Z.of_nat (length l))%Z
    then l !! Z.to_nat (Z.of_nat (length l) + i)
    else None
  else l !! Z.to_nat i.

Definition getitem {A} (l : list A) (i : Z) : M A :=
  match py_getitem l i with
  | Some a => ret a
  | None => raise IndexError
  end.

(** [str(i)] for an integer, as an f-string prints it. *)
Definition str (i : Z) : string := pretty i.

(** ** [jobs kill] *)

Definition _jobs_kill (job_id : Z) : M unit :=
  let* jobs := gets self_jobs in
  if ((job_id <? 0) || (job_id >=? Z.of_nat (length jobs)))%Z then
    perror (str job_id +:+ ": no such job")
  else
    let* job := getitem jobs job_id in
    let* t := deref job in
    match thread t with
    | None => pwarning (str job_id +:+ ": already completed")
    | Some _ =>
        poutput ("killing job " +:+ str job_id) ;;
        assign job (set_stop true)
    end.

(** ** [jobs list] *)

(** [colorama.Style.DIM]. *)
Definition Style_DIM : string := String "027"%char "[2m".

(** [t.thread.join()].  Through a cleared handle this is [None.join()], an
    [AttributeError]; a thread that was never started cannot be joined
    ([RuntimeError]); otherwise the call waits for the thread to end, which
    is recorded in the log. *)
Definition thread_join_ (t : ref) : M unit :=
  let* tr := deref t in
  match thread tr with
  | None => raise AttributeError
  | Some th => if started th then emit (thread_join t) else raise RuntimeError
  end.

(** The pending-events loop of [_jobs_list].  [pending] is the content of
    [self.job_events] when the loop starts; each round takes the oldest
    entry with [get_nowait], joins its thread and clears the handle, and the
    loop ends on [queue.Empty], the only exception it catches. *)
Fixpoint reconcile (pending : list ref) : M unit :=
  match pending with
  | [] => ret tt
  | t :: rest =>
      modify (with_job_events rest) ;;
      thread_join_ t ;;
      assign t (set_thread None) ;;
      reconcile rest
  end.

(** One row of the job table. *)
Definition job_row (ident : nat) (job : Tracker) : list string :=
  let style := match thread job with None => Style_DIM | Some _ => "" end in
  [ ">" +:+ style +:+ str (Z.of_nat ident);
    machine_name (machine job);
    str (port (service job)) +:+ "/" +:+ protocol (service job)
      +:+ " (" +:+ service_name (service job) +:+ ")";
    scanner_name (scanner job);
    status job ].

(** [for ident, job in enumerate(self.jobs)], counting from [ident]. *)
Fixpoint job_rows (ident : nat) (jobs : list ref) : M (list (list string)) :=
  match jobs with
  | [] => ret []
  | j :: rest =>
      let* job := deref j in
      let* rows := job_rows (S ident) rest in
      ret (job_row ident job :: rows)
  end.

Definition table_header : list string :=
  [""; "Host"; "Service"; "Scanner"; "Status"].

Definition _jobs_list : M unit :=
  let* pending := gets self_job_events in
  reconcile pending ;;
  let* jobs := gets self_jobs in
  let* rows := job_rows 0 jobs in
  emit (ppaged_table (table_header :: rows)).

(** ** Locks and job creation *)

(** [tracker.lock.release()]: releasing a lock nobody holds is a
    [RuntimeError]. *)
Definition lock_release (r : ref) : M unit :=
  let* t := deref r in
  if lock t then assign r (set_lock false) else raise RuntimeError.

(** [with tracker.lock: body]: waits while the lock is held, and releases
    it however [body] ends. *)
Definition with_lock {A} (r : ref) (body : M A) : M A :=
  let* t := deref r in
  if lock t then block
  else
    assign r (set_lock true) ;;
    fun c =>
      match body c with
      | Return a c' => (assign r (set_lock false) ;; ret a) c'
      | Raise e c' => (assign r (set_lock false) ;; raise e) c'
      | Blocked c' => Blocked c'
      end.

(** [self.jobs.append(tracker)]. *)
Definition jobs_append (r : ref) : M unit :=
  modify (fun c => with_jobs (self_jobs c ++ [r]) c).

(** Modelled from the spec: [Machine.scan], which is defined outside
    [htb/__main__.py].  [tool_starts] tells whether the external tool of a
    scanner can be started against a service (the binary is there and may
    be executed).  When it cannot, the call fails at once with
    [ScanLaunchFailed] and no job is created.  Otherwise a new job is in
    state running, its cancellation flag is clear, its handoff lock is
    already held by its creator, no consumer is registered yet, and its
    thread has been started; the new object is added to the store and its
    reference returned. *)
Definition scan (tool_starts : Scanner -> Service -> bool)
    (m : Machine) (sc : Scanner) (svc : Service) (quiet : bool) : M ref :=
  fun c =>
    if tool_starts sc svc then
      let t := {| machine := m; service := svc; scanner := sc;
                  status := "running"; stop := false; silent := quiet;
                  events := None; job_events := None; lock := true;
                  thread := Some {| started := true; daemon := false |} |} in
      Return (length (trackers c)) (with_trackers (trackers c ++ [t]) c)
    else Raise ScanLaunchFailed c.

(** Modelled from the spec: the end of a job's executor thread, which runs
    in [htb.scanner], outside [htb/__main__.py].  When the tool has ended,
    normally, cancelled or with a failure, the job becomes completed; the
    executor then waits for the job's handoff lock, sends the tracker to
    the consumer registered last and releases the lock.  That consumer is
    the job table's queue when [events] holds it; a monitor's private
    queue is not part of the console state, and a signal sent there is a
    [completion] event of the monitor's environment.  The services the
    executor found were appended to the target's list while it ran;
    [machine scan] meets them as [discovered]. *)
Definition finish (r : ref) : M unit :=
  assign r (set_status "completed") ;;
  with_lock r
    (let* t := deref r in
     match events t with
     | Some shared_queue =>
         modify (fun c => with_job_events (self_job_events c ++ [r]) c)
     | _ => ret tt
     end).

(** Several jobs end, one after the other. *)
Fixpoint finish_all (rs : list ref) : M unit :=
  match rs with
  | [] => ret tt
  | r :: rest => finish r ;; finish_all rest
  end.

(** ** The foreground monitor *)

(** What ends the monitor's wait in [tracker.job_events.get()]: the queue
    delivers a tracker, the operator interrupts (Ctrl-C), or the operator
    suspends (Ctrl-Z, which runs the handler [background_me]). *)
Inductive WatchEvent :=
| completion (t : ref)
| KeyboardInterrupt
| SIGTSTP.

Definition port_proto (t : Tracker) : string :=
  str (port (service t)) +:+ "/" +:+ protocol (service t).

(** [monitor_scan].  [env] lists the events the environment will produce at
    the console's waits, oldest first; the events not consumed are
    returned.  With no event left the wait never ends. *)
Definition monitor_scan (tracker : ref) (env : list WatchEvent)
  : M (list WatchEvent) :=
  assign tracker (set_job_events (Some (local_queue tracker))) ;;
  lock_release tracker ;;
  emit (signal_SIGTSTP background_me) ;;
  match env with
  | [] => block
  | completion _ :: env' =>
      emit (signal_SIGTSTP SIG_DFL) ;;
      ret env'
  | KeyboardInterrupt :: env' =>
      let* t := deref tracker in
      pwarning ("cancelling " +:+ scanner_name (scanner t) +:+ " for "
                +:+ port_proto t) ;;
      assign tracker (set_stop true) ;;
      emit (signal_SIGTSTP SIG_DFL) ;;
      ret env'
  | SIGTSTP :: env' =>
      emit (signal_SIGTSTP SIG_DFL) ;;
      with_lock tracker
        (let* t := deref tracker in
         pwarning ("backgrounding " +:+ scanner_name (scanner t) +:+ " for "
                   +:+ port_proto t) ;;
         assign tracker (set_silent true) ;;
         assign tracker (set_events (Some shared_queue)) ;;
         jobs_append tracker) ;;
      ret env'
  end.

(** ** [machine scan] *)

(** The arguments of [machine scan].  [--recommended], [--scanner] and
    [--service] are optional strings, tested for truth by the code. *)
Record ScanArgs := {
  args_machine : Machine;
  args_recommended : option string;
  args_scanner : option string;
  args_service : option string;
  args_background : bool
}.

(** Truth value of an optional string: [None] and the empty string are
    false. *)
Definition truthy (o : option string) : bool :=
  match o with
  | Some s => negb (bool_decide (s = ""))
  | None => false
  end.

(** [s.name == args.scanner]. *)
Definition name_is (o : option string) (s : Scanner) : bool :=
  match o with
  | Some n => bool_decide (scanner_name s = n)
  | None => false
  end.

(** [s.split(sep)] for a one-character separator. *)
Fixpoint split (sep : ascii) (s : string) : list string :=
  match s with
  | EmptyString => [EmptyString]
  | String ch rest =>
      if bool_decide (ch = sep) then EmptyString :: split sep rest
      else match split sep rest with
           | [] => [String ch EmptyString]
           | h :: t => String ch h :: t
           end
  end.

Section MachineScan.

(** The scanner registry [htb.scanner.AVAILABLE_SCANNERS], Python's
    [int] on strings ([None] where it raises [ValueError]), and whether
    the tool of a scanner can be started against a service, which
    [Machine.scan] finds out. *)
Variable AVAILABLE_SCANNERS : list Scanner.
Variable int : string -> option Z.
Variable tool_starts : Scanner -> Service -> bool.

(** The first selection of scanners (by target). *)
Definition scanners_for_machine (args : ScanArgs) : list Scanner :=
  let m := args_machine args in
  if truthy (args_recommended args) then
    List.filter (fun s => recommended s && match_ s m) AVAILABLE_SCANNERS
  else if truthy (args_scanner args) then
    List.filter (fun s => name_is (args_scanner args) s) AVAILABLE_SCANNERS
  else
    List.filter (fun s => match_ s m) AVAILABLE_SCANNERS.

(** The services to scan: all of the machine's, or those matching
    [--service PORT/PROTOCOL]. *)
Definition select_services (args : ScanArgs) : M (list Service) :=
  let m := args_machine args in
  if truthy (args_service args) then
    let parts := split "/"%char (default "" (args_service args)) in
    match int (default "" (parts !! 0%nat)) with
    | None => raise ValueError
    | Some port_ =>
        match parts !! 1%nat with
        | None => raise IndexError
        | Some protocol_ =>
            ret (List.filter
                   (fun s => bool_decide (port s = port_)
                             && bool_decide (protocol s = protocol_))
                   (services m))
        end
    end
  else ret (services m).

(** The second selection of scanners (by the selected services). *)
Definition scanners_for_services (args : ScanArgs)
    (svcs : list Service) (scanners : list Scanner) : list Scanner :=
  if truthy (args_recommended args) then
    List.filter (fun s => recommended s && existsb (match_service s) svcs)
                scanners
  else if truthy (args_scanner args) then
    List.filter (fun s => name_is (args_scanner args) s
                          && existsb (match_service s) svcs) scanners
  else
    List.filter (fun s => existsb (match_service s) svcs) scanners.

(** The body of the two loops: start the scan and either hand the job to
    the job table or watch it. *)
Definition start_scan (args : ScanArgs) (svc : Service) (sc : Scanner)
    (env : list WatchEvent) : M (list WatchEvent) :=
  poutput ("beginning " +:+ scanner_name sc +:+ " scan on "
           +:+ str (port svc) +:+ "/" +:+ protocol svc
           +:+ " (" +:+ service_name svc +:+ ")") ;;
  let* tracker := scan tool_starts (args_machine args) sc svc
                    (args_background args) in
  if args_background args then
    assign tracker (set_events (Some shared_queue)) ;;
    lock_release tracker ;;
    jobs_append tracker ;;
    ret env
  else monitor_scan tracker env.

(** [for scanner in scanners], for one service. *)
Fixpoint scan_service (args : ScanArgs) (svc : Service)
    (scanners : list Scanner) (env : list WatchEvent)
  : M (list WatchEvent) :=
  match scanners with
  | [] => ret env
  | sc :: rest =>
      if negb (match_service sc svc) then scan_service args svc rest env
      else
        let* env' := start_scan args svc sc env in
        scan_service args svc rest env'
  end.

(** [for service in services]. *)
Fixpoint scan_services (args : ScanArgs) (svcs : list Service)
    (scanners : list Scanner) (env : list WatchEvent)
  : M (list WatchEvent) :=
  match svcs with
  | [] => ret env
  | svc :: rest =>
      let* env' := scan_service args svc scanners env in
      scan_services args rest scanners env'
  end.

(** [for service in services] when [services] is the target's own list
    (line 627, without [--service]).  The executors of the target's jobs
    append the services they find to that list, and the loop visits what
    has been appended by the time it asks for its next service.
    [discovered] holds, for each turn of the loop, the services appended
    during that turn; once it is used up nothing more is appended. *)
Fixpoint scan_growing (args : ScanArgs) (discovered : list (list Service))
    (svcs : list Service) (scanners : list Scanner) (env : list WatchEvent)
  : M (list WatchEvent) :=
  match discovered, svcs with
  | found :: later, svc :: rest =>
      let* env' := scan_service args svc scanners env in
      scan_growing args later (rest ++ found) scanners env'
  | _, _ => scan_services args svcs scanners env
  end.

Definition _machine_scan (args : ScanArgs)
    (discovered : list (list Service)) (env : list WatchEvent)
  : M (list WatchEvent) :=
  let scanners := scanners_for_machine args in
  let* svcs := select_services args in
  if (length svcs =? 0)%nat then
    perror "no matching services found" ;; ret env
  else
    let scanners := scanners_for_services args svcs scanners in
    if (length scanners =? 0)%nat then
      perror "no matching scanners found" ;; ret env
    else if truthy (args_service args) then
      scan_services args svcs scanners env
    else scan_growing args discovered svcs scanners env.

End MachineScan.

(** ** Draining the job table when the console exits *)

(** What the environment does while [main] waits in
    [cmd.job_events.get()]: a finished job puts its tracker on the queue,
    or the operator interrupts. *)
Inductive DrainEvent :=
| arrival (t : ref)
| interrupt.

(** How a wait loop ended. *)
Inductive Waited :=
| drained
| interrupted.

Definition has_thread (c : Console) (j : ref) : bool :=
  match trackers c !! j with
  | Some t => match thread t with Some _ => true | None => false end
  | None => false
  end.

(** [[j for j in cmd.jobs if j.thread is not None]]. *)
Definition live_jobs (c : Console) : list ref :=
  List.filter (has_thread c) (self_jobs c).

(** [tracker.status = "completed"; tracker.thread = None]. *)
Definition mark_completed (t : ref) : M unit :=
  assign t (set_status "completed") ;;
  assign t (set_thread None).

(** The loop [while len(live_jobs): tracker = cmd.job_events.get(); ...]
    once the queue holds nothing: every [get] waits for the environment. *)
Fixpoint wait_arrivals (env : list DrainEvent)
  : M (Waited * list DrainEvent) :=
  fun c =>
    match live_jobs c with
    | [] => Return (drained, env) c
    | _ :: _ =>
        match env with
        | [] => Blocked c
        | arrival t :: env' => (mark_completed t ;; wait_arrivals env') c
        | interrupt :: env' => Return (interrupted, env') c
        end
    end.

(** The same loop while the queue still holds [queued].  The loop runs
    inside the [try]: when the next thing the environment does is an
    interrupt, it is raised before the queue is asked, and the queue keeps
    its entries; otherwise [get] returns the oldest entry at once. *)
Fixpoint wait_queued (queued : list ref) (env : list DrainEvent)
  : M (Waited * list DrainEvent) :=
  fun c =>
    match live_jobs c with
    | [] => Return (drained, env) c
    | _ :: _ =>
        match queued with
        | [] => wait_arrivals env c
        | t :: rest =>
            match env with
            | interrupt :: env' => Return (interrupted, env') c
            | _ =>
                (modify (with_job_events rest) ;;
                 mark_completed t ;;
                 wait_queued rest env) c
            end
        end
    end.

Definition wait_jobs (env : list DrainEvent) : M (Waited * list DrainEvent) :=
  let* queued := gets self_job_events in
  wait_queued queued env.

(** [for j in cmd.jobs: j.stop = True]. *)
Fixpoint stop_all (jobs : list ref) : M unit :=
  match jobs with
  | [] => ret tt
  | j :: rest => assign j (set_stop true) ;; stop_all rest
  end.

(** [j.thread.daemon = True].  The attribute of a [threading.Thread] can
    only be set before the thread is started: on a started thread the
    assignment raises [RuntimeError]. *)
Definition set_thread_daemon (j : ref) : M unit :=
  let* t := deref j in
  match thread t with
  | None => raise AttributeError
  | Some th =>
      if started th then raise RuntimeError
      else assign j (set_thread (Some {| started := false; daemon := true |}))
  end.

(** [for j in [j for j in cmd.jobs if j.thread is not None]:
    j.thread.daemon = True], over the list already built. *)
Fixpoint abandon (jobs : list ref) : M unit :=
  match jobs with
  | [] => ret tt
  | j :: rest => set_thread_daemon j ;; abandon rest
  end.

(** The handler of the second [KeyboardInterrupt]: give up on whatever is
    still running. *)
Definition on_second_interrupt : M unit :=
  pwarning "forcing background job exit!" ;;
  let* remaining := gets live_jobs in
  abandon remaining.

(** The inner [try]: wait again, now with the stop flags set. *)
Definition cancelled_wait (env : list DrainEvent) : M unit :=
  let* w := wait_jobs env in
  match w with
  | (drained, _) => ret tt
  | (interrupted, _) => on_second_interrupt
  end.

(** The handler of the first [KeyboardInterrupt]. *)
Definition on_first_interrupt (env : list DrainEvent) : M unit :=
  pwarning "cancelling background jobs" ;;
  let* jobs := gets self_jobs in
  stop_all jobs ;;
  cancelled_wait env.

(** The wait loop of the outer [try]. *)
Definition drain_wait (env : list DrainEvent) : M unit :=
  let* w := wait_jobs env in
  match w with
  | (drained, _) => ret tt
  | (interrupted, env') => on_first_interrupt env'
  end.

(** The drain at the end of [main]. *)
Definition drain_jobs (env : list DrainEvent) : M unit :=
  let* active := gets live_jobs in
  match active with
  | [] => ret tt
  | _ :: _ => poutput "waiting for background jobs to complete"
  end ;;
  drain_wait env.

(** * Vocabulary of the properties *)

(** The console an outcome was reached in. *)
Definition console_of {A} (o : Outcome A) : Console :=
  match o with
  | Return _ c => c
  | Raise _ c => c
  | Blocked c => c
  end.

(** The outcome [o], reached in console [c] instead. *)
Definition relocate {A} (o : Outcome A) (c : Console) : Outcome A :=
  match o with
  | Return a _ => Return a c
  | Raise e _ => Raise e c
  | Blocked _ => Blocked c
  end.

(** Apply [f] to each of the trackers [rs] in turn. *)
Definition alter_all (f : Tracker -> Tracker) (rs : list ref)
    (ts : list Tracker) : list Tracker :=
  foldl (fun ts r => alter f r ts) ts rs.

(** [t'] is [t] with the cancellation flag set and nothing else changed. *)
Definition same_but_stop (t t' : Tracker) : Prop :=
  stop t' = true /\ machine t' = machine t /\ service t' = service t /\
  scanner t' = scanner t /\ status t' = status t /\ silent t' = silent t /\
  events t' = events t /\ job_events t' = job_events t /\
  lock t' = lock t /\ thread t' = thread t.

(** A tracker the monitor is watching: its private queue is stored in
    [job_events] and its lock released. *)
Definition watched (r : ref) (t : Tracker) : Tracker :=
  set_lock false (set_job_events (Some (local_queue r)) t).

(** A tracker that was being watched and has been moved to the
    background. *)
Definition detached (r : ref) (t : Tracker) : Tracker :=
  set_events (Some shared_queue) (set_silent true (watched r t)).

(** What receiving a job's signal in the drain does to its tracker. *)
Definition marked (t : Tracker) : Tracker :=
  set_thread None (set_status "completed" t).

(** The wait loops of the drain only mark trackers: the job table and the
    log stay, and each tracker is as before or marked. *)
Definition only_marked (c c' : Console) : Prop :=
  self_jobs c' = self_jobs c /\
  output c' = output c /\
  forall r, trackers c' !! r = trackers c !! r \/
            trackers c' !! r = marked <$> trackers c !! r.

(** What a wait loop of the drain can end in. *)
Definition wait_result (env : list DrainEvent) (c : Console)
    (o : Outcome (Waited * list DrainEvent)) : Prop :=
  match o with
  | Return (drained, _) c' => only_marked c c' /\ live_jobs c' = []
  | Return (interrupted, _) c' => only_marked c c' /\ interrupt ∈ env
  | Blocked c' => only_marked c c' /\ live_jobs c' <> []
  | Raise _ _ => False
  end.

(** Every job of [c] has its handle cleared in [c'], and those that still
    had one in [c] have status completed; stop flags are as in [c]. *)
Definition all_joined (c c' : Console) : Prop :=
  self_jobs c' = self_jobs c /\
  forall j t, j ∈ self_jobs c -> trackers c !! j = Some t ->
    exists t', trackers c' !! j = Some t' /\ thread t' = None /\
               stop t' = stop t /\
               (thread t <> None -> status t' = "completed").

(** The console after the waiting message, printed if there is anything to
    wait for. *)
Definition announced (c : Console) : Console :=
  match live_jobs c with
  | [] => c
  | _ :: _ => report (poutput_msg "waiting for background jobs to complete") c
  end.

(** The console is waiting: some job still has its thread and the queue
    holds nothing. *)
Definition waiting (c : Console) : Prop :=
  live_jobs c <> [] /\ self_job_events c = [].

(** The console in which the first interrupt handler resumes waiting. *)
Definition cancelling (c : Console) : Console :=
  with_trackers (alter_all (set_stop true) (self_jobs c) (trackers c))
    (report (pwarning_msg "cancelling background jobs") c).

(** The test a scanner must pass for the target, by the options given. *)
Definition target_policy (args : ScanArgs) (sc : Scanner) : bool :=
  if truthy (args_recommended args) then
    recommended sc && match_ sc (args_machine args)
  else if truthy (args_scanner args) then name_is (args_scanner args) sc
  else match_ sc (args_machine args).

(** The job [machine scan --background] leaves in the table for a service
    and a scanner. *)
Definition background_job_for (args : ScanArgs) (svc : Service) (sc : Scanner)
  : Tracker :=
  {| machine := args_machine args; service := svc; scanner := sc;
     status := "running"; stop := false; silent := true;
     events := Some shared_queue; job_events := None; lock := false;
     thread := Some {| started := true; daemon := false |} |}.

(** The jobs one pass over the scanners starts for a service. *)
Definition started_for (args : ScanArgs) (scanners : list Scanner)
    (svc : Service) : list Tracker :=
  map (background_job_for args svc)
      (List.filter (fun sc => match_service sc svc) scanners).

(** ** The claims as first read *)

(** C3 read literally: after an interrupt the monitor returns only once a
    completion has been delivered to it. *)
Definition interrupt_keeps_waiting : Prop :=
  forall c r t env env' c',
    trackers c !! r = Some t -> lock t = true ->
    monitor_scan r (KeyboardInterrupt :: env) c = Return env' c' ->
    exists pre r', env = pre ++ completion r' :: env'.

(** C8 read literally: a job is created for a service and a scanner exactly
    when the scanner matches the target and the service, is recommended if
    [--recommended] is given, and has the given name if [--scanner] is.
    The reading is about runs in which nothing is added to the target's
    services meanwhile. *)
Definition selection_as_claimed : Prop :=
  forall AVAILABLE_SCANNERS int tool_starts args env c svcs c',
    args_background args = true ->
    select_services int args c = Return svcs c ->
    _machine_scan AVAILABLE_SCANNERS int tool_starts args [] env c
      = Return env c' ->
    forall svc sc,
      (exists t, In t (drop (length (trackers c)) (trackers c')) /\
                 service t = svc /\ scanner t = sc) <->
      (In svc svcs /\ In sc AVAILABLE_SCANNERS /\
       match_ sc (args_machine args) = true /\
       match_service sc svc = true /\
       (truthy (args_recommended args) = true -> recommended sc = true) /\
       (truthy (args_scanner args) = true ->
        name_is (args_scanner args) sc = true)).

(** ** Sample data *)

Definition sample_service : Service :=
  {| port := 80; protocol := "tcp"; service_name := "http" |}.

(** A service a running job finds on the target. *)
Definition found_service : Service :=
  {| port := 8080; protocol := "tcp"; service_name := "http-proxy" |}.

Definition sample_machine : Machine :=
  {| machine_name := "box"; services := [sample_service] |}.

(** A recommended scanner that matches everything. *)
Definition sample_scanner : Scanner :=
  {| scanner_name := "S1"; recommended := true;
     match_ := fun _ => true; match_service := fun _ => true |}.

(** A scanner that matches everything and is not recommended. *)
Definition optional_scanner : Scanner :=
  {| scanner_name := "S2"; recommended := false;
     match_ := fun _ => true; match_service := fun _ => true |}.

(** A scanner that matches no machine but every service. *)
Definition named_scanner : Scanner :=
  {| scanner_name := "S3"; recommended := false;
     match_ := fun _ => false; match_service := fun _ => true |}.

(** A job as [scan] creates it for a foreground scan. *)
Definition fresh_job : Tracker :=
  {| machine := sample_machine; service := sample_service;
     scanner := sample_scanner; status := "running"; stop := false;
     silent := false; events := None; job_events := None;
     lock := true; thread := Some {| started := true; daemon := false |} |}.

(** A job as [machine scan --background] leaves it. *)
Definition background_job : Tracker :=
  background_job_for
    {| args_machine := sample_machine; args_recommended := None;
       args_scanner := None; args_service := None; args_background := true |}
    sample_service sample_scanner.

Definition empty_console : Console :=
  {| trackers := []; self_jobs := []; self_job_events := []; output := [] |}.

(** One job about to be watched. *)
Definition one_fresh : Console :=
  {| trackers := [fresh_job]; self_jobs := [];
     self_job_events := []; output := [] |}.

(** One background job, running. *)
Definition one_job : Console :=
  {| trackers := [background_job]; self_jobs := [0];
     self_job_events := []; output := [] |}.

(** One background job whose completion signal waits in the queue. *)
Definition one_job_signalled : Console := with_job_events [0] one_job.

(** [one_job_signalled] after [jobs list]. *)
Definition one_job_listed : Console :=
  {| trackers := [set_thread None background_job];
     self_jobs := [0];
     self_job_events := [];
     output :=
       [thread_join 0;
        ppaged_table
          [table_header;
           [">" +:+ Style_DIM +:+ "0"; "box"; "80/tcp (http)"; "S1";
            "running"]]] |}.

Definition no_int : string -> option Z := fun _ => None.

(** Every tool can be started; no tool can. *)
Definition always_starts : Scanner -> Service -> bool := fun _ _ => true.
Definition never_starts : Scanner -> Service -> bool := fun _ _ => false.

Definition int_443 : string -> option Z :=
  fun s => if bool_decide (s = "443") then Some 443%Z else None.

(** [machine scan --scanner S3 --background]. *)
Definition by_name : ScanArgs :=
  {| args_machine := sample_machine; args_recommended := None;
     args_scanner := Some "S3"; args_service := None;
     args_background := true |}.

(** [machine scan --recommended 1 --background]. *)
Definition recommended_only : ScanArgs :=
  {| args_machine := sample_machine; args_recommended := Some "1";
     args_scanner := None; args_service := None;
     args_background := true |}.

(** [machine scan --service 443/tcp]. *)
Definition other_port : ScanArgs :=
  {| args_machine := sample_machine; args_recommended := None;
     args_scanner := None; args_service := Some "443/tcp";
     args_background := false |}.

(** [machine scan --scanner nikto]. *)
Definition unknown_name : ScanArgs :=
  {| args_machine := sample_machine; args_recommended := None;
     args_scanner := Some "nikto"; args_service := None;
     args_background := false |}.

(** ** Vocabulary of the further properties of the job code *)

(** Whether a character occurs in a string. *)
Fixpoint contains (ch : ascii) (s : string) : bool :=
  match s with
  | EmptyString => false
  | String x rest => bool_decide (x = ch) || contains ch rest
  end.

(** [machine scan --service 443/tcp/extra --background]. *)
Definition selector_extra : ScanArgs :=
  {| args_machine := sample_machine; args_recommended := None;
     args_scanner := None; args_service := Some "443/tcp/extra";
     args_background := true |}.

(** [machine scan --service http/tcp --background]. *)
Definition selector_no_port : ScanArgs :=
  {| args_machine := sample_machine; args_recommended := None;
     args_scanner := None; args_service := Some "http/tcp";
     args_background := true |}.

(** [machine scan --service 443 --background]. *)
Definition selector_no_slash : ScanArgs :=
  {| args_machine := sample_machine; args_recommended := None;
     args_scanner := None; args_service := Some "443";
     args_background := true |}.

(** The (service, scanner) pairs the two loops of [machine scan] visit, in
    the order they visit them. *)
Definition scan_plan (svcs : list Service) (scanners : list Scanner)
  : list (Service * Scanner) :=
  flat_map (fun svc =>
              map (pair svc)
                  (List.filter (fun sc => match_service sc svc) scanners))
           svcs.

(** The loop body of [machine scan] over a list of pairs. *)
Fixpoint run_plan (tool_starts : Scanner -> Service -> bool)
    (args : ScanArgs) (plan : list (Service * Scanner))
    (env : list WatchEvent) : M (list WatchEvent) :=
  match plan with
  | [] => ret env
  | (svc, sc) :: rest =>
      let* env' := start_scan tool_starts args svc sc env in
      run_plan tool_starts args rest env'
  end.

(** The services the loop of [machine scan] visits: the selected ones and,
    when they are the target's own list, those appended to it while the
    loop runs. *)
Fixpoint visited (discovered : list (list Service)) (svcs : list Service)
  : list Service :=
  match discovered, svcs with
  | found :: later, svc :: rest => svc :: visited later (rest ++ found)
  | _, _ => svcs
  end.

(** With [--service] the services are a list of their own, which nothing
    is appended to. *)
Definition looped_services (args : ScanArgs)
    (discovered : list (list Service)) (svcs : list Service)
  : list Service :=
  if truthy (args_service args) then svcs else visited discovered svcs.

(** The pairs the loops of [machine scan] reach, in order: the scanners are
    those kept for the selected services, the services those visited. *)
Definition planned (AVAILABLE_SCANNERS : list Scanner) (args : ScanArgs)
    (discovered : list (list Service)) (svcs : list Service)
  : list (Service * Scanner) :=
  scan_plan (looped_services args discovered svcs)
    (scanners_for_services args svcs
       (scanners_for_machine AVAILABLE_SCANNERS args)).

(** Whether the tool can be started for a pair. *)
Definition launches (tool_starts : Scanner -> Service -> bool)
    (p : Service * Scanner) : bool :=
  tool_starts p.2 p.1.

(** The job [machine scan] creates for a pair before it is handed over. *)
Definition new_job_for (args : ScanArgs) (svc : Service) (sc : Scanner)
  : Tracker :=
  {| machine := args_machine args; service := svc; scanner := sc;
     status := "running"; stop := false; silent := args_background args;
     events := None; job_events := None; lock := true;
     thread := Some {| started := true; daemon := false |} |}.

(** A watched tracker after the event that ended the watch. *)
Definition after_watch (r : ref) (ev : WatchEvent) (t : Tracker) : Tracker :=
  match ev with
  | completion _ => watched r t
  | KeyboardInterrupt => set_stop true (watched r t)
  | SIGTSTP => detached r t
  end.

(** The trackers a foreground scan leaves for the pairs of [plan], watched
    one after the other and ended by the events [evs], when the first is
    stored at [base]. *)
Fixpoint foreground_trackers (args : ScanArgs) (base : nat)
    (plan : list (Service * Scanner)) (evs : list WatchEvent)
  : list Tracker :=
  match plan, evs with
  | (svc, sc) :: plan', ev :: evs' =>
      after_watch base ev (new_job_for args svc sc)
        :: foreground_trackers args (S base) plan' evs'
  | _, _ => []
  end.

(** The references, counted from [base], of the watches ended by a
    suspend. *)
Fixpoint suspended_refs (base : nat) (evs : list WatchEvent) : list ref :=
  match evs with
  | [] => []
  | SIGTSTP :: evs' => base :: suspended_refs (S base) evs'
  | _ :: evs' => suspended_refs (S base) evs'
  end.

(** [machine scan] in the foreground, with both sample scanners kept. *)
Definition foreground_all : ScanArgs :=
  {| args_machine := sample_machine; args_recommended := None;
     args_scanner := None; args_service := None;
     args_background := false |}.

(** The one background job after its executor has ended: the job is
    completed and its signal waits in the queue. *)
Definition one_job_finished : Console :=
  {| trackers := [set_status "completed" background_job]; self_jobs := [0];
     self_job_events := [0]; output := [] |}.

(** The signal of the one background job, queued twice. *)
Definition one_job_signalled_twice : Console := with_job_events [0; 0] one_job.

(** ** The machine commands *)

(** [htb.Machine]: the attributes the machine commands read, beside the
    name and the services held in [about]. *)
Record MachineInfo := {
  about : Machine;
  machine_id : Z;
  machine_ip : string;
  machine_os : string;
  retired : bool;
  expired : bool;
  owned_user : bool;
  owned_root : bool;
  todo : bool;
  spawned : bool;
  terminating : bool;
  resetting : bool;
  assigned : bool;
  expires : string;
  ratings : list Z;
  rating : float;
  analysis_path : option string
}.

(** The [colorama] escape sequences the commands use. *)
Definition ESC : string := String "027"%char "".
Definition Fore_RED : string := ESC +:+ "[31m".
Definition Fore_GREEN : string := ESC +:+ "[32m".
Definition Fore_YELLOW : string := ESC +:+ "[33m".
Definition Fore_BLUE : string := ESC +:+ "[34m".
Definition Fore_RESET : string := ESC +:+ "[39m".
Definition Style_RESET_ALL : string := ESC +:+ "[0m".

(** [HackTheBox.OS_ICONS]; the icons are single characters of the private
    use area, written here as their UTF-8 bytes. *)
Definition icon (b1 b2 b3 : nat) : string :=
  String (ascii_of_nat b1) (String (ascii_of_nat b2)
    (String (ascii_of_nat b3) "")).

Definition OS_ICONS : gmap string string :=
  list_to_map
    [ ("freebsd", icon 239 142 164);
      ("windows", icon 239 133 186);
      ("linux", icon 239 133 188);
      ("android", icon 239 133 187);
      ("solaris", icon 239 134 133);
      ("other", icon 239 136 179) ].

(** [try: OS_ICONS[key] except KeyError: OS_ICONS["other"]], the lookup
    of [machine list]. *)
Definition os_icon (key : string) : string :=
  match OS_ICONS !! key with
  | Some i => i
  | None => OS_ICONS !!! "other"
  end.

(** [OS_ICONS.get(key, OS_ICONS["other"])], the lookup of
    [complete_machine]. *)
Definition os_icon_get (key : string) : string :=
  default (OS_ICONS !!! "other") (OS_ICONS !! key).

(** The State cell of [machine list]. *)
Definition list_state (m : MachineInfo) : string :=
  if spawned m && negb (terminating m) && negb (resetting m) then expires m
  else if terminating m then "terminating"
  else if resetting m then "resetting"
  else "off".

(** The state shown by [complete_machine]. *)
Definition completion_state (m : MachineInfo) : string :=
  if resetting m then "resetting"
  else if terminating m then "terminating"
  else if spawned m then expires m
  else "stopped".

(** The state at the end of the first line of [machine info]. *)
Definition info_state (m : MachineInfo) : string :=
  if spawned m && negb (resetting m) && negb (terminating m)
  then Fore_GREEN +:+ "up" +:+ Fore_RESET +:+ " for " +:+ expires m
  else if terminating m then Fore_RED +:+ "terminating" +:+ Fore_RESET
  else if resetting m then Fore_YELLOW +:+ "resetting" +:+ Fore_RESET
  else Fore_RED +:+ "off" +:+ Fore_RESET.

(** [max(l)] for a list of integers: [None] where it raises [ValueError]
    (empty list). *)
Definition py_max (l : list Z) : option Z :=
  match l with
  | [] => None
  | x :: rest => Some (foldl Z.max x rest)
  end.

(** The three filters of [machine list]. *)
Definition listed (state owned : string) (todo_only : bool)
    (machines : list MachineInfo) : list MachineInfo :=
  let machines :=
    if bool_decide (state ≠ "all") then
      List.filter (fun m => Bool.eqb (retired m)
                              (bool_decide (state ≠ "active"))) machines
    else machines in
  let machines :=
    if bool_decide (owned ≠ "all") then
      List.filter (fun m => Bool.eqb (owned_root m && owned_user m)
                              (bool_decide (owned = "owned"))) machines
    else machines in
  if todo_only then List.filter todo machines else machines.

Section MachineList.

(** Python's [str.lower] and [len] on strings; the difficulty bar drawn
    from [m.ratings], which the code computes in floating point ([inl]
    where that raises); and the format [.1f] of [m.rating]. *)
Variable lower : string -> string.
Variable len : string -> nat.
Variable difficulty_bar : list Z -> Exn + string.
Variable format_1f : float -> string.

(** One row of [machine list]. *)
Definition machine_row (m : MachineInfo) : M (list string) :=
  let style := if owned_user m && owned_root m then Style_DIM else "" in
  let icon_ := os_icon (lower (machine_os m)) in
  match difficulty_bar (ratings m) with
  | inl e => raise e
  | inr bar =>
      let difficulty := bar +:+ Style_RESET_ALL +:+ style in
      let owned := "^" +:+ (if owned_user m then "$" else " ") +:+ " "
                       +:+ (if owned_root m then "#" else " ") in
      let state := list_state m in
      let state := if assigned m then Fore_BLUE +:+ state +:+ Fore_RESET
                   else state in
      let assigned_ := if assigned m
                       then Fore_BLUE +:+ "*" +:+ Style_RESET_ALL +:+ " "
                       else " " in
      ret [ style +:+ str (machine_id m);
            assigned_;
            icon_ +:+ " " +:+ machine_os m;
            machine_name (about m);
            machine_ip m;
            difficulty;
            format_1f (rating m);
            owned;
            state ]
  end.

(** [for m in machines: ... table.append(...)]. *)
Fixpoint machine_rows (machines : list MachineInfo)
  : M (list (list string)) :=
  match machines with
  | [] => ret []
  | m :: rest =>
      let* row := machine_row m in
      let* rows := machine_rows rest in
      ret (row :: rows)
  end.

Definition machine_list_header : list string :=
  [""; ""; "OS"; "Name"; "Address"; "Difficulty"; "Rate"; "Owned"; "State"].

(** [max(l)] as a program. *)
Definition max_ (l : list Z) : M Z :=
  match py_max l with
  | Some v => ret v
  | None => raise ValueError
  end.

(** [_machine_list], for [args.state], [args.owned], [args.todo] and the
    machines [self.cnxn.machines] returned.  The three widths are computed
    and not used afterwards. *)
Definition _machine_list (state owned : string) (todo_only : bool)
    (machines : list MachineInfo) : M unit :=
  let machines := listed state owned todo_only machines in
  let* name_width :=
    max_ (map (fun m => Z.of_nat (len (machine_name (about m)))) machines) in
  let* ip_width :=
    max_ (map (fun m => Z.of_nat (len (machine_ip m))) machines) in
  let* id_width :=
    max_ (map (fun m => Z.of_nat (len (str (machine_id m)))) machines) in
  let* rows := machine_rows machines in
  emit (ppaged_table (machine_list_header :: rows)).

(** [cmd2.CompletionItem(text, description)]. *)
Record CompletionItem := {
  item_text : string;
  item_description : string
}.

(** [f"{s:<13}"]: padded with spaces on the right to 13 characters. *)
Definition ljust13 (s : string) : string :=
  s +:+ String.concat "" (replicate (13 - len s) " ").

Definition completion_item (m : MachineInfo) : CompletionItem :=
  let os := os_icon_get (lower (machine_os m)) +:+ " " +:+ machine_os m in
  {| item_text := lower (machine_name (about m));
     item_description :=
       ljust13 os +:+ ljust13 (machine_ip m) +:+ completion_state m |}.

(** [complete_machine], over [self.cnxn.machines]. *)
Fixpoint complete_machine (machines : list MachineInfo)
    (running active term_or_reset : option bool) : list CompletionItem :=
  match machines with
  | [] => []
  | m :: rest =>
      let others := complete_machine rest running active term_or_reset in
      if match active with
         | Some a => Bool.eqb (expired m) a
         | None => false
         end then others
      else if match running with
              | Some r => negb (Bool.eqb (spawned m) r)
              | None => false
              end then others
      else if match term_or_reset with
              | Some _ => negb (terminating m) && negb (resetting m)
              | None => false
              end then others
      else completion_item m :: others
  end.

End MachineList.

(** ** Vocabulary for the machine commands *)

(** Whether [complete_machine] offers a machine. *)
Definition offered (running active term_or_reset : option bool)
    (m : MachineInfo) : bool :=
  match active with Some a => negb (Bool.eqb (expired m) a) | None => true end
  && match running with Some r => Bool.eqb (spawned m) r | None => true end
  && match term_or_reset with
     | Some _ => terminating m || resetting m
     | None => true
     end.

(** A machine the [--todo] filter drops, and one it keeps. *)
Definition idle_box : MachineInfo :=
  {| about := sample_machine; machine_id := 7; machine_ip := "10.10.10.7";
     machine_os := "Linux"; retired := false; expired := false;
     owned_user := true; owned_root := false; todo := false;
     spawned := false; terminating := false; resetting := false;
     assigned := false; expires := "never"; ratings := [1; 2; 3]%Z;
     rating := 4.5%float; analysis_path := None |}.

Definition todo_box : MachineInfo :=
  {| about := sample_machine; machine_id := 8; machine_ip := "10.10.10.8";
     machine_os := "Plan9"; retired := true; expired := true;
     owned_user := true; owned_root := true; todo := true;
     spawned := true; terminating := true; resetting := true;
     assigned := true; expires := "23:59"; ratings := [0; 0; 1]%Z;
     rating := 3.0%float; analysis_path := None |}.

(** A difficulty bar that can be drawn for every machine. *)
Definition plain_bar (r : list Z) : Exn + string := inr "bar".

(** ** Commands on one machine *)

(** The attributes of a machine the commands assign to.  Each assignment
    is a request to the lab service, made by [htb.Machine]. *)
Inductive Attr :=
| attr_spawned
| attr_assigned
| attr_terminating
| attr_resetting.

(** The exceptions the commands name (those of [htb.exceptions], of
    [dbus] and of Python itself), and any other exception a call that
    leaves the console lets through. *)
Inductive Failure :=
| RequestFailed (e : string)
| EtcHostsFailed
| MasscanFailed
| NmapFailed
| AuthFailure
| ConnectionNotFound
| InvalidConnectionID (e : string)
| DBusException (e : string)
| KeyError (key : string)
| UnicodeDecodeError
| OtherError (e : string).

(** What a command on a machine does, in order: what it prints
    ([psuccess] has no counterpart among the effects of the job code), the
    attribute assignments, and the calls that leave the console. *)
Inductive Step :=
| console (e : Effect)
| psuccess_msg (msg : string)
| setattr (a : Attr) (v : bool)
| ping (ip : string)
| sleep (seconds : Z)
| invalidate_cache
| machine_init (path : string)
| machine_enumerate.

(** How a call into [htb.Machine] ends: the exception it raised, if any,
    and the attributes of the machine object afterwards. *)
Record Reply := {
  raised : option Failure;
  after : MachineInfo
}.

(** The object [args.machine] and the steps taken so far. *)
Record Lab := {
  target : MachineInfo;
  steps : list Step
}.

(** A command returns, raises, or goes on waiting for the environment;
    the state reached is kept in each case.  [S] is the state the command
    works on. *)
Inductive Result (S A : Type) :=
| Done (a : A) (s : S)
| Failed (e : Failure) (s : S)
| Waiting (s : S).
Arguments Done {S A} a s.
Arguments Failed {S A} e s.
Arguments Waiting {S A} s.

Definition Run (S A : Type) := S -> Result S A.

(** Commands on [args.machine]. *)
Definition Cmd (A : Type) := Run Lab A.

Definition done {S A} (a : A) : Run S A := fun s => Done a s.

Definition failing {S A} (e : Failure) : Run S A := fun s => Failed e s.

Definition and_then {S A B} (m : Run S A) (k : A -> Run S B) : Run S B :=
  fun s =>
    match m s with
    | Done a s' => k a s'
    | Failed e s' => Failed e s'
    | Waiting s' => Waiting s'
    end.

Declare Scope cmd_scope.
Delimit Scope cmd_scope with cmd.
Notation "'let*' x := m 'in' k" := (and_then m (fun x => k))
  (at level 10, x binder, m at level 100, k at level 200) : cmd_scope.
Notation "m ;; k" := (and_then m (fun _ => k))
  (at level 100, k at level 200, right associativity) : cmd_scope.

Definition step (x : Step) : Cmd unit :=
  fun s => Done tt {| target := target s; steps := steps s ++ [x] |}.

(** Read an attribute of [args.machine]. *)
Definition attr {A} (f : MachineInfo -> A) : Cmd A :=
  fun s => Done (f (target s)) s.

(** [try: body except ...: handler], for the exceptions [handles] names. *)
Definition try_except {S A} (body : Run S A)
    (handles : Failure -> option (Run S A)) : Run S A :=
  fun s =>
    match body s with
    | Failed e s' =>
        match handles e with
        | Some handler => handler s'
        | None => Failed e s'
        end
    | r => r
    end.

(** The ways a ping can end: [subprocess.call] returns the exit status of
    [ping], or the user presses Ctrl-C while the loop waits. *)
Inductive PingEvent :=
| ping_exit (status : Z)
| ping_interrupt.

Section MachineCommands.

(** The lab service and the file system behind [htb.Machine]: what an
    attribute assignment, [Connection.invalidate_cache], [Machine.init]
    and [Machine.enumerate] answer for a machine in a given state. *)
Variable assign_attr : Attr -> bool -> MachineInfo -> Reply.
Variable cache_invalidated : MachineInfo -> Reply.
Variable init : string -> MachineInfo -> Reply.
Variable enumerate : MachineInfo -> Reply.

(** A call into [htb.Machine]: logged, then answered. *)
Definition call (x : Step) (answer : MachineInfo -> Reply) : Cmd unit :=
  fun s =>
    let r := answer (target s) in
    let s' := {| target := after r; steps := steps s ++ [x] |} in
    match raised r with
    | Some e => Failed e s'
    | None => Done tt s'
    end.

(** [args.machine.<a> = v]. *)
Definition set_attr (a : Attr) (v : bool) : Cmd unit :=
  call (setattr a v) (assign_attr a v).

Definition say (e : Effect) : Cmd unit := step (console e).
Definition psuccess (msg : string) : Cmd unit := step (psuccess_msg msg).

Definition name_of (m : MachineInfo) : string := machine_name (about m).

(** [_machine_start]; [cnxn_assigned] is [self.cnxn.assigned]. *)
Definition _machine_start (cnxn_assigned : option MachineInfo) : Cmd unit :=
  (let* m := attr id in
   match spawned m, cnxn_assigned with
   | true, None =>
       say (poutput_msg (name_of m
              +:+ ": machine already running, transferring ownership...")) ;;
       set_attr attr_assigned true
   | true, Some a =>
       say (poutput_msg ("unable to transfer machine. " +:+ name_of a
              +:+ " is currently assigned."))
   | false, _ =>
       psuccess ("starting " +:+ name_of m) ;;
       try_except (set_attr attr_spawned true)
         (fun e =>
            match e with
            | RequestFailed msg =>
                Some (say (perror_msg ("request failed: " +:+ msg)))
            | _ => None
            end)
   end)%cmd.

(** [_machine_reset]. *)
Definition _machine_reset : Cmd unit :=
  (let* m := attr id in
   if negb (spawned m) then
     say (poutput_msg (name_of m +:+ ": not running"))
   else
     psuccess (name_of m +:+ ": scheduling reset") ;;
     set_attr attr_resetting true)%cmd.

(** [_machine_stop]. *)
Definition _machine_stop : Cmd unit :=
  (let* m := attr id in
   if negb (spawned m) then
     say (poutput_msg (name_of m +:+ " is not running"))
   else
     psuccess ("scheduling termination for " +:+ name_of m) ;;
     set_attr attr_spawned false)%cmd.

(** [_machine_cancel], for the list [args.cancel]. *)
Definition _machine_cancel (cancel : list string) : Cmd unit :=
  ((if bool_decide (length cancel = 0) || bool_decide ("t" ∈ cancel) then
      let* pending := attr terminating in
      if pending then
        set_attr attr_terminating false ;;
        let* m := attr id in
        psuccess (name_of m +:+ ": pending termination cancelled")
      else done tt
    else done tt) ;;
   if bool_decide (length cancel = 0) || bool_decide ("r" ∈ cancel) then
     let* pending := attr resetting in
     if pending then
       set_attr attr_resetting false ;;
       let* m := attr id in
       psuccess (name_of m +:+ ": pending reset cancelled")
     else done tt
   else done tt)%cmd.

(** The loop that waits for a ping reply.  Each round takes the next
    event of the environment; the result tells whether the loop was left
    by [break] ([true]) or by a [KeyboardInterrupt] ([false]).  With no
    event left the loop goes on waiting. *)
Fixpoint await_ping (env : list PingEvent) : Cmd bool :=
  match env with
  | [] => fun s => Waiting s
  | ping_interrupt :: _ => done false
  | ping_exit status :: rest =>
      (let* ip := attr machine_ip in
       step (ping ip) ;;
       if bool_decide (status = 0%Z) then
         psuccess "received ping response!" ;;
         done true
       else
         step (sleep 5) ;;
         await_ping rest)%cmd
  end.

(** The second half of [_machine_enum]: the analysis structure and the
    enumeration. *)
Definition enum_services (analysis : string) (force : bool) : Cmd unit :=
  (let* path := attr analysis_path in
   let* go_on :=
     match path with
     | None =>
         say (pwarning_msg "initializing analysis structure") ;;
         try_except
           (call (machine_init analysis) (init analysis) ;; done true)
           (fun e =>
              match e with
              | EtcHostsFailed =>
                  Some (say (perror_msg "failed to add host to /etc/hosts") ;;
                        done false)
              | _ => None
              end)
     | Some _ => done true
     end in
   if go_on then
     let* m := attr id in
     if bool_decide (length (services (about m)) = 0) || force then
       say (poutput_msg "enumerating machine services") ;;
       try_except (call machine_enumerate enumerate)
         (fun e =>
            match e with
            | MasscanFailed => Some (say (perror_msg "masscan failed"))
            | NmapFailed => Some (say (perror_msg "nmap failed"))
            | _ => None
            end)
     else
       say (poutput_msg (name_of m +:+ " already enumerated ("
              +:+ str (Z.of_nat (length (services (about m))))
              +:+ " service(s) detected)"))
   else done tt)%cmd.

(** [_machine_enum]; [analysis] is [self.cnxn.analysis_path]. *)
Definition _machine_enum (cnxn_assigned : option MachineInfo)
    (analysis : string) (force : bool) (env : list PingEvent) : Cmd unit :=
  (let* m := attr id in
   let* go_on :=
     if negb (spawned m) then
       match cnxn_assigned with
       | Some a =>
           say (pwarning_msg ("unable to start " +:+ name_of m +:+ ". "
                  +:+ name_of a +:+ " is already assigned.")) ;;
           done false
       | None =>
           say (pwarning_msg ("starting " +:+ name_of m)) ;;
           set_attr attr_spawned true ;;
           say (pwarning_msg "waiting for machine to respond to ping...") ;;
           let* up := await_ping env in
           if up then
             say (poutput_msg "waiting for services to start...") ;;
             step (sleep 10) ;;
             call invalidate_cache cache_invalidated ;;
             done true
           else
             say (perror_msg
                    "no ping response received. cancelling enumeration.") ;;
             done false
       end
     else done true in
   if go_on then enum_services analysis force else done tt)%cmd.

End MachineCommands.

(** ** Vocabulary for the commands on one machine *)

(** The completion lists the argument parsers of [machine start],
    [machine reset], [machine stop] and [machine cancel] are given. *)
Definition machine_start_choices (lower : string -> string)
    (len : string -> nat) (machines : list MachineInfo) :=
  complete_machine lower len machines (Some false) None None.

Definition machine_reset_choices (lower : string -> string)
    (len : string -> nat) (machines : list MachineInfo) :=
  complete_machine lower len machines (Some true) None None.

Definition machine_stop_choices (lower : string -> string)
    (len : string -> nat) (machines : list MachineInfo) :=
  complete_machine lower len machines (Some false) None None.

Definition machine_cancel_choices (lower : string -> string)
    (len : string -> nat) (machines : list MachineInfo) :=
  complete_machine lower len machines None None (Some true).

(** The state a command ended in. *)
Definition lab_of {S A} (r : Result S A) : S :=
  match r with
  | Done _ s => s
  | Failed _ s => s
  | Waiting s => s
  end.

(** A state with more steps taken. *)
Definition logged (xs : list Step) (s : Lab) : Lab :=
  {| target := target s; steps := steps s ++ xs |}.

(** [n] pings without reply, each followed by its pause. *)
Definition retries (ip : string) (n : nat) : list Step :=
  mjoin (replicate n [ping ip; sleep 5]).

(** A lab service that grants every request and records it in the
    attribute assigned to. *)
Definition granting (a : Attr) (v : bool) (m : MachineInfo) : Reply :=
  {| raised := None;
     after :=
       {| about := about m; machine_id := machine_id m;
          machine_ip := machine_ip m; machine_os := machine_os m;
          retired := retired m; expired := expired m;
          owned_user := owned_user m; owned_root := owned_root m;
          todo := todo m;
          spawned := match a with attr_spawned => v | _ => spawned m end;
          terminating :=
            match a with attr_terminating => v | _ => terminating m end;
          resetting :=
            match a with attr_resetting => v | _ => resetting m end;
          assigned := match a with attr_assigned => v | _ => assigned m end;
          expires := expires m; ratings := ratings m; rating := rating m;
          analysis_path := analysis_path m |} |}.

(** A lab service that refuses every request. *)
Definition refusing (a : Attr) (v : bool) (m : MachineInfo) : Reply :=
  {| raised := Some (RequestFailed "denied"); after := m |}.

(** Calls that succeed and change nothing. *)
Definition unchanged (m : MachineInfo) : Reply :=
  {| raised := None; after := m |}.

(** An enumeration in which [masscan] fails. *)
Definition masscan_fails (m : MachineInfo) : Reply :=
  {| raised := Some MasscanFailed; after := m |}.

(** An initialisation that cannot write [/etc/hosts]. *)
Definition hosts_fail (path : string) (m : MachineInfo) : Reply :=
  {| raised := Some EtcHostsFailed; after := m |}.

Definition start_of (m : MachineInfo) : Lab := {| target := m; steps := [] |}.

(** ** Notifications and the output of [nmcli] *)

(** How [_on_notification] ends: it returns [True] after handing a text to
    [self.async_alert], returns [True] without output, or raises on a
    missing key of the message or a missing part of its title. *)
Inductive Notified :=
| alerted (msg : string)
| ignored
| raises_KeyError (key : string)
| raises_IndexError.

Section Notifications.

Variable lower : string -> string.

(** [_on_notification]; [hostname] is [self.cnxn.lab.hostname]. *)
Definition _on_notification (hostname : string)
    (message : gmap string string) : Notified :=
  let server :=
    String.concat "-"
      (drop 1 (split "-" (default "" (split "." hostname !! 0%nat)))) in
  match message !! "server" with
  | None => raises_KeyError "server"
  | Some sent =>
      if bool_decide (sent ≠ server) then ignored
      else
        match message !! "title" with
        | None => raises_KeyError "title"
        | Some title =>
            match split "]" (lower title) !! 1%nat with
            | Some text => alerted text
            | None => raises_IndexError
            end
        end
  end.

End Notifications.

Section ImportedUuid.

(** [bytes.decode("utf-8")]: [None] where it raises. *)
Variable decode_utf8 : string -> option string.

(** The UUID [_nm_import_vpn] reads from what [nmcli] printed:
    [p.stdout.split(b"(")[1].split(b")")[0].decode("utf-8")], [None] where
    the expression raises and the bare [except] reports unexpected
    output. *)
Definition imported_uuid (stdout : string) : option string :=
  match split "(" stdout !! 1%nat with
  | None => None
  | Some inner =>
      match split ")" inner !! 0%nat with
      | None => None
      | Some uuid => decode_utf8 uuid
      end
  end.

End ImportedUuid.

(** A notification for the server [eu-free-1]. *)
Definition sample_message : gmap string string :=
  {[ "server" := "eu-free-1"; "title" := "[machine] box reset" ]}.

(** What [nmcli] prints after it imported a connection. *)
Definition nmcli_added : string :=
  "Connection 'lab' (0a1b2c3d-0000-4000-8000-00000000000f) successfully added.".

(** ** The lab VPN *)

(** [self.config], a [configparser.ConfigParser(interpolation=None)]: the
    options of the default section and those of every other section.
    Option names are looked up in lower case; the names the console uses
    are lower case already. *)
Record Config := {
  defaults : gmap string string;
  sections : gmap string (gmap string string)
}.

(** [section in config]. *)
Definition has_section (cfg : Config) (section : string) : bool :=
  bool_decide (section = "DEFAULT")
  || bool_decide (is_Some (sections cfg !! section)).

(** The options stored in a section; [None] where [config[section]] raises
    [KeyError]. *)
Definition section_options (cfg : Config) (section : string)
  : option (gmap string string) :=
  if bool_decide (section = "DEFAULT") then Some (defaults cfg)
  else sections cfg !! section.

(** [config[section][key]]: the option of the section, or else the one of
    the default section; [None] where the lookup raises [KeyError]. *)
Definition get_option (cfg : Config) (section key : string) : option string :=
  match section_options cfg section with
  | Some options =>
      match options !! key with
      | Some v => Some v
      | None => defaults cfg !! key
      end
  | None => None
  end.

(** [key in config[section]], for a section that exists. *)
Definition has_option (cfg : Config) (section key : string) : bool :=
  bool_decide (is_Some (get_option cfg section key)).

(** [config[section] = {}] followed by [config[section][key] = v], for a
    section other than the default one. *)
Definition reset_section (section key v : string) (cfg : Config) : Config :=
  {| defaults := defaults cfg;
     sections := <[section := {[ key := v ]}]> (sections cfg) |}.

(** A [NetworkManager.Connection] and an active connection, each named by
    its object path; an active connection has a [Uuid]. *)
Record NmConnection := {
  object_path : string
}.

Record ActiveConnection := {
  active_path : string;
  Uuid : string
}.

(** The values of connection settings. *)
Inductive Setting :=
| text_value (s : string)
| bool_value (b : bool).

Abbreviation Settings := (gmap string (gmap string Setting)) (only parsing).

(** What [subprocess.run] returns for [nmcli]. *)
Record CompletedProcess := {
  returncode : Z;
  stdout : string;
  stderr : string
}.

(** What the VPN commands do, in order: what they print, and the calls
    that change NetworkManager or the configuration file. *)
Inductive VpnStep :=
| vpn_console (e : Effect)
| vpn_psuccess (msg : string)
| connection_Delete (c : NmConnection)
| nmcli_import (ovpn : string)
| connection_Update (c : NmConnection) (settings : Settings)
| config_write (cfg : Config)
| DeactivateConnection (c : ActiveConnection).

(** The configuration held by the console and the steps taken so far. *)
Record Vpn := {
  config : Config;
  vpn_steps : list VpnStep
}.

Definition vpn_step (x : VpnStep) : Run Vpn unit :=
  fun s => Done tt {| config := config s; vpn_steps := vpn_steps s ++ [x] |}.

Definition vpn_say (e : Effect) : Run Vpn unit := vpn_step (vpn_console e).

Definition get_config : Run Vpn Config := fun s => Done (config s) s.

Definition set_config (cfg : Config) : Run Vpn unit :=
  fun s => Done tt {| config := cfg; vpn_steps := vpn_steps s |}.

(** The result of a call that returns or raises. *)
Definition returned {S A} (r : Failure + A) : Run S A :=
  match r with
  | inl e => failing e
  | inr a => done a
  end.

(** The result of a call that returns nothing or raises. *)
Definition completed {S} (r : option Failure) : Run S unit :=
  match r with
  | Some e => failing e
  | None => done tt
  end.

(** [settings[group][key] = v]: [KeyError] when the group is missing. *)
Definition set_setting (group key : string) (v : Setting) (settings : Settings)
  : Failure + Settings :=
  match settings !! group with
  | Some options => inr (<[group := <[key := v]> options]> settings)
  | None => inl (KeyError group)
  end.

Definition NL : string := String "010"%char "".
Definition TAB : string := String "009"%char "".
Definition QUOTE : string := String "034"%char "".

Definition nmcli_tip : string :=
  "tip: try importing the config manually and fixing any network manager issues:"
  +:+ NL +:+ TAB
  +:+ "nmcli connection import type openvpn file {your-ovpn-file}".

Section LabVpn.

(** NetworkManager, the lab service and the file system, as the VPN
    commands meet them: [Settings.GetConnectionByUuid] before and after
    the import, [Connection.Delete], [self.cnxn.lab.config], the run of
    [nmcli] on a file holding the configuration given, [bytes.decode],
    [Connection.GetSettings] and [Connection.Update], writing the
    configuration file, and [NetworkManager.DeactivateConnection]. *)
Variable GetConnectionByUuid : string -> Failure + NmConnection.
Variable Delete : NmConnection -> option Failure.
Variable lab_config : Failure + string.
Variable nmcli : string -> Failure + CompletedProcess.
Variable decode_utf8 : string -> option string.
Variable GetImportedByUuid : string -> Failure + NmConnection.
Variable GetSettings : NmConnection -> Failure + Settings.
Variable Update : NmConnection -> Settings -> option Failure.
Variable write : Config -> option Failure.
Variable Deactivate : ActiveConnection -> option Failure.

(** [b.decode("utf-8")]. *)
Definition decode_bytes (b : string) : Run Vpn string :=
  match decode_utf8 b with
  | Some t => done t
  | None => failing UnicodeDecodeError
  end.

(** [_nm_get_vpn_connection]. *)
Definition _nm_get_vpn_connection : Run Vpn (NmConnection * string) :=
  (let* cfg := get_config in
   if negb (has_section cfg "lab") || negb (has_option cfg "lab" "connection")
   then failing ConnectionNotFound
   else
     let* uuid := returned (from_option inr (inl (KeyError "connection"))
                              (get_option cfg "lab" "connection")) in
     let* c :=
       try_except (returned (GetConnectionByUuid uuid))
         (fun e =>
            match e with
            | DBusException msg => Some (failing (InvalidConnectionID msg))
            | _ => None
            end) in
     done (c, uuid))%cmd.

(** The lookup and the update of the imported connection, the body of the
    last [try] of [_nm_import_vpn]. *)
Definition adjust_connection (name uuid : string) : Run Vpn NmConnection :=
  (let* connection := returned (GetImportedByUuid uuid) in
   let* settings := returned (GetSettings connection) in
   let* settings := returned (set_setting "connection" "id" (text_value name)
                                settings) in
   let* settings := returned (set_setting "ipv4" "never-default" (bool_value true)
                                settings) in
   let* settings := returned (set_setting "ipv6" "never-default" (bool_value true)
                                settings) in
   vpn_step (connection_Update connection settings) ;;
   completed (Update connection settings) ;;
   done connection)%cmd.

(** The first [try] statement of [_nm_import_vpn]: the connection the
    function returns at once, or [None] when it goes on to import. *)
Definition existing_connection (force : bool)
  : Run Vpn (option (NmConnection * string)) :=
  (try_except
     (let* found := _nm_get_vpn_connection in
      if force then
        vpn_step (connection_Delete found.1) ;;
        completed (Delete found.1) ;;
        done None
      else done (Some found))
     (fun e =>
        match e with
        | ConnectionNotFound => Some (done None)
        | InvalidConnectionID _ =>
            Some (vpn_say (pwarning_msg
                    "invalid connection id found in configuration; removing.") ;;
                  done None)
        | _ => None
        end))%cmd.

(** The rest of [_nm_import_vpn]: the import with [nmcli], the reading of
    the UUID, the update of the connection and of the configuration. *)
Definition import_connection (name : string)
  : Run Vpn (option (NmConnection * string)) :=
  (let* ovpn := returned lab_config in
   vpn_step (nmcli_import ovpn) ;;
   let* p := returned (nmcli ovpn) in
   if bool_decide (returncode p ≠ 0%Z) then
     vpn_say (perror_msg "failed to import vpn configuration") ;;
     vpn_say (perror_msg nmcli_tip) ;;
     let* err := decode_bytes (stderr p) in
     vpn_say (perror_msg ("nmcli stderr output:" +:+ NL +:+ err)) ;;
     done None
   else
     match imported_uuid decode_utf8 (stdout p) with
     | None =>
         vpn_say (perror_msg "unexpected output from nmcli") ;;
         vpn_say (perror_msg nmcli_tip) ;;
         let* err := decode_bytes (stderr p) in
         vpn_say (perror_msg ("nmcli stderr output:" +:+ NL +:+ err)) ;;
         let* out := decode_bytes (stdout p) in
         vpn_say (perror_msg ("nmcli stdout output:" +:+ NL +:+ out)) ;;
         done None
     | Some uuid =>
         let* adjusted :=
           try_except
             (let* connection := adjust_connection name uuid in
              done (Some connection))
             (fun e =>
                match e with
                | DBusException msg =>
                    Some (vpn_say (perror_msg
                            ("dbus error during connection lookup: "
                             +:+ msg)) ;;
                          done None)
                | _ => None
                end) in
         match adjusted with
         | None => done None
         | Some connection =>
             let* cfg := get_config in
             set_config (reset_section "lab" "connection" uuid cfg) ;;
             let* cfg := get_config in
             vpn_step (config_write cfg) ;;
             completed (write cfg) ;;
             done (Some (connection, uuid))
         end
     end)%cmd.

(** [_nm_import_vpn]: the pair returned, [None] for [(None, None)]. *)
Definition _nm_import_vpn (name : string) (force : bool)
  : Run Vpn (option (NmConnection * string)) :=
  (let* existing := existing_connection force in
   match existing with
   | Some found => done (Some found)
   | None => import_connection name
   end)%cmd.

(** [_lab_import], for [args.name] and [args.reload]. *)
Definition _lab_import (name : string) (reload : bool) : Run Vpn unit :=
  (let* imported := _nm_import_vpn name reload in
   match imported with
   | None => done tt
   | Some found =>
       vpn_step (vpn_psuccess ("imported vpn configuration w/ uuid "
                               +:+ found.2))
   end)%cmd.

(** The loop of [_lab_disconnect] over the active connections, with its
    [else] branch. *)
Fixpoint disconnect_first (active : list ActiveConnection) : Run Vpn unit :=
  match active with
  | [] => vpn_say (poutput_msg "vpn connection not active or not found")
  | c :: rest =>
      (let* cfg := get_config in
       let* uuid := returned (from_option inr (inl (KeyError "connection"))
                                (get_option cfg "lab" "connection")) in
       if bool_decide (Uuid c = uuid) then
         vpn_step (DeactivateConnection c) ;;
         completed (Deactivate c) ;;
         vpn_step (vpn_psuccess "vpn connection deactivated")
       else disconnect_first rest)%cmd
  end.

(** [_lab_disconnect]; [active] is
    [NetworkManager.NetworkManager.ActiveConnections]. *)
Definition _lab_disconnect (active : list ActiveConnection) : Run Vpn unit :=
  (let* cfg := get_config in
   if negb (has_section cfg "lab") || negb (has_option cfg "lab" "connection")
   then
     vpn_say (perror_msg ("lab vpn configuration not imported (hint: use "
                          +:+ QUOTE +:+ "lab import" +:+ QUOTE +:+ ")"))
   else disconnect_first active)%cmd.

End LabVpn.

(** ** Vocabulary for the lab VPN *)

(** The connection the configuration names, if any. *)
Definition configured (cfg : Config) : option string :=
  get_option cfg "lab" "connection".

Definition vpn_logged (xs : list VpnStep) (s : Vpn) : Vpn :=
  {| config := config s; vpn_steps := vpn_steps s ++ xs |}.

(** The settings [_nm_import_vpn] sends back for a connection. *)
Definition adjusted_settings (name : string) (settings : Settings)
  : Failure + Settings :=
  match set_setting "connection" "id" (text_value name) settings with
  | inl e => inl e
  | inr s1 =>
      match set_setting "ipv4" "never-default" (bool_value true) s1 with
      | inl e => inl e
      | inr s2 => set_setting "ipv6" "never-default" (bool_value true) s2
      end
  end.

(** The message of [lab disconnect] when no connection is configured. *)
Definition not_imported : string :=
  "lab vpn configuration not imported (hint: use "
  +:+ QUOTE +:+ "lab import" +:+ QUOTE +:+ ")".

(** A console that has imported a connection, and one that has not. *)
Definition lab_configured : Vpn :=
  {| config :=
       {| defaults := ∅;
          sections := {[ "lab" := {[ "connection" := "old-uuid" ]} ]} |};
     vpn_steps := [] |}.

Definition lab_unconfigured : Vpn :=
  {| config := {| defaults := ∅; sections := ∅ |}; vpn_steps := [] |}.

Definition old_connection : NmConnection :=
  {| object_path := "/org/freedesktop/NetworkManager/Settings/1" |}.

Definition new_connection : NmConnection :=
  {| object_path := "/org/freedesktop/NetworkManager/Settings/2" |}.

(** A run of [nmcli] that imports, and one that fails. *)
Definition nmcli_ok (ovpn : string) : Failure + CompletedProcess :=
  inr {| returncode := 0; stdout := nmcli_added; stderr := "" |}.

Definition nmcli_fails (ovpn : string) : Failure + CompletedProcess :=
  inr {| returncode := 1; stdout := ""; stderr := "Error: no plugin" |}.

(** The settings of a connection just imported, and what the console makes
    of them for the name [htb]. *)
Definition fresh_settings : Settings :=
  {[ "connection" := ∅; "ipv4" := ∅; "ipv6" := ∅ ]}.

Definition renamed_settings : Settings :=
  {[ "connection" := {[ "id" := text_value "htb" ]};
     "ipv4" := {[ "never-default" := bool_value true ]};
     "ipv6" := {[ "never-default" := bool_value true ]} ]}.

(** * Properties *)

(** ** Stores *)

Lemma alter_insert (f : Tracker → Tracker) (ts : list Tracker) (r : nat) t :
  ts !! r = Some t → alter f r ts = <[r := f t]> ts.
Proof.
  revert r. induction ts as [|x ts IH]; intros [|r] H; simpl in *; try done.
  - now injection H as ->.
  - f_equal. now apply IH.
Qed.

Lemma lookup_insert_here (ts : list Tracker) (r : nat) (t t' : Tracker) :
  ts !! r = Some t → <[r := t']> ts !! r = Some t'.
Proof.
  intros H. apply list_lookup_insert_eq. now apply lookup_lt_Some in H.
Qed.

Lemma alter_last (f : Tracker → Tracker) (ts : list Tracker) (t : Tracker) :
  alter f (length ts) (ts ++ [t]) = ts ++ [f t].
Proof.
  rewrite <- (Nat.add_0_r (length ts)). now rewrite alter_app_r.
Qed.

Lemma lookup_last (ts : list Tracker) (t : Tracker) :
  (ts ++ [t]) !! length ts = Some t.
Proof. now apply list_lookup_middle. Qed.

Lemma alter_all_lookup (f : Tracker → Tracker) (rs : list ref) :
  (∀ t, f (f t) = f t) →
  ∀ ts k,
    alter_all f rs ts !! k =
    (if bool_decide (k ∈ rs) then f else id) <$> ts !! k.
Proof.
  intros Hf. induction rs as [|r rest IH]; intros ts k.
  - simpl. now destruct (ts !! k).
  - change (alter_all f (r :: rest) ts)
      with (alter_all f rest (alter f r ts)).
    rewrite IH. destruct (decide (k = r)) as [->|Hne].
    + rewrite list_lookup_alter_eq.
      assert (Hin : r ∈ r :: rest) by left.
      rewrite (bool_decide_eq_true_2 _ Hin).
      destruct (ts !! r) as [t|]; [|reflexivity]. simpl.
      destruct (bool_decide (r ∈ rest)); [|reflexivity]. now rewrite Hf.
    + rewrite list_lookup_alter_ne by done.
      rewrite (bool_decide_ext (k ∈ r :: rest) (k ∈ rest)); [done|].
      rewrite elem_of_cons. split; [intros [?|?]; done | auto].
Qed.

(** ** [jobs kill] *)

Lemma guard_out_of_range (i : Z) (n : nat) :
  ((i <? 0) || (i >=? Z.of_nat n))%Z = true ↔ (i < 0 ∨ Z.of_nat n ≤ i)%Z.
Proof.
  rewrite orb_true_iff, Z.ltb_lt, Z.geb_le. lia.
Qed.

Lemma guard_in_range (i : Z) (n : nat) :
  ((i <? 0) || (i >=? Z.of_nat n))%Z = false ↔ (0 ≤ i < Z.of_nat n)%Z.
Proof.
  rewrite orb_false_iff, Z.ltb_ge, <- not_true_iff_false, Z.geb_le. lia.
Qed.

Lemma jobs_kill_out_of_range (c : Console) (i : Z) :
  (i < 0 ∨ Z.of_nat (length (self_jobs c)) ≤ i)%Z →
  _jobs_kill i c = Return tt (report (perror_msg (str i +:+ ": no such job")) c).
Proof.
  intros Hi. apply guard_out_of_range in Hi.
  unfold _jobs_kill, bind, gets. now rewrite Hi.
Qed.

Lemma py_getitem_in_range {A} (l : list A) (i : Z) :
  (0 ≤ i < Z.of_nat (length l))%Z →
  py_getitem l i = l !! Z.to_nat i ∧ is_Some (l !! Z.to_nat i).
Proof.
  intros Hi. unfold py_getitem.
  destruct (Z.ltb_spec i 0); [lia|]. split; [done|].
  apply lookup_lt_is_Some. lia.
Qed.

Lemma jobs_kill_in_range (c : Console) (i : Z) (j : ref) (t : Tracker) :
  (0 ≤ i < Z.of_nat (length (self_jobs c)))%Z →
  self_jobs c !! Z.to_nat i = Some j →
  trackers c !! j = Some t →
  _jobs_kill i c =
    match thread t with
    | None => Return tt (report (pwarning_msg (str i +:+ ": already completed")) c)
    | Some _ =>
        Return tt
          (with_trackers (alter (set_stop true) j (trackers c))
             (report (poutput_msg ("killing job " +:+ str i)) c))
    end.
Proof.
  intros Hi Hj Ht. pose proof (proj2 (guard_in_range _ _) Hi) as Hg.
  destruct (py_getitem_in_range (self_jobs c) i Hi) as [Hget _].
  unfold _jobs_kill, bind, gets, getitem. rewrite Hg, Hget, Hj.
  unfold ret, deref. rewrite Ht. destruct (thread t); reflexivity.
Qed.

Lemma set_stop_same_but_stop (t : Tracker) : same_but_stop t (set_stop true t).
Proof. repeat split. Qed.

(** C5.  [jobs kill i]: an index outside the table is refused with the
    no-such-job report and the console is otherwise untouched; an index
    whose job has no thread left is refused with the already-completed
    report and the console is otherwise untouched; in every other case the
    command returns at once, having printed its message and set the stop
    flag of that one tracker: all its other attributes, all other trackers,
    the job table and the completion queue are as before, and no thread is
    joined. *)
Theorem jobs_kill_spec (c : Console) (i : Z) :
  ((i < 0 ∨ Z.of_nat (length (self_jobs c)) ≤ i)%Z →
   _jobs_kill i c =
     Return tt (report (perror_msg (str i +:+ ": no such job")) c)) ∧
  (∀ j t,
     (0 ≤ i < Z.of_nat (length (self_jobs c)))%Z →
     self_jobs c !! Z.to_nat i = Some j →
     trackers c !! j = Some t →
     (thread t = None →
      _jobs_kill i c =
        Return tt (report (pwarning_msg (str i +:+ ": already completed")) c)) ∧
     (thread t ≠ None →
      ∃ c' t',
        _jobs_kill i c = Return tt c' ∧
        trackers c' !! j = Some t' ∧ same_but_stop t t' ∧
        (∀ k, k ≠ j → trackers c' !! k = trackers c !! k) ∧
        length (trackers c') = length (trackers c) ∧
        self_jobs c' = self_jobs c ∧
        self_job_events c' = self_job_events c ∧
        output c' = output c ++ [poutput_msg ("killing job " +:+ str i)])).
Proof.
  split; [apply jobs_kill_out_of_range|].
  intros j t Hi Hj Ht. rewrite (jobs_kill_in_range c i j t Hi Hj Ht).
  split; intros Hth.
  - now rewrite Hth.
  - destruct (thread t) as [th|] eqn:E; [|done].
    eexists _, (set_stop true t). split_and!; try reflexivity; simpl.
    + now rewrite list_lookup_alter_eq, Ht.
    + apply set_stop_same_but_stop.
    + intros k Hk. now apply list_lookup_alter_ne.
    + apply length_alter.
Qed.

Lemma jobs_kill_spec_witness :
  _jobs_kill 7 one_job =
    Return tt (report (perror_msg "7: no such job") one_job) ∧
  _jobs_kill 0 one_job_listed =
    Return tt (report (pwarning_msg "0: already completed") one_job_listed) ∧
  ∃ c' t',
    _jobs_kill 0 one_job = Return tt c' ∧
    trackers c' !! 0 = Some t' ∧ same_but_stop background_job t' ∧
    (∀ k, k ≠ 0 → trackers c' !! k = trackers one_job !! k) ∧
    length (trackers c') = length (trackers one_job) ∧
    self_jobs c' = self_jobs one_job ∧
    self_job_events c' = self_job_events one_job ∧
    output c' = output one_job ++ [poutput_msg "killing job 0"].
Proof.
  split_and!.
  - apply (proj1 (jobs_kill_spec one_job 7)). simpl. lia.
  - apply (proj2 (jobs_kill_spec one_job_listed 0) 0
             (set_thread None background_job)); try reflexivity.
    simpl. lia.
  - apply (proj2 (jobs_kill_spec one_job 0) 0 background_job).
    + simpl. lia.
    + reflexivity.
    + reflexivity.
    + discriminate.
Defined.

(** C10.  [jobs kill] reads [self.jobs[i]] only for [0 <= i < len]: there
    Python's indexing is the plain positional lookup and finds an entry.
    A negative index gets the no-such-job report of an index past the end,
    with the console otherwise untouched, even where [self.jobs[i]] itself
    would have counted from the end; so no integer makes the command raise
    [IndexError]. *)
Theorem jobs_kill_index_total (c : Console) (i : Z) :
  ((i < 0)%Z →
   _jobs_kill i c =
     Return tt (report (perror_msg (str i +:+ ": no such job")) c)) ∧
  ((Z.of_nat (length (self_jobs c)) ≤ i)%Z →
   _jobs_kill i c =
     Return tt (report (perror_msg (str i +:+ ": no such job")) c)) ∧
  ((0 ≤ i < Z.of_nat (length (self_jobs c)))%Z →
   py_getitem (self_jobs c) i = self_jobs c !! Z.to_nat i ∧
   is_Some (self_jobs c !! Z.to_nat i)) ∧
  (∀ c', _jobs_kill i c ≠ Raise IndexError c').
Proof.
  split; [|split; [|split]].
  - intros Hi. apply jobs_kill_out_of_range. lia.
  - intros Hi. apply jobs_kill_out_of_range. lia.
  - apply py_getitem_in_range.
  - intros c'.
    destruct (decide (i < 0 ∨ Z.of_nat (length (self_jobs c)) ≤ i)%Z)
      as [Ho|Hin].
    + now rewrite jobs_kill_out_of_range.
    + assert (Hi : (0 ≤ i < Z.of_nat (length (self_jobs c)))%Z) by lia.
      destruct (py_getitem_in_range (self_jobs c) i Hi) as [Hget [j Hj]].
      pose proof (proj2 (guard_in_range _ _) Hi) as Hg.
      unfold _jobs_kill, bind, gets, getitem. rewrite Hg, Hget, Hj.
      unfold ret, deref. destruct (trackers c !! j) as [t|]; [|discriminate].
      destruct (thread t); discriminate.
Qed.

(** With one job in the table, [self.jobs[-1]] is that job, yet
    [jobs kill -1] only reports. *)
Lemma jobs_kill_index_total_witness :
  py_getitem (self_jobs one_job) (-1) = Some 0 ∧
  _jobs_kill (-1) one_job =
    Return tt (report (perror_msg "-1: no such job") one_job) ∧
  _jobs_kill 1 one_job =
    Return tt (report (perror_msg "1: no such job") one_job) ∧
  py_getitem (self_jobs one_job) 0 = self_jobs one_job !! 0 ∧
  is_Some (self_jobs one_job !! 0).
Proof.
  split; [reflexivity|].
  split; [apply (proj1 (jobs_kill_index_total one_job (-1))); lia|].
  split; [apply (proj1 (proj2 (jobs_kill_index_total one_job 1))); simpl; lia|].
  apply (proj1 (proj2 (proj2 (jobs_kill_index_total one_job 0)))). simpl. lia.
Defined.

(** ** [jobs list] *)

(** Building the rows reads the store and changes nothing. *)
Lemma job_rows_reads (jobs : list ref) :
  ∀ ident c c', trackers c = trackers c' →
    job_rows ident jobs c' = relocate (job_rows ident jobs c) c'.
Proof.
  induction jobs as [|j rest IH]; intros ident c c' Hts; [reflexivity|].
  cbn [job_rows]. unfold bind, deref. rewrite <- Hts.
  destruct (trackers c !! j) as [t|]; [|reflexivity].
  rewrite (IH (S ident) c c' Hts).
  destruct (job_rows (S ident) rest c); reflexivity.
Qed.

Lemma job_rows_returns (jobs : list ref) (ident : nat) (c c' : Console) rows :
  job_rows ident jobs c = Return rows c' → c' = c.
Proof.
  intros H. pose proof (job_rows_reads jobs ident c c eq_refl) as R.
  rewrite H in R. simpl in R. congruence.
Qed.

Lemma job_rows_ok (jobs : list ref) :
  ∀ ident c,
    (∀ j, j ∈ jobs → is_Some (trackers c !! j)) →
    ∃ rows,
      job_rows ident jobs c = Return rows c ∧
      length rows = length jobs ∧
      ∀ i j t, jobs !! i = Some j → trackers c !! j = Some t →
               rows !! i = Some (job_row (ident + i) t).
Proof.
  induction jobs as [|j rest IH]; intros ident c Hall.
  - exists []. split_and!; [reflexivity..|]. intros i j t Hi. done.
  - destruct (Hall j) as [t Ht]; [left|].
    destruct (IH (S ident) c) as (rows & Hrows & Hlen & Hrow).
    { intros k Hk. apply Hall. now right. }
    exists (job_row ident t :: rows). split_and!.
    + cbn [job_rows]. unfold bind, deref. now rewrite Ht, Hrows.
    + simpl. now rewrite Hlen.
    + intros [|i] k t' Hi Hk; simpl in *.
      * injection Hi as <-. rewrite Ht in Hk. injection Hk as <-.
        now rewrite Nat.add_0_r.
      * rewrite (Hrow i k t' Hi Hk). do 2 f_equal. lia.
Qed.

(** The Status cell of a row is the tracker's [status]; the index cell is
    dimmed exactly when the tracker has no thread. *)
Lemma job_row_cells (ident : nat) (t : Tracker) :
  job_row ident t !! 4 = Some (status t) ∧
  job_row ident t !! 0 =
    Some (">" +:+ (if bool_decide (thread t = None) then Style_DIM else "")
              +:+ str (Z.of_nat ident)).
Proof.
  split; [reflexivity|]. unfold job_row. now destruct (thread t).
Qed.

Lemma thread_join_started (r : ref) (c : Console) (t : Tracker) (th : Thread) :
  trackers c !! r = Some t → thread t = Some th → started th = true →
  thread_join_ r c = Return tt (report (thread_join r) c).
Proof.
  intros Ht Hth Hst. unfold thread_join_, bind, deref.
  now rewrite Ht, Hth, Hst.
Qed.

(** Draining a queue that holds each tracker once, each with a started
    thread still set. *)
Lemma reconcile_ok (queued : list ref) :
  ∀ c,
    self_job_events c = queued →
    NoDup queued →
    (∀ r, r ∈ queued →
          ∃ t th, trackers c !! r = Some t ∧ thread t = Some th ∧
                  started th = true) →
    reconcile queued c =
      Return tt
        {| trackers := alter_all (set_thread None) queued (trackers c);
           self_jobs := self_jobs c;
           self_job_events := [];
           output := output c ++ map thread_join queued |}.
Proof.
  induction queued as [|r rest IH]; intros c Hq Hnd Hlive.
  - destruct c; simpl in *. subst. now rewrite app_nil_r.
  - apply NoDup_cons in Hnd as [Hr Hnd].
    destruct (Hlive r) as (t & th & Ht & Hth & Hst); [left|].
    cbn [reconcile]. cbv [bind modify].
    rewrite (thread_join_started r (with_job_events rest c) t th Ht Hth Hst).
    cbv [assign modify]. rewrite IH; simpl.
    + now rewrite <- app_assoc.
    + reflexivity.
    + exact Hnd.
    + intros k Hk.
      destruct (Hlive k) as (tk & thk & Htk & Hthk & Hstk); [now right|].
      exists tk, thk. split; [|done].
      rewrite list_lookup_alter_ne; [done|]. intros ->. done.
Qed.

Lemma thread_join_keeps (r : ref) (c : Console) :
  self_jobs (console_of (thread_join_ r c)) = self_jobs c ∧
  self_job_events (console_of (thread_join_ r c)) = self_job_events c.
Proof.
  unfold thread_join_, bind, deref.
  destruct (trackers c !! r) as [t|]; [|done].
  destruct (thread t) as [th|]; [|done]. now destruct (started th).
Qed.

Lemma reconcile_returns (queued : list ref) :
  ∀ c c', self_job_events c = queued →
          reconcile queued c = Return tt c' →
          self_job_events c' = [] ∧ self_jobs c' = self_jobs c.
Proof.
  induction queued as [|r rest IH]; intros c c' Hq H.
  - injection H as <-. done.
  - cbn [reconcile] in H. cbv [bind modify] in H.
    pose proof (thread_join_keeps r (with_job_events rest c)) as [Hj Hqq].
    destruct (thread_join_ r (with_job_events rest c)) as [[] c1| |];
      [|done..].
    cbv [assign modify] in H. simpl in Hj, Hqq.
    apply IH in H; [|exact Hqq]. destruct H as [H1 H2]. split; [done|].
    now rewrite H2.
Qed.

Lemma reconcile_keeps_jobs (queued : list ref) :
  ∀ c, self_jobs (console_of (reconcile queued c)) = self_jobs c.
Proof.
  induction queued as [|r rest IH]; intros c; [reflexivity|].
  cbn [reconcile]. cbv [bind modify].
  pose proof (thread_join_keeps r (with_job_events rest c)) as [Hj _].
  destruct (thread_join_ r (with_job_events rest c)) as [[] c1| |];
    simpl in *; try done.
  cbv [assign modify]. now rewrite IH.
Qed.

Lemma jobs_list_keeps_jobs (c : Console) :
  self_jobs (console_of (_jobs_list c)) = self_jobs c.
Proof.
  unfold _jobs_list, bind, gets.
  pose proof (reconcile_keeps_jobs (self_job_events c) c) as Hr.
  destruct (reconcile (self_job_events c) c) as [[] c1| |]; simpl in *; try done.
  pose proof (job_rows_reads (self_jobs c1) 0 c1 c1 eq_refl) as Hrows.
  destruct (job_rows 0 (self_jobs c1) c1) as [rows c2|e c2|c2];
    simpl in *; congruence.
Qed.

Lemma jobs_kill_keeps_jobs (c : Console) (i : Z) :
  self_jobs (console_of (_jobs_kill i c)) = self_jobs c.
Proof.
  unfold _jobs_kill, bind, gets, getitem.
  destruct ((i <? 0)%Z || (i >=? Z.of_nat (length (self_jobs c)))%Z);
    [reflexivity|].
  destruct (py_getitem (self_jobs c) i) as [j|]; [|reflexivity].
  unfold ret, deref. destruct (trackers c !! j) as [t|]; [|reflexivity].
  now destruct (thread t).
Qed.

(** [jobs list] on any queue that holds each tracker at most once, each
    with its started thread still set: it returns without waiting on the
    queue; it has emptied the queue, joined the thread of each queued
    tracker in queue order, and cleared exactly those handles, writing no
    other attribute of any tracker; and the table it prints has one row per
    job, in table order, whose Status cell is the job's [status] attribute
    and whose index cell is dimmed exactly when the job's handle is now
    cleared. *)
Lemma jobs_list_drains (c : Console) :
  NoDup (self_job_events c) →
  (∀ r, r ∈ self_job_events c →
        ∃ t th, trackers c !! r = Some t ∧ thread t = Some th ∧
                started th = true) →
  (∀ j, j ∈ self_jobs c → is_Some (trackers c !! j)) →
  ∃ c' rows,
    _jobs_list c = Return tt c' ∧
    self_job_events c' = [] ∧
    self_jobs c' = self_jobs c ∧
    output c' =
      output c ++ map thread_join (self_job_events c)
               ++ [ppaged_table (table_header :: rows)] ∧
    (∀ r, trackers c' !! r =
          (if bool_decide (r ∈ self_job_events c)
           then set_thread None else id) <$> trackers c !! r) ∧
    length rows = length (self_jobs c) ∧
    (∀ i j t, self_jobs c !! i = Some j → trackers c !! j = Some t →
       ∃ t', trackers c' !! j = Some t' ∧
             rows !! i = Some (job_row i t') ∧
             job_row i t' !! 4 = Some (status t) ∧
             job_row i t' !! 0 =
               Some (">" +:+ (if bool_decide (thread t' = None)
                              then Style_DIM else "")
                         +:+ str (Z.of_nat i))).
Proof.
  intros Hnd Hlive Hjobs.
  assert (Hclear : ∀ ts k,
    alter_all (set_thread None) (self_job_events c) ts !! k =
    (if bool_decide (k ∈ self_job_events c) then set_thread None else id)
      <$> ts !! k) by (apply alter_all_lookup; reflexivity).
  pose proof (reconcile_ok (self_job_events c) c eq_refl Hnd Hlive) as Hrec.
  set (c1 := {| trackers := alter_all (set_thread None) (self_job_events c)
                              (trackers c);
                self_jobs := self_jobs c; self_job_events := [];
                output := output c ++ map thread_join (self_job_events c) |})
    in Hrec.
  destruct (job_rows_ok (self_jobs c) 0 c1) as (rows & Hrows & Hlen & Hrow).
  { intros j Hj. simpl. rewrite Hclear.
    destruct (Hjobs j Hj) as [t ->]. simpl. eauto. }
  exists (report (ppaged_table (table_header :: rows)) c1), rows.
  split_and!.
  - unfold _jobs_list, bind, gets. rewrite Hrec. simpl.
    fold c1. now rewrite Hrows.
  - reflexivity.
  - reflexivity.
  - simpl. now rewrite <- app_assoc.
  - intros r. simpl. apply Hclear.
  - exact Hlen.
  - intros i j t Hi Ht.
    assert (Ht' : trackers c1 !! j =
              Some ((if bool_decide (j ∈ self_job_events c)
                     then set_thread None else id) t)).
    { simpl. now rewrite Hclear, Ht. }
    eexists. split; [exact Ht'|]. split; [exact (Hrow i j _ Hi Ht')|].
    split; [|apply job_row_cells].
    now destruct (bool_decide (j ∈ self_job_events c)).
Qed.

(** The end of a background job whose lock is free: the job is completed
    and its signal is the newest entry of the job table's queue. *)
Lemma finish_ok (r : ref) (c : Console) (t : Tracker) :
  trackers c !! r = Some t → lock t = false →
  events t = Some shared_queue →
  finish r c =
    Return tt
      {| trackers := alter (set_status "completed") r (trackers c);
         self_jobs := self_jobs c;
         self_job_events := self_job_events c ++ [r];
         output := output c |}.
Proof.
  intros Ht Hl He. unfold finish, with_lock.
  cbv [bind assign modify deref ret]. simpl.
  rewrite list_lookup_alter_eq, Ht. simpl. rewrite Hl. simpl.
  rewrite list_lookup_alter_eq, list_lookup_alter_eq, Ht. simpl.
  rewrite He. simpl. f_equal. rewrite !list_alter_alter_eq.
  unfold with_trackers, with_job_events. simpl. f_equal.
  apply list_alter_ext; [|reflexivity].
  intros t0 Ht0. rewrite Ht in Ht0. injection Ht0 as <-.
  destruct t; simpl in *. now subst.
Qed.

Lemma finish_all_ok (finished : list ref) :
  ∀ c,
    NoDup finished →
    (∀ r, r ∈ finished →
          ∃ t, trackers c !! r = Some t ∧ lock t = false ∧
               events t = Some shared_queue) →
    finish_all finished c =
      Return tt
        {| trackers :=
             alter_all (set_status "completed") finished (trackers c);
           self_jobs := self_jobs c;
           self_job_events := self_job_events c ++ finished;
           output := output c |}.
Proof.
  induction finished as [|r rest IH]; intros c Hnd Hall.
  - destruct c; simpl. now rewrite app_nil_r.
  - apply NoDup_cons in Hnd as [Hr Hnd].
    destruct (Hall r) as (t & Ht & Hl & He); [left|].
    cbn [finish_all]. unfold bind. rewrite (finish_ok r c t Ht Hl He).
    rewrite IH; simpl.
    + now rewrite <- app_assoc.
    + exact Hnd.
    + intros k Hk. destruct (Hall k) as (tk & Htk & Hlk & Hek); [now right|].
      exists tk. split; [|done].
      rewrite list_lookup_alter_ne; [done|]. intros ->. done.
Qed.

(** C6.  [jobs list] first reconciles the queued completion signals.  On
    any queue that holds each tracker at most once with its thread still
    set, it returns without waiting on the queue, having emptied it, joined
    the thread of each queued tracker in queue order and cleared exactly
    those handles; the Status cell of each row is the job's [status]
    attribute, which [jobs list] does not write (line 190 is commented
    out).  That attribute is written by the job's own executor, which marks
    the job completed before it sends the signal: when the signals of the
    queue have been sent by executors ending, the queued jobs are completed
    already, and every job whose signal [jobs list] consumed is shown as
    completed, with its handle cleared; the other jobs are shown as they
    were. *)
Theorem jobs_list_reconciles :
  (∀ c,
     NoDup (self_job_events c) →
     (∀ r, r ∈ self_job_events c →
           ∃ t th, trackers c !! r = Some t ∧ thread t = Some th ∧
                   started th = true) →
     (∀ j, j ∈ self_jobs c → is_Some (trackers c !! j)) →
     ∃ c' rows,
       _jobs_list c = Return tt c' ∧
       self_job_events c' = [] ∧
       self_jobs c' = self_jobs c ∧
       output c' =
         output c ++ map thread_join (self_job_events c)
                  ++ [ppaged_table (table_header :: rows)] ∧
       (∀ r, trackers c' !! r =
             (if bool_decide (r ∈ self_job_events c)
              then set_thread None else id) <$> trackers c !! r) ∧
       length rows = length (self_jobs c) ∧
       (∀ i j t, self_jobs c !! i = Some j → trackers c !! j = Some t →
          ∃ t', trackers c' !! j = Some t' ∧
                rows !! i = Some (job_row i t') ∧
                job_row i t' !! 4 = Some (status t) ∧
                job_row i t' !! 0 =
                  Some (">" +:+ (if bool_decide (thread t' = None)
                                 then Style_DIM else "")
                            +:+ str (Z.of_nat i)))) ∧
  (∀ c0 finished,
     NoDup (self_job_events c0 ++ finished) →
     (∀ r, r ∈ self_job_events c0 →
           ∃ t th, trackers c0 !! r = Some t ∧ thread t = Some th ∧
                   started th = true ∧ status t = "completed") →
     (∀ r, r ∈ finished →
           ∃ t th, trackers c0 !! r = Some t ∧ thread t = Some th ∧
                   started th = true ∧ lock t = false ∧
                   events t = Some shared_queue) →
     (∀ j, j ∈ self_jobs c0 → is_Some (trackers c0 !! j)) →
     ∃ c c' rows,
       finish_all finished c0 = Return tt c ∧
       self_job_events c = self_job_events c0 ++ finished ∧
       _jobs_list c = Return tt c' ∧
       self_job_events c' = [] ∧
       self_jobs c' = self_jobs c0 ∧
       output c' =
         output c0 ++ map thread_join (self_job_events c0 ++ finished)
                   ++ [ppaged_table (table_header :: rows)] ∧
       length rows = length (self_jobs c0) ∧
       (∀ i j, self_jobs c0 !! i = Some j →
               j ∈ self_job_events c0 ++ finished →
          ∃ t', trackers c' !! j = Some t' ∧
                thread t' = None ∧ status t' = "completed" ∧
                rows !! i = Some (job_row i t') ∧
                job_row i t' !! 4 = Some "completed") ∧
       (∀ i j t, self_jobs c0 !! i = Some j →
                 j ∉ self_job_events c0 ++ finished →
                 trackers c0 !! j = Some t →
          trackers c' !! j = Some t ∧ rows !! i = Some (job_row i t))).
Proof.
  split; [exact jobs_list_drains|].
  intros c0 finished Hnd Hqueued Hfin Hjobs.
  apply NoDup_app in Hnd as Hnd'. destruct Hnd' as (Hndq & Hdisj & Hndf).
  assert (Hdone : ∀ ts k,
    alter_all (set_status "completed") finished ts !! k =
    (if bool_decide (k ∈ finished) then set_status "completed" else id)
      <$> ts !! k) by (apply alter_all_lookup; reflexivity).
  pose proof (finish_all_ok finished c0 Hndf) as Hrun.
  set (c := {| trackers :=
                 alter_all (set_status "completed") finished (trackers c0);
               self_jobs := self_jobs c0;
               self_job_events := self_job_events c0 ++ finished;
               output := output c0 |}) in Hrun.
  assert (Hc : finish_all finished c0 = Return tt c).
  { apply Hrun. intros r Hr.
    destruct (Hfin r Hr) as (t & th & Ht & _ & _ & Hl & He). eauto. }
  assert (Hstat : ∀ j, j ∈ self_job_events c0 ++ finished →
            ∃ t th, trackers c !! j = Some t ∧ thread t = Some th ∧
                    started th = true ∧ status t = "completed").
  { intros j Hj. simpl. rewrite Hdone. apply elem_of_app in Hj as [Hj|Hj].
    - destruct (Hqueued j Hj) as (t & th & Ht & Hth & Hst & Hs).
      rewrite Ht. simpl.
      destruct (bool_decide (j ∈ finished)); eexists _, th; done.
    - destruct (Hfin j Hj) as (t & th & Ht & Hth & Hst & _).
      rewrite Ht, (bool_decide_eq_true_2 _ Hj). simpl.
      eexists _, th; done. }
  destruct (jobs_list_drains c) as
    (c' & rows & Hlist & Hq & Hj & Hout & Hts & Hlen & Hrows).
  { exact Hnd. }
  { intros r Hr. destruct (Hstat r Hr) as (t & th & ? & ? & ? & _). eauto. }
  { intros j Hj'. simpl. rewrite Hdone.
    destruct (Hjobs j Hj') as [t ->]. simpl. eauto. }
  exists c, c', rows. split_and!; try done.
  - intros i j Hi Hin.
    destruct (Hstat j Hin) as (t & th & Ht & Hth & Hst & Hs).
    destruct (Hrows i j t Hi Ht) as (t' & Ht' & Hrow & Hcell & _).
    exists t'. rewrite Hs in Hcell. split_and!; try done.
    + rewrite Hts, Ht in Ht'. simpl in Ht'.
      rewrite (bool_decide_eq_true_2 _ Hin) in Ht'. simpl in Ht'.
      now injection Ht' as <-.
    + rewrite Hts, Ht in Ht'. simpl in Ht'.
      rewrite (bool_decide_eq_true_2 _ Hin) in Ht'. simpl in Ht'.
      now injection Ht' as <-.
  - intros i j t Hi Hout' Ht.
    assert (Hnf : j ∉ finished)
      by (intros ?; apply Hout'; apply elem_of_app; now right).
    assert (Htc : trackers c !! j = Some t).
    { simpl. rewrite Hdone, Ht. simpl.
      now rewrite (bool_decide_eq_false_2 _ Hnf). }
    destruct (Hrows i j t Hi Htc) as (t' & Ht' & Hrow & _).
    assert (Hc' : trackers c' !! j = Some t).
    { rewrite Hts, Htc. simpl.
      now rewrite (bool_decide_eq_false_2 _ Hout'). }
    rewrite Hc' in Ht'. injection Ht' as <-. done.
Qed.

Lemma jobs_list_reconciles_witness :
  ∃ c c' rows,
    finish_all [0] one_job = Return tt c ∧
    self_job_events c = self_job_events one_job ++ [0] ∧
    _jobs_list c = Return tt c' ∧
    self_job_events c' = [] ∧
    self_jobs c' = self_jobs one_job ∧
    output c' =
      output one_job ++ map thread_join (self_job_events one_job ++ [0])
                     ++ [ppaged_table (table_header :: rows)] ∧
    length rows = length (self_jobs one_job) ∧
    (∀ i j, self_jobs one_job !! i = Some j →
            j ∈ self_job_events one_job ++ [0] →
       ∃ t', trackers c' !! j = Some t' ∧
             thread t' = None ∧ status t' = "completed" ∧
             rows !! i = Some (job_row i t') ∧
             job_row i t' !! 4 = Some "completed") ∧
    (∀ i j t, self_jobs one_job !! i = Some j →
              j ∉ self_job_events one_job ++ [0] →
              trackers one_job !! j = Some t →
       trackers c' !! j = Some t ∧ rows !! i = Some (job_row i t)).
Proof.
  apply (proj2 jobs_list_reconciles one_job [0]).
  - simpl. apply NoDup_singleton.
  - intros r Hr. simpl in Hr. now apply elem_of_nil in Hr.
  - intros r Hr. apply list_elem_of_singleton in Hr as ->.
    exists background_job, {| started := true; daemon := false |}.
    split_and!; reflexivity.
  - intros j Hj. apply list_elem_of_singleton in Hj as ->. simpl. eauto.
Defined.

(** C7.  When [jobs list] has returned, calling it again with nothing new
    on the queue prints the same table and does nothing else: it joins no
    thread and leaves every tracker, the job table and the queue as the
    first call left them. *)
Theorem jobs_list_idempotent (c c1 : Console) :
  _jobs_list c = Return tt c1 →
  ∃ table,
    last (output c1) = Some (ppaged_table table) ∧
    _jobs_list c1 = Return tt (report (ppaged_table table) c1).
Proof.
  unfold _jobs_list at 1. unfold bind, gets.
  destruct (reconcile (self_job_events c) c) as [[] c0| |] eqn:Hrec; [|done..].
  destruct (job_rows 0 (self_jobs c0) c0) as [rows c0'| |] eqn:Hrows; [|done..].
  intros H. injection H as <-.
  pose proof (job_rows_returns _ _ _ _ _ Hrows) as ->.
  destruct (reconcile_returns _ c c0 eq_refl Hrec) as [Hq Hj].
  exists (table_header :: rows). split.
  - simpl. apply last_snoc.
  - unfold _jobs_list, bind, gets. simpl. rewrite Hq. simpl.
    rewrite (job_rows_reads (self_jobs c0) 0 c0
               (report (ppaged_table (table_header :: rows)) c0) eq_refl).
    now rewrite Hrows.
Qed.

Lemma jobs_list_idempotent_witness :
  ∃ table,
    last (output one_job_listed) = Some (ppaged_table table) ∧
    _jobs_list one_job_listed =
      Return tt (report (ppaged_table table) one_job_listed).
Proof.
  apply (jobs_list_idempotent one_job_signalled). vm_compute. reflexivity.
Defined.

(** ** The foreground monitor *)

(** The monitor up to its wait: the private queue is stored in
    [job_events], the lock is released, the suspend handler installed. *)
Lemma monitor_scan_prologue (c : Console) (r : ref) (t : Tracker) :
  trackers c !! r = Some t → lock t = true →
  (assign r (set_job_events (Some (local_queue r))) ;;
   lock_release r ;;
   emit (signal_SIGTSTP background_me)) c =
  Return tt
    (report (signal_SIGTSTP background_me)
       (with_trackers (<[r := watched r t]> (trackers c)) c)).
Proof.
  intros Ht Hl. cbv [bind assign lock_release modify deref emit]. simpl.
  rewrite list_lookup_alter_eq, Ht. simpl. rewrite Hl. simpl.
  rewrite list_alter_alter_eq. now rewrite (alter_insert _ _ _ _ Ht).
Qed.

Lemma monitor_scan_unfold (r : ref) (env : list WatchEvent) (c : Console) :
  monitor_scan r env c =
  match (assign r (set_job_events (Some (local_queue r))) ;;
         lock_release r ;;
         emit (signal_SIGTSTP background_me)) c with
  | Return _ c1 =>
      match env with
      | [] => Blocked c1
      | completion _ :: env' =>
          (emit (signal_SIGTSTP SIG_DFL) ;; ret env') c1
      | KeyboardInterrupt :: env' =>
          (let* t := deref r in
           pwarning ("cancelling " +:+ scanner_name (scanner t) +:+ " for "
                     +:+ port_proto t) ;;
           assign r (set_stop true) ;;
           emit (signal_SIGTSTP SIG_DFL) ;;
           ret env') c1
      | SIGTSTP :: env' =>
          (emit (signal_SIGTSTP SIG_DFL) ;;
           with_lock r
             (let* t := deref r in
              pwarning ("backgrounding " +:+ scanner_name (scanner t)
                        +:+ " for " +:+ port_proto t) ;;
              assign r (set_silent true) ;;
              assign r (set_events (Some shared_queue)) ;;
              jobs_append r) ;;
           ret env') c1
      end
  | Raise e c1 => Raise e c1
  | Blocked c1 => Blocked c1
  end.
Proof.
  unfold monitor_scan, bind.
  destruct (assign r _ c) as [[] c1| |]; [|reflexivity..].
  destruct (lock_release r c1) as [[] c2| |]; [|reflexivity..].
  destruct (emit _ c2) as [[] c3| |]; [|reflexivity..].
  destruct env as [|[]]; reflexivity.
Qed.

(** C3, as the code has it.  An interrupt while a job is watched makes the
    monitor print the cancelling warning, set the job's stop flag, restore
    the default suspend handler and return; it consumes no further event,
    so it does not wait for the completion signal, and the job is not put
    in the job table. *)
Theorem monitor_scan_interrupt
    (c : Console) (r : ref) (t : Tracker) (env : list WatchEvent) :
  trackers c !! r = Some t → lock t = true →
  monitor_scan r (KeyboardInterrupt :: env) c =
    Return env
      {| trackers := <[r := set_stop true (watched r t)]> (trackers c);
         self_jobs := self_jobs c;
         self_job_events := self_job_events c;
         output :=
           output c ++
           [signal_SIGTSTP background_me;
            pwarning_msg ("cancelling " +:+ scanner_name (scanner t)
                          +:+ " for " +:+ port_proto t);
            signal_SIGTSTP SIG_DFL] |}.
Proof.
  intros Ht Hl. rewrite monitor_scan_unfold, (monitor_scan_prologue c r t Ht Hl).
  cbv [bind deref pwarning emit assign modify ret]. simpl.
  rewrite (lookup_insert_here _ _ _ _ Ht). simpl.
  rewrite (alter_insert _ _ _ _ (lookup_insert_here _ _ _ _ Ht)).
  rewrite list_insert_insert_eq.
  unfold report, with_trackers. simpl. now rewrite <- !app_assoc.
Qed.

(** The detach step: on the suspend signal the monitor restores the default
    handler and, holding the job's lock, prints the backgrounding warning,
    marks the job silent, stores the job table's queue in the job's [events]
    attribute, and appends the job to the table once; it returns with the
    lock released and without consuming any further event. *)
Lemma monitor_scan_suspend
    (c : Console) (r : ref) (t : Tracker) (env : list WatchEvent) :
  trackers c !! r = Some t → lock t = true →
  monitor_scan r (SIGTSTP :: env) c =
    Return env
      {| trackers :=
           <[r := detached r t]> (trackers c);
         self_jobs := self_jobs c ++ [r];
         self_job_events := self_job_events c;
         output :=
           output c ++
           [signal_SIGTSTP background_me;
            signal_SIGTSTP SIG_DFL;
            pwarning_msg ("backgrounding " +:+ scanner_name (scanner t)
                          +:+ " for " +:+ port_proto t)] |}.
Proof.
  intros Ht Hl. rewrite monitor_scan_unfold, (monitor_scan_prologue c r t Ht Hl).
  pose proof (lookup_insert_here _ _ _ (watched r t) Ht) as H1.
  cbv [bind with_lock deref pwarning emit assign jobs_append modify ret].
  simpl.
  rewrite H1. simpl.
  rewrite list_lookup_alter_eq, H1. simpl.
  rewrite !list_alter_alter_eq.
  rewrite (alter_insert _ _ _ _ H1), list_insert_insert_eq.
  unfold report, with_trackers, with_jobs. simpl. now rewrite <- !app_assoc.
Qed.

Lemma monitor_scan_completion
    (c : Console) (r r' : ref) (t : Tracker) (env : list WatchEvent) :
  trackers c !! r = Some t → lock t = true →
  monitor_scan r (completion r' :: env) c =
    Return env
      {| trackers := <[r := watched r t]> (trackers c);
         self_jobs := self_jobs c;
         self_job_events := self_job_events c;
         output :=
           output c ++
           [signal_SIGTSTP background_me; signal_SIGTSTP SIG_DFL] |}.
Proof.
  intros Ht Hl. rewrite monitor_scan_unfold, (monitor_scan_prologue c r t Ht Hl).
  cbv [bind emit modify ret]. unfold report, with_trackers. simpl.
  now rewrite <- !app_assoc.
Qed.

Lemma monitor_scan_waits (c : Console) (r : ref) (t : Tracker) :
  trackers c !! r = Some t → lock t = true →
  monitor_scan r [] c =
    Blocked (report (signal_SIGTSTP background_me)
               (with_trackers (<[r := watched r t]> (trackers c)) c)).
Proof.
  intros Ht Hl.
  now rewrite monitor_scan_unfold, (monitor_scan_prologue c r t Ht Hl).
Qed.

Lemma monitor_scan_interrupt_witness :
  monitor_scan 0 [KeyboardInterrupt; completion 0] one_fresh =
    Return [completion 0]
      {| trackers := <[0 := set_stop true (watched 0 fresh_job)]>
                       (trackers one_fresh);
         self_jobs := self_jobs one_fresh;
         self_job_events := self_job_events one_fresh;
         output :=
           output one_fresh ++
           [signal_SIGTSTP background_me;
            pwarning_msg ("cancelling " +:+ scanner_name (scanner fresh_job)
                          +:+ " for " +:+ port_proto fresh_job);
            signal_SIGTSTP SIG_DFL] |}.
Proof.
  apply (monitor_scan_interrupt one_fresh 0 fresh_job [completion 0]);
    reflexivity.
Defined.

(** A watched job is interrupted and nothing else ever happens: the monitor
    has returned, with the job's stop flag set, its thread not joined and
    the job in no table. *)
Lemma monitor_scan_interrupt_counterexample :
  monitor_scan 0 [KeyboardInterrupt] one_fresh =
    Return []
      {| trackers := [set_stop true (watched 0 fresh_job)];
         self_jobs := [];
         self_job_events := [];
         output := [signal_SIGTSTP background_me;
                    pwarning_msg "cancelling S1 for 80/tcp";
                    signal_SIGTSTP SIG_DFL] |} ∧
  ¬ interrupt_keeps_waiting.
Proof.
  assert (E : monitor_scan 0 [KeyboardInterrupt] one_fresh =
    Return []
      {| trackers := [set_stop true (watched 0 fresh_job)];
         self_jobs := [];
         self_job_events := [];
         output := [signal_SIGTSTP background_me;
                    pwarning_msg "cancelling S1 for 80/tcp";
                    signal_SIGTSTP SIG_DFL] |}) by (vm_compute; reflexivity).
  split; [exact E|]. intros H.
  destruct (H one_fresh 0 fresh_job [] [] _ eq_refl eq_refl E)
    as (pre & r' & Hp).
  now destruct pre.
Qed.

(** ** Draining at exit *)

Lemma stop_all_run (jobs : list ref) :
  ∀ c, stop_all jobs c =
       Return tt (with_trackers (alter_all (set_stop true) jobs (trackers c)) c).
Proof.
  induction jobs as [|j rest IH]; intros c; [now destruct c|].
  cbn [stop_all]. cbv [bind assign modify]. now rewrite IH.
Qed.

Lemma mark_completed_run (r : ref) (c : Console) :
  mark_completed r c = Return tt (with_trackers (alter marked r (trackers c)) c).
Proof.
  cbv [mark_completed bind assign modify]. unfold with_trackers. simpl.
  now rewrite list_alter_alter_eq.
Qed.

Lemma only_marked_refl (c : Console) : only_marked c c.
Proof. split_and!; auto. Qed.

Lemma only_marked_trans (c1 c2 c3 : Console) :
  only_marked c1 c2 → only_marked c2 c3 → only_marked c1 c3.
Proof.
  intros (J1 & O1 & T1) (J2 & O2 & T2). split_and!; [congruence..|].
  intros r. destruct (T2 r) as [E2|E2], (T1 r) as [E1|E1];
    rewrite E2, E1; auto.
  right. now destruct (trackers c1 !! r).
Qed.

Lemma only_marked_step (r : ref) (q : list ref) (c : Console) :
  only_marked c (with_trackers (alter marked r (trackers c))
                   (with_job_events q c)).
Proof.
  split_and!; [reflexivity..|]. intros k. simpl.
  destruct (decide (r = k)) as [->|Hne].
  - right. apply list_lookup_alter_eq.
  - left. now apply list_lookup_alter_ne.
Qed.

Lemma wait_result_mono env c1 c2 o :
  only_marked c1 c2 → wait_result env c2 o → wait_result env c1 o.
Proof.
  intros H12. destruct o as [[[] ?] c'| |c']; simpl; try done;
    intros [H ?]; split; eauto using only_marked_trans.
Qed.

Lemma wait_result_later e env c o :
  wait_result env c o → wait_result (e :: env) c o.
Proof.
  destruct o as [[[] ?] c'| |c']; simpl; try done.
  intros [? ?]. split; [done|]. now right.
Qed.

Lemma wait_arrivals_result (env : list DrainEvent) :
  ∀ c, wait_result env c (wait_arrivals env c).
Proof.
  induction env as [|e env IH]; intros c; cbn [wait_arrivals];
    destruct (live_jobs c) as [|j l] eqn:Hlive.
  - split; [apply only_marked_refl|done].
  - split; [apply only_marked_refl|]. now rewrite Hlive.
  - split; [apply only_marked_refl|done].
  - destruct e as [r|].
    + unfold bind. rewrite mark_completed_run.
      apply wait_result_later.
      eapply wait_result_mono; [|apply IH].
      destruct c as [ts js q out]. exact (only_marked_step r q _).
    + split; [apply only_marked_refl|left].
Qed.

Lemma wait_queued_result (queued : list ref) (env : list DrainEvent) :
  ∀ c, wait_result env c (wait_queued queued env c).
Proof.
  induction queued as [|r rest IH]; intros c; cbn [wait_queued];
    destruct (live_jobs c) as [|j l] eqn:Hlive.
  - split; [apply only_marked_refl|done].
  - apply wait_arrivals_result.
  - split; [apply only_marked_refl|done].
  - assert (Htake : wait_result env c
              ((modify (with_job_events rest) ;; mark_completed r ;;
                wait_queued rest env) c)).
    { cbv [bind modify]. rewrite mark_completed_run.
      eapply wait_result_mono; [|apply IH].
      exact (only_marked_step r rest c). }
    destruct env as [|[k|] env']; [exact Htake..|].
    split; [apply only_marked_refl|left].
Qed.

Lemma wait_jobs_result (env : list DrainEvent) (c : Console) :
  wait_result env c (wait_jobs env c).
Proof. apply wait_queued_result. Qed.

Lemma live_jobs_elem (c : Console) (j : ref) :
  j ∈ live_jobs c ↔ j ∈ self_jobs c ∧ has_thread c j = true.
Proof.
  unfold live_jobs. rewrite !list_elem_of_In, filter_In. reflexivity.
Qed.

Lemma live_jobs_nil (c : Console) (j : ref) :
  live_jobs c = [] → j ∈ self_jobs c → has_thread c j = false.
Proof.
  intros Hnil Hj. destruct (has_thread c j) eqn:E; [|done].
  assert (H : j ∈ live_jobs c) by now apply live_jobs_elem.
  rewrite Hnil in H. now apply not_elem_of_nil in H.
Qed.

Lemma drained_all_joined (c c' : Console) :
  only_marked c c' → live_jobs c' = [] → all_joined c c'.
Proof.
  intros (Hj & _ & Hts) Hnil. split; [done|]. intros j t Hin Ht.
  destruct (Hts j) as [E|E]; rewrite Ht in E.
  - exists t. split; [done|].
    assert (Hth : has_thread c' j = false).
    { apply live_jobs_nil; [done|]. now rewrite Hj. }
    unfold has_thread in Hth. rewrite E in Hth.
    destruct (thread t); [done|]. split_and!; done.
  - exists (marked t). split_and!; done.
Qed.

Lemma drain_jobs_announced (env : list DrainEvent) (c : Console) :
  drain_jobs env c = drain_wait env (announced c).
Proof.
  unfold drain_jobs, announced, bind, gets.
  now destruct (live_jobs c).
Qed.

Lemma announced_same (c : Console) :
  self_jobs (announced c) = self_jobs c ∧
  trackers (announced c) = trackers c.
Proof. unfold announced. now destruct (live_jobs c). Qed.

Lemma wait_jobs_blocked (c : Console) :
  waiting c → wait_jobs [] c = Blocked c.
Proof.
  intros [Hl Hq]. unfold wait_jobs, bind, gets. rewrite Hq. simpl.
  destruct (live_jobs c); [congruence|reflexivity].
Qed.

Lemma wait_queued_nil (env : list DrainEvent) (c : Console) :
  wait_queued [] env c = wait_arrivals env c.
Proof.
  destruct env; simpl; destruct (live_jobs c) eqn:E; done.
Qed.

Lemma wait_jobs_arrival (c : Console) (r : ref) (env : list DrainEvent) :
  waiting c →
  wait_jobs (arrival r :: env) c = (mark_completed r ;; wait_jobs env) c.
Proof.
  intros [Hl Hq]. unfold wait_jobs at 1. unfold bind, gets. rewrite Hq.
  rewrite wait_queued_nil. simpl.
  destruct (live_jobs c) eqn:E; [done|]. unfold bind.
  rewrite mark_completed_run. unfold wait_jobs, bind, gets. simpl.
  rewrite Hq, wait_queued_nil. unfold with_trackers. simpl.
  now rewrite list_alter_alter_eq.
Qed.

Lemma wait_jobs_interrupt (c : Console) (env : list DrainEvent) :
  waiting c → wait_jobs (interrupt :: env) c = Return (interrupted, env) c.
Proof.
  intros [Hl Hq]. unfold wait_jobs, bind, gets. rewrite Hq. simpl.
  destruct (live_jobs c); [congruence|reflexivity].
Qed.

Lemma on_first_interrupt_run (env : list DrainEvent) (c : Console) :
  on_first_interrupt env c = cancelled_wait env (cancelling c).
Proof.
  unfold on_first_interrupt. cbv [bind pwarning emit modify gets].
  now rewrite stop_all_run.
Qed.

Lemma no_interrupt_drained (env : list DrainEvent) (c c' : Console)
    (k : Waited * list DrainEvent → M unit) :
  interrupt ∉ env →
  (∀ env', k (drained, env') = ret tt) →
  (let* w := wait_jobs env in k w) c = Return tt c' →
  only_marked c c' ∧ live_jobs c' = [].
Proof.
  intros Hno Hk. unfold bind.
  pose proof (wait_jobs_result env c) as R.
  destruct (wait_jobs env c) as [[[] env'] c1| |]; simpl in R; try done.
  - rewrite Hk. intros H. injection H as <-. exact R.
  - now destruct R.
Qed.

Lemma cancelling_lookup (c : Console) (j : ref) :
  trackers (cancelling c) !! j =
  (if bool_decide (j ∈ self_jobs c) then set_stop true else id)
    <$> trackers c !! j.
Proof. apply alter_all_lookup. reflexivity. Qed.

Lemma cancelling_live (c : Console) : live_jobs (cancelling c) = live_jobs c.
Proof.
  unfold live_jobs. apply filter_ext. intros j. unfold has_thread.
  rewrite cancelling_lookup. destruct (trackers c !! j) as [t|]; [|done].
  simpl. now destruct (bool_decide (j ∈ self_jobs c)).
Qed.

(** Without an interrupt the drain returns only when every job of the
    table has its handle cleared, and each job that still had a thread has
    been marked completed. *)
Lemma drain_jobs_no_interrupt (env : list DrainEvent) (c c' : Console) :
  interrupt ∉ env → drain_jobs env c = Return tt c' → all_joined c c'.
Proof.
  intros Hno H. rewrite drain_jobs_announced in H.
  apply no_interrupt_drained in H as [Hm Hl]; [|done..].
  destruct (announced_same c) as [Hj Ht].
  destruct (drained_all_joined _ _ Hm Hl) as [Hj' Hall].
  split; [congruence|]. intros j t Hin Hjt. apply Hall; congruence.
Qed.

(** While a job has its thread and nothing arrives, the drain stays blocked
    on the queue. *)
Lemma drain_jobs_blocks (c : Console) :
  waiting c →
  drain_jobs [] c =
    Blocked (report (poutput_msg "waiting for background jobs to complete") c).
Proof.
  intros [Hl Hq]. rewrite drain_jobs_announced. unfold announced.
  destruct (live_jobs c) eqn:E; [done|].
  unfold drain_wait, bind. rewrite wait_jobs_blocked; [done|].
  split; [|done]. change (live_jobs c ≠ []). now rewrite E.
Qed.

(** A tracker that arrives is marked completed, its handle cleared, and
    the wait goes on. *)
Lemma drain_wait_arrival (c : Console) (r : ref) (env : list DrainEvent) :
  waiting c →
  drain_wait (arrival r :: env) c =
    drain_wait env (with_trackers (alter marked r (trackers c)) c).
Proof.
  intros Hw. unfold drain_wait, bind.
  rewrite wait_jobs_arrival by done. unfold bind.
  now rewrite mark_completed_run.
Qed.

(** The first interrupt: the cancelling warning is printed, the stop flag
    of every job in the table is set and nothing else changes, and the
    drain waits again. *)
Lemma drain_wait_first_interrupt (c : Console) (env : list DrainEvent) :
  waiting c →
  drain_wait (interrupt :: env) c = cancelled_wait env (cancelling c) ∧
  waiting (cancelling c) ∧
  self_jobs (cancelling c) = self_jobs c ∧
  output (cancelling c) =
    output c ++ [pwarning_msg "cancelling background jobs"] ∧
  ∀ j t, trackers c !! j = Some t →
    trackers (cancelling c) !! j =
      Some (if bool_decide (j ∈ self_jobs c) then set_stop true t else t).
Proof.
  intros Hw. split_and!.
  - unfold drain_wait, bind. rewrite wait_jobs_interrupt by done.
    apply on_first_interrupt_run.
  - destruct Hw as [Hl Hq]. split; [now rewrite cancelling_live|done].
  - reflexivity.
  - reflexivity.
  - intros j t Ht. rewrite cancelling_lookup, Ht. simpl.
    now destruct (bool_decide (j ∈ self_jobs c)).
Qed.

(** After the first interrupt the wait obeys the same rules. *)
Lemma cancelled_wait_no_interrupt (env : list DrainEvent) (c c' : Console) :
  interrupt ∉ env → cancelled_wait env c = Return tt c' → all_joined c c'.
Proof.
  intros Hno H. apply no_interrupt_drained in H as [Hm Hl]; [|done..].
  now apply drained_all_joined.
Qed.

Lemma cancelled_wait_blocks (c : Console) :
  waiting c → cancelled_wait [] c = Blocked c.
Proof.
  intros Hw. unfold cancelled_wait, bind. now rewrite wait_jobs_blocked.
Qed.

Lemma cancelled_wait_arrival (c : Console) (r : ref) (env : list DrainEvent) :
  waiting c →
  cancelled_wait (arrival r :: env) c =
    cancelled_wait env (with_trackers (alter marked r (trackers c)) c).
Proof.
  intros Hw. unfold cancelled_wait, bind.
  rewrite wait_jobs_arrival by done. unfold bind.
  now rewrite mark_completed_run.
Qed.

(** The second interrupt, when the first job still running has a started
    thread: the forcing warning is printed and the first assignment to
    [daemon] raises; no tracker is changed. *)
Lemma cancelled_wait_second_interrupt
    (c : Console) (env : list DrainEvent) (j : ref) (rest : list ref)
    (t : Tracker) (th : Thread) :
  self_job_events c = [] →
  live_jobs c = j :: rest →
  trackers c !! j = Some t → thread t = Some th → started th = true →
  cancelled_wait (interrupt :: env) c =
    Raise RuntimeError (report (pwarning_msg "forcing background job exit!") c).
Proof.
  intros Hq Hl Ht Hth Hst. unfold cancelled_wait, bind.
  rewrite wait_jobs_interrupt by (split; [now rewrite Hl|done]).
  unfold on_second_interrupt. cbv [bind pwarning emit modify gets].
  change (live_jobs (report _ c)) with (live_jobs c). rewrite Hl.
  cbn [abandon]. unfold bind, set_thread_daemon, bind, deref. simpl.
  now rewrite Ht, Hth, Hst.
Qed.

(** A job whose thread was never started does get its daemon flag. *)
Lemma set_thread_daemon_unstarted (c : Console) (j : ref) (t : Tracker)
    (th : Thread) :
  trackers c !! j = Some t → thread t = Some th → started th = false →
  set_thread_daemon j c =
    Return tt
      (with_trackers
         (<[j := set_thread (Some {| started := false; daemon := true |}) t]>
            (trackers c)) c).
Proof.
  intros Ht Hth Hst. unfold set_thread_daemon, bind, deref.
  rewrite Ht, Hth, Hst. unfold assign, modify.
  now rewrite (alter_insert _ _ _ _ Ht).
Qed.

(** C4.  One job is still running when the console exits and the operator
    interrupts the drain twice.  The first interrupt prints the cancelling
    warning and sets the job's stop flag; at the second the drain prints
    the forcing warning, and [j.thread.daemon = True] raises [RuntimeError]
    because the job's thread was started: the drain does not return, and
    the thread is still not a daemon. *)
Theorem drain_jobs_second_interrupt_raises :
  drain_jobs [interrupt; interrupt] one_job =
    Raise RuntimeError
      {| trackers := [set_stop true background_job];
         self_jobs := [0];
         self_job_events := [];
         output :=
           [poutput_msg "waiting for background jobs to complete";
            pwarning_msg "cancelling background jobs";
            pwarning_msg "forcing background job exit!"] |} ∧
  thread (set_stop true background_job) =
    Some {| started := true; daemon := false |}.
Proof. split; vm_compute; reflexivity. Qed.

(** ** Moving a watched job to the background *)

(** C2.  On the suspend signal the monitor, with the job's lock free,
    prints the backgrounding warning, marks the job silent, stores the job
    table's queue in the job's [events] attribute, appends the job to the
    table once, and returns without consuming another event.  [jobs list]
    and [jobs kill] never change the table, so the job stays in it.  When
    the job's executor ends, it finds the lock free and the job table's
    queue registered: the job's status becomes completed, its signal is
    sent to that queue once, and the table is as the monitor left it.  If
    the job's thread is still set when the console exits, a drain that is
    not interrupted returns only with the job's status completed and its
    handle cleared. *)
Theorem monitor_scan_detach
    (c : Console) (r : ref) (t : Tracker) (env : list WatchEvent) :
  trackers c !! r = Some t → lock t = true →
  ∃ c',
    monitor_scan r (SIGTSTP :: env) c = Return env c' ∧
    trackers c' = <[r := detached r t]> (trackers c) ∧
    silent (detached r t) = true ∧
    events (detached r t) = Some shared_queue ∧
    job_events (detached r t) = Some (local_queue r) ∧
    lock (detached r t) = false ∧
    self_jobs c' = self_jobs c ++ [r] ∧
    self_job_events c' = self_job_events c ∧
    output c' =
      output c ++
      [signal_SIGTSTP background_me; signal_SIGTSTP SIG_DFL;
       pwarning_msg ("backgrounding " +:+ scanner_name (scanner t)
                     +:+ " for " +:+ port_proto t)] ∧
    (∀ c0 i, self_jobs (console_of (_jobs_kill i c0)) = self_jobs c0) ∧
    (∀ c0, self_jobs (console_of (_jobs_list c0)) = self_jobs c0) ∧
    (∃ c1,
       finish r c' = Return tt c1 ∧
       trackers c1 =
         <[r := set_status "completed" (detached r t)]> (trackers c) ∧
       self_jobs c1 = self_jobs c ++ [r] ∧
       self_job_events c1 = self_job_events c ++ [r] ∧
       output c1 = output c') ∧
    (thread t ≠ None →
     ∀ events_at_exit c'',
       interrupt ∉ events_at_exit →
       drain_jobs events_at_exit c' = Return tt c'' →
       ∃ t'', trackers c'' !! r = Some t'' ∧
              status t'' = "completed" ∧ thread t'' = None).
Proof.
  intros Ht Hl. eexists. split; [apply (monitor_scan_suspend c r t env Ht Hl)|].
  simpl. split_and!; try reflexivity.
  - intros c0 i. apply jobs_kill_keeps_jobs.
  - apply jobs_list_keeps_jobs.
  - eexists. split.
    + apply (finish_ok r _ (detached r t)); [|reflexivity..].
      simpl. apply list_lookup_insert_eq. now apply lookup_lt_Some in Ht.
    + simpl. split_and!; try reflexivity.
      rewrite (alter_insert _ _ _ (detached r t)).
      * apply list_insert_insert_eq.
      * apply list_lookup_insert_eq. now apply lookup_lt_Some in Ht.
  - intros Hth ev c'' Hno Hd.
    apply drain_jobs_no_interrupt in Hd as [_ Hall]; [|done].
    destruct (Hall r (detached r t)) as (t'' & H1 & H2 & _ & H3).
    + simpl. apply elem_of_app. right. left.
    + simpl. apply list_lookup_insert_eq. now apply lookup_lt_Some in Ht.
    + exists t''. split_and!; [done| |done]. now apply H3.
Qed.

Lemma monitor_scan_detach_witness :
  ∃ c',
    monitor_scan 0 [SIGTSTP] one_fresh = Return [] c' ∧
    trackers c' = <[0 := detached 0 fresh_job]> (trackers one_fresh) ∧
    silent (detached 0 fresh_job) = true ∧
    events (detached 0 fresh_job) = Some shared_queue ∧
    job_events (detached 0 fresh_job) = Some (local_queue 0) ∧
    lock (detached 0 fresh_job) = false ∧
    self_jobs c' = self_jobs one_fresh ++ [0] ∧
    self_job_events c' = self_job_events one_fresh ∧
    output c' =
      output one_fresh ++
      [signal_SIGTSTP background_me; signal_SIGTSTP SIG_DFL;
       pwarning_msg ("backgrounding " +:+ scanner_name (scanner fresh_job)
                     +:+ " for " +:+ port_proto fresh_job)] ∧
    (∀ c0 i, self_jobs (console_of (_jobs_kill i c0)) = self_jobs c0) ∧
    (∀ c0, self_jobs (console_of (_jobs_list c0)) = self_jobs c0) ∧
    (∃ c1,
       finish 0 c' = Return tt c1 ∧
       trackers c1 =
         <[0 := set_status "completed" (detached 0 fresh_job)]>
           (trackers one_fresh) ∧
       self_jobs c1 = self_jobs one_fresh ++ [0] ∧
       self_job_events c1 = self_job_events one_fresh ++ [0] ∧
       output c1 = output c') ∧
    (thread fresh_job ≠ None →
     ∀ events_at_exit c'',
       interrupt ∉ events_at_exit →
       drain_jobs events_at_exit c' = Return tt c'' →
       ∃ t'', trackers c'' !! 0 = Some t'' ∧
              status t'' = "completed" ∧ thread t'' = None).
Proof.
  apply (monitor_scan_detach one_fresh 0 fresh_job []); reflexivity.
Defined.

(** ** [machine scan] *)

Section MachineScanFacts.

Variable AVAILABLE_SCANNERS : list Scanner.
Variable int : string → option Z.
Lemma selected_scanner (args : ScanArgs) (svcs : list Service) (sc : Scanner) :
  In sc (scanners_for_services args svcs
           (scanners_for_machine AVAILABLE_SCANNERS args)) ↔
  In sc AVAILABLE_SCANNERS ∧ target_policy args sc = true ∧
  existsb (match_service sc) svcs = true.
Proof.
  unfold scanners_for_services, scanners_for_machine, target_policy.
  destruct (truthy (args_recommended args));
    [|destruct (truthy (args_scanner args))];
    rewrite !filter_In, ?andb_true_iff; tauto.
Qed.

Variable tool_starts : Scanner → Service → bool.

Lemma select_services_reads (args : ScanArgs) (c c' : Console) :
  select_services int args c' = relocate (select_services int args c) c'.
Proof.
  unfold select_services. destruct (truthy (args_service args)); [|done].
  destruct (int _); [|done]. now destruct (_ !! 1).
Qed.

Lemma start_scan_background
    (args : ScanArgs) (svc : Service) (sc : Scanner)
    (env : list WatchEvent) (c : Console) :
  args_background args = true →
  tool_starts sc svc = true →
  start_scan tool_starts args svc sc env c =
    Return env
      {| trackers := trackers c ++ [background_job_for args svc sc];
         self_jobs := self_jobs c ++ [length (trackers c)];
         self_job_events := self_job_events c;
         output :=
           output c ++
           [poutput_msg ("beginning " +:+ scanner_name sc +:+ " scan on "
                         +:+ str (port svc) +:+ "/" +:+ protocol svc
                         +:+ " (" +:+ service_name svc +:+ ")")] |}.
Proof.
  intros Hbg Hstarts. unfold start_scan. rewrite Hbg.
  cbv [bind poutput emit modify scan assign lock_release deref jobs_append
       ret]. rewrite Hstarts. simpl.
  rewrite alter_last, lookup_last. simpl. now rewrite alter_last.
Qed.

Lemma start_scan_fails
    (args : ScanArgs) (svc : Service) (sc : Scanner)
    (env : list WatchEvent) (c : Console) :
  tool_starts sc svc = false →
  start_scan tool_starts args svc sc env c =
    Raise ScanLaunchFailed
      (report (poutput_msg ("beginning " +:+ scanner_name sc +:+ " scan on "
                            +:+ str (port svc) +:+ "/" +:+ protocol svc
                            +:+ " (" +:+ service_name svc +:+ ")")) c).
Proof.
  intros Hfails. unfold start_scan.
  cbv [bind poutput emit modify scan]. now rewrite Hfails.
Qed.

Lemma scan_service_background (args : ScanArgs) (svc : Service)
    (env : list WatchEvent) (scanners : list Scanner) :
  args_background args = true →
  (∀ sc, In sc scanners → match_service sc svc = true →
         tool_starts sc svc = true) →
  ∀ c, ∃ c',
    scan_service tool_starts args svc scanners env c = Return env c' ∧
    trackers c' = trackers c ++ started_for args scanners svc ∧
    self_job_events c' = self_job_events c.
Proof.
  intros Hbg. unfold started_for.
  induction scanners as [|sc rest IH]; intros Hstarts c.
  - exists c. simpl. now rewrite app_nil_r.
  - cbn [scan_service List.filter].
    destruct (match_service sc svc) eqn:Hm; simpl.
    + unfold bind. rewrite start_scan_background;
        [|done|apply Hstarts; [now left|done]].
      edestruct IH as (c' & Hrun & Hts & Hq);
        [intros sc' Hin; apply Hstarts; now right|].
      exists c'. split; [exact Hrun|]. rewrite Hts, Hq. simpl.
      now rewrite <- app_assoc.
    + apply IH. intros sc' Hin. apply Hstarts. now right.
Qed.

Lemma scan_services_background (args : ScanArgs)
    (scanners : list Scanner) (env : list WatchEvent)
    (svcs : list Service) :
  args_background args = true →
  (∀ svc sc, In svc svcs → In sc scanners → match_service sc svc = true →
             tool_starts sc svc = true) →
  ∀ c, ∃ c',
    scan_services tool_starts args svcs scanners env c = Return env c' ∧
    trackers c' =
      trackers c ++ flat_map (started_for args scanners) svcs ∧
    self_job_events c' = self_job_events c.
Proof.
  intros Hbg. induction svcs as [|svc rest IH]; intros Hstarts c.
  - exists c. simpl. now rewrite app_nil_r.
  - cbn [scan_services flat_map]. unfold bind.
    destruct (scan_service_background args svc env scanners Hbg) with (c := c)
      as (c1 & Hrun1 & Hts1 & Hq1);
      [intros sc Hin; apply Hstarts; [now left|done]|].
    rewrite Hrun1.
    destruct IH with (c := c1) as (c' & Hrun & Hts & Hq);
      [intros svc' sc Hin; apply Hstarts; now right|].
    exists c'. split; [exact Hrun|]. rewrite Hts, Hts1, Hq, Hq1.
    now rewrite <- app_assoc.
Qed.

Lemma started_for_elem (args : ScanArgs) (scanners : list Scanner)
    (svcs : list Service) (t : Tracker) :
  In t (flat_map (started_for args scanners) svcs) ↔
  ∃ svc sc, t = background_job_for args svc sc ∧ In svc svcs ∧
            In sc scanners ∧ match_service sc svc = true.
Proof.
  rewrite in_flat_map. unfold started_for. split.
  - intros (svc & Hsvc & Ht). apply in_map_iff in Ht as (sc & <- & Hsc).
    apply filter_In in Hsc as [Hsc Hm]. now exists svc, sc.
  - intros (svc & sc & -> & Hsvc & Hsc & Hm). exists svc. split; [done|].
    apply in_map. now apply filter_In.
Qed.

Lemma existsb_match (sc : Scanner) (svcs : list Service) (svc : Service) :
  In svc svcs → match_service sc svc = true →
  existsb (match_service sc) svcs = true.
Proof. intros. apply existsb_exists. eauto. Qed.

Lemma scan_growing_visited (args : ScanArgs) (scanners : list Scanner)
    (discovered : list (list Service)) :
  ∀ svcs env c,
    scan_growing tool_starts args discovered svcs scanners env c =
    scan_services tool_starts args (visited discovered svcs) scanners env c.
Proof.
  induction discovered as [|found later IH]; intros [|svc rest] env c;
    try reflexivity.
  cbn [scan_growing visited scan_services]. unfold bind.
  destruct (scan_service tool_starts args svc scanners env c);
    [apply IH|reflexivity..].
Qed.

(** Past its two checks, [machine scan] is its loops over the services
    visited. *)
Lemma machine_scan_loop (args : ScanArgs) (discovered : list (list Service))
    (env : list WatchEvent) (c : Console) (svcs : list Service) :
  select_services int args c = Return svcs c →
  svcs ≠ [] →
  scanners_for_services args svcs
    (scanners_for_machine AVAILABLE_SCANNERS args) ≠ [] →
  _machine_scan AVAILABLE_SCANNERS int tool_starts args discovered env c =
    scan_services tool_starts args (looped_services args discovered svcs)
      (scanners_for_services args svcs
         (scanners_for_machine AVAILABLE_SCANNERS args)) env c.
Proof.
  intros Hsel Hsv Hsc. unfold _machine_scan, bind. rewrite Hsel.
  destruct svcs as [|svc0 svcs0] eqn:Esv; [done|]. rewrite <- Esv in *.
  replace (length svcs =? 0) with false by now rewrite Esv.
  destruct (scanners_for_services args svcs
              (scanners_for_machine AVAILABLE_SCANNERS args))
    as [|sc0 scs] eqn:Esc; [done|].
  cbn [length Nat.eqb]. unfold looped_services.
  destruct (truthy (args_service args)); [reflexivity|].
  apply scan_growing_visited.
Qed.

Lemma visited_nil (discovered : list (list Service)) :
  visited discovered [] = [].
Proof. now destruct discovered. Qed.

Lemma looped_services_nil (args : ScanArgs)
    (discovered : list (list Service)) :
  looped_services args discovered [] = [].
Proof.
  unfold looped_services. rewrite visited_nil.
  now destruct (truthy (args_service args)).
Qed.

(** The loop visits the selected services first. *)
Lemma visited_selected (discovered : list (list Service)) :
  ∀ svcs, ∃ more, visited discovered svcs = svcs ++ more.
Proof.
  induction discovered as [|found later IH]; intros [|svc rest];
    try (exists []; simpl; now rewrite ?app_nil_r).
  destruct (IH (rest ++ found)) as [more Hmore]. exists (found ++ more).
  cbn [visited]. rewrite Hmore. simpl. now rewrite <- app_assoc.
Qed.

Lemma looped_services_selected (args : ScanArgs)
    (discovered : list (list Service)) (svcs : list Service) (svc : Service) :
  In svc svcs → In svc (looped_services args discovered svcs).
Proof.
  unfold looped_services. destruct (truthy (args_service args)); [done|].
  destruct (visited_selected discovered svcs) as [more ->].
  intros. apply in_or_app. now left.
Qed.

Lemma machine_scan_background (args : ScanArgs)
    (discovered : list (list Service)) (env : list WatchEvent)
    (c : Console) (svcs : list Service) :
  args_background args = true →
  select_services int args c = Return svcs c →
  (∀ svc sc, In svc (looped_services args discovered svcs) →
             In sc AVAILABLE_SCANNERS →
             target_policy args sc = true → match_service sc svc = true →
             tool_starts sc svc = true) →
  ∃ c' new,
    _machine_scan AVAILABLE_SCANNERS int tool_starts args discovered env c
      = Return env c' ∧
    trackers c' = trackers c ++ new ∧
    self_job_events c' = self_job_events c ∧
    ∀ t, In t new ↔
         ∃ svc sc, t = background_job_for args svc sc ∧
                   In svc (looped_services args discovered svcs) ∧
                   In sc AVAILABLE_SCANNERS ∧
                   target_policy args sc = true ∧
                   existsb (match_service sc) svcs = true ∧
                   match_service sc svc = true.
Proof.
  intros Hbg Hsel Hstarts.
  destruct svcs as [|svc0 svcs0] eqn:Esv.
  { exists (report (perror_msg "no matching services found") c), [].
    unfold _machine_scan, bind. rewrite Hsel.
    simpl. rewrite app_nil_r. split_and!; try done.
    intros t. split; [done|]. intros (svc & sc & _ & Hin & _).
    now rewrite looped_services_nil in Hin. }
  rewrite <- Esv in *.
  assert (Hsv : svcs ≠ []) by now rewrite Esv.
  set (scanners := scanners_for_services args svcs
                     (scanners_for_machine AVAILABLE_SCANNERS args)).
  assert (Hsc : ∀ sc, In sc scanners ↔
            In sc AVAILABLE_SCANNERS ∧ target_policy args sc = true ∧
            existsb (match_service sc) svcs = true)
    by (intros sc; apply selected_scanner).
  destruct scanners as [|sc0 scs] eqn:Esc.
  { exists (report (perror_msg "no matching scanners found") c), [].
    unfold _machine_scan, bind. rewrite Hsel.
    replace (length svcs =? 0) with false by now rewrite Esv.
    fold scanners. rewrite Esc.
    simpl. rewrite app_nil_r. split_and!; try done.
    intros t. split; [done|].
    intros (svc & sc & _ & Hsvc & Hav & Hpol & Hex & Hm).
    now apply (proj2 (Hsc sc)). }
  rewrite <- Esc in *.
  assert (Hne : scanners ≠ []) by now rewrite Esc.
  rewrite (machine_scan_loop args discovered env c svcs Hsel Hsv Hne).
  fold scanners.
  destruct (scan_services_background args scanners env
              (looped_services args discovered svcs) Hbg) with (c := c)
    as (c' & Hrun & Hts & Hq).
  { intros svc sc Hsvc Hin Hm. apply Hsc in Hin as (Hav & Hpol & _).
    now apply Hstarts. }
  exists c', (flat_map (started_for args scanners)
                (looped_services args discovered svcs)).
  split_and!; try done.
  intros t. rewrite started_for_elem. split.
  - intros (svc & sc & Ht & Hsvc & Hin & Hm). exists svc, sc.
    apply Hsc in Hin as (? & ? & ?). done.
  - intros (svc & sc & Ht & Hsvc & Hav & Hpol & Hex & Hm). exists svc, sc.
    split_and!; try done. now apply Hsc.
Qed.

End MachineScanFacts.

(** C8, as the code has it.  The scanners [machine scan] keeps are those of
    the registry that pass the test for the target and match at least one
    selected service, where the test for the target is: with [--recommended],
    recommended and [match(target)]; otherwise with [--scanner NAME], the
    name equals NAME ([match(target)] is not consulted); otherwise
    [match(target)].  With a recommended and a non-recommended scanner that
    both match everything, [--recommended] keeps the recommended one only.
    A kept scanner is run against a service the loop visits exactly when
    [match_service(service)] holds: in background mode, when the tool can be
    started for every such pair, the call returns having created a job for
    each of these pairs, and nothing else; in the scenario these are the
    jobs of the recommended scanner, one per service visited.  The services
    visited are the selected ones and, when they are the target's own list,
    those appended to it while the loop runs. *)
Theorem machine_scan_selection :
  (∀ AVAILABLE_SCANNERS args svcs sc,
     In sc (scanners_for_services args svcs
              (scanners_for_machine AVAILABLE_SCANNERS args)) ↔
     In sc AVAILABLE_SCANNERS ∧ target_policy args sc = true ∧
     existsb (match_service sc) svcs = true) ∧
  (∀ S1 S2 args svcs,
     recommended S1 = true → recommended S2 = false →
     (∀ x, match_ S1 x = true) → (∀ x, match_ S2 x = true) →
     (∀ s, match_service S1 s = true) → (∀ s, match_service S2 s = true) →
     truthy (args_recommended args) = true →
     svcs ≠ [] →
     scanners_for_services args svcs (scanners_for_machine [S1; S2] args)
       = [S1]) ∧
  (∀ AVAILABLE_SCANNERS int tool_starts args discovered env c svcs,
     args_background args = true →
     select_services int args c = Return svcs c →
     (∀ svc sc, In svc (looped_services args discovered svcs) →
                In sc AVAILABLE_SCANNERS →
                target_policy args sc = true → match_service sc svc = true →
                tool_starts sc svc = true) →
     ∃ c' new,
       _machine_scan AVAILABLE_SCANNERS int tool_starts args discovered env c
         = Return env c' ∧
       trackers c' = trackers c ++ new ∧
       ∀ t, In t new ↔
            ∃ svc sc, t = background_job_for args svc sc ∧
                      In svc (looped_services args discovered svcs) ∧
                      In sc AVAILABLE_SCANNERS ∧
                      target_policy args sc = true ∧
                      existsb (match_service sc) svcs = true ∧
                      match_service sc svc = true) ∧
  (∀ S1 S2 int tool_starts m flag discovered env c,
     recommended S1 = true → recommended S2 = false →
     (∀ x, match_ S1 x = true) → (∀ x, match_ S2 x = true) →
     (∀ s, match_service S1 s = true) → (∀ s, match_service S2 s = true) →
     truthy (Some flag) = true →
     (∀ svc, In svc (visited discovered (services m)) →
             tool_starts S1 svc = true) →
     let args := {| args_machine := m; args_recommended := Some flag;
                    args_scanner := None; args_service := None;
                    args_background := true |} in
     ∃ c' new,
       _machine_scan [S1; S2] int tool_starts args discovered env c
         = Return env c' ∧
       trackers c' = trackers c ++ new ∧
       ∀ t, In t new ↔
            ∃ svc, In svc (visited discovered (services m)) ∧
                   t = background_job_for args svc S1).
Proof.
  split_and!.
  - apply selected_scanner.
  - intros S1 S2 args svcs H1 H2 M1 M2 V1 V2 Hflag Hne.
    unfold scanners_for_services, scanners_for_machine. rewrite Hflag.
    assert (Hex : ∀ S, (∀ s, match_service S s = true) →
                       existsb (match_service S) svcs = true).
    { intros S HS. destruct svcs as [|svc rest]; [done|]. simpl.
      now rewrite HS. }
    simpl. rewrite H1, H2, M1. simpl. rewrite H1, (Hex S1 V1). reflexivity.
  - intros AV int tool_starts args discovered env c svcs Hbg Hsel Hstarts.
    destruct (machine_scan_background AV int tool_starts args discovered env
                c svcs Hbg Hsel Hstarts)
      as (c' & new & Hrun & Hts & _ & Hnew).
    now exists c', new.
  - intros S1 S2 int tool_starts m flag discovered env c H1 H2 M1 M2 V1 V2
      Hflag Hstarts args.
    destruct (machine_scan_background [S1; S2] int tool_starts args
                discovered env c (services m) eq_refl eq_refl)
      as (c' & new & Hrun & Hts & _ & Hnew).
    { intros svc sc Hsvc [<-|[<-|[]]] Hpol _; [now apply Hstarts|].
      unfold target_policy in Hpol. simpl args_recommended in Hpol.
      rewrite Hflag, H2 in Hpol. discriminate. }
    exists c', new. split_and!; [done..|].
    intros t. rewrite Hnew. unfold target_policy. simpl args_recommended.
    rewrite Hflag. split.
    + intros (svc & sc & -> & Hsvc & [<-|[<-|[]]] & Hpol & _).
      * now exists svc.
      * rewrite H2 in Hpol. discriminate.
    + intros (svc & Hsvc & ->). exists svc, S1.
      split_and!; try done; [now left|now rewrite H1, M1|].
      destruct (services m) as [|svc0 rest] eqn:Esv.
      * now rewrite visited_nil in Hsvc.
      * simpl. now rewrite V1.
Qed.

Lemma machine_scan_selection_witness :
  scanners_for_services recommended_only [sample_service]
    (scanners_for_machine [sample_scanner; optional_scanner]
       recommended_only) = [sample_scanner] ∧
  (∃ c' new,
     _machine_scan [named_scanner] no_int always_starts by_name []
       [] empty_console = Return [] c' ∧
     trackers c' = trackers empty_console ++ new ∧
     ∀ t, In t new ↔
          ∃ svc sc, t = background_job_for by_name svc sc ∧
                    In svc (looped_services by_name [] [sample_service]) ∧
                    In sc [named_scanner] ∧
                    target_policy by_name sc = true ∧
                    existsb (match_service sc) [sample_service] = true ∧
                    match_service sc svc = true) ∧
  (∃ c' new,
     _machine_scan [sample_scanner; optional_scanner] no_int always_starts
       recommended_only [[found_service]] [] empty_console = Return [] c' ∧
     trackers c' = trackers empty_console ++ new ∧
     ∀ t, In t new ↔
          ∃ svc, In svc (visited [[found_service]]
                           (services sample_machine)) ∧
                 t = background_job_for recommended_only svc sample_scanner).
Proof.
  destruct machine_scan_selection as (_ & A & B & C). split_and!.
  - apply (A sample_scanner optional_scanner recommended_only
             [sample_service]); done.
  - apply (B [named_scanner] no_int always_starts by_name [] []
             empty_console [sample_service]); reflexivity.
  - apply (C sample_scanner optional_scanner no_int always_starts
             sample_machine "1" [[found_service]] [] empty_console);
      reflexivity.
Defined.

(** [machine scan --scanner S3 --background] on a target S3 does not match:
    the job is created all the same. *)
Lemma machine_scan_selection_counterexample :
  match_ named_scanner sample_machine = false ∧
  _machine_scan [named_scanner] no_int always_starts by_name [] []
    empty_console =
    Return []
      {| trackers :=
           [background_job_for by_name sample_service named_scanner];
         self_jobs := [0];
         self_job_events := [];
         output := [poutput_msg "beginning S3 scan on 80/tcp (http)"] |} ∧
  ¬ selection_as_claimed.
Proof.
  assert (E : _machine_scan [named_scanner] no_int always_starts by_name []
                [] empty_console =
    Return []
      {| trackers :=
           [background_job_for by_name sample_service named_scanner];
         self_jobs := [0];
         self_job_events := [];
         output := [poutput_msg "beginning S3 scan on 80/tcp (http)"] |})
    by (vm_compute; reflexivity).
  split_and!; [reflexivity|exact E|]. intros H.
  destruct (H [named_scanner] no_int always_starts by_name [] empty_console
              [sample_service] _ eq_refl eq_refl E
              sample_service named_scanner) as [Hdir _].
  destruct Hdir as (_ & _ & Hm & _).
  - eexists. split; [left; reflexivity|]. split; reflexivity.
  - discriminate Hm.
Qed.

(** C9.  When the service selection is empty, [machine scan] prints the
    no-matching-services error and returns; when it is not but no scanner
    of the registry passes the test for the target and matches one of the
    selected services, it prints the no-matching-scanners error and
    returns.  Either way the console is otherwise as before: no tracker was
    created (so no thread started), and the job table and the completion
    queue are unchanged; no event was consumed. *)
Theorem machine_scan_no_match
    (AVAILABLE_SCANNERS : list Scanner) (int : string → option Z)
    (tool_starts : Scanner → Service → bool)
    (args : ScanArgs) (discovered : list (list Service))
    (env : list WatchEvent) (c : Console) (svcs : list Service) :
  select_services int args c = Return svcs c →
  (svcs = [] →
   _machine_scan AVAILABLE_SCANNERS int tool_starts args discovered env c =
     Return env (report (perror_msg "no matching services found") c)) ∧
  (svcs ≠ [] →
   (∀ sc, In sc AVAILABLE_SCANNERS → target_policy args sc = true →
          existsb (match_service sc) svcs = false) →
   _machine_scan AVAILABLE_SCANNERS int tool_starts args discovered env c =
     Return env (report (perror_msg "no matching scanners found") c)) ∧
  trackers (report (perror_msg "no matching services found") c) = trackers c ∧
  self_jobs (report (perror_msg "no matching services found") c) = self_jobs c ∧
  trackers (report (perror_msg "no matching scanners found") c) = trackers c ∧
  self_jobs (report (perror_msg "no matching scanners found") c) = self_jobs c.
Proof.
  intros Hsel. split_and!; try reflexivity.
  - intros ->. unfold _machine_scan, bind. now rewrite Hsel.
  - intros Hne Hnone. unfold _machine_scan, bind. rewrite Hsel.
    destruct svcs as [|svc0 svcs0] eqn:Esv; [done|]. rewrite <- Esv in *.
    replace (length svcs =? 0) with false by now rewrite Esv.
    destruct (scanners_for_services args svcs
                (scanners_for_machine AVAILABLE_SCANNERS args))
      as [|sc0 scs] eqn:Esc; [reflexivity|].
    assert (Hin : In sc0 (scanners_for_services args svcs
                (scanners_for_machine AVAILABLE_SCANNERS args)))
      by (rewrite Esc; now left).
    apply selected_scanner in Hin as (Hav & Hpol & Hex).
    rewrite (Hnone sc0 Hav Hpol) in Hex. discriminate.
Qed.

Lemma machine_scan_no_match_witness :
  _machine_scan [sample_scanner] int_443 always_starts other_port [] []
    empty_console =
    Return [] (report (perror_msg "no matching services found")
                 empty_console) ∧
  _machine_scan [sample_scanner] no_int always_starts unknown_name [] []
    empty_console =
    Return [] (report (perror_msg "no matching scanners found")
                 empty_console).
Proof.
  split.
  - apply (proj1 (machine_scan_no_match [sample_scanner] int_443
                    always_starts other_port [] [] empty_console []
                    eq_refl)).
    reflexivity.
  - apply (proj1 (proj2 (machine_scan_no_match [sample_scanner] no_int
                           always_starts unknown_name [] [] empty_console
                           [sample_service] eq_refl))).
    + discriminate.
    + intros sc [<-|[]] Hpol. discriminate Hpol.
Defined.

(** * Further properties of the job code *)

(** ** Service selectors *)

Lemma split_without (sep : ascii) (s : string) :
  contains sep s = false → split sep s = [s].
Proof.
  induction s as [|x rest IH]; [reflexivity|]. simpl.
  intros H. apply orb_false_iff in H as [Hx Hrest].
  rewrite Hx, (IH Hrest). reflexivity.
Qed.

Lemma append_nil_l (s : string) : "" +:+ s = s.
Proof. reflexivity. Qed.

Lemma append_cons (x : ascii) (a b : string) :
  String x a +:+ b = String x (a +:+ b).
Proof. reflexivity. Qed.

Lemma append_nil_r (s : string) : s +:+ "" = s.
Proof.
  induction s as [|x s IH]; [reflexivity|]. now rewrite append_cons, IH.
Qed.

Lemma split_at_first (sep : ascii) (a b : string) :
  contains sep a = false →
  split sep (a +:+ String sep b) = a :: split sep b.
Proof.
  induction a as [|x rest IH].
  - intros _. rewrite append_nil_l. simpl. now rewrite bool_decide_eq_true_2.
  - intros H. simpl in H. apply orb_false_iff in H as [Hx Hrest].
    rewrite append_cons. simpl. rewrite Hx. now rewrite (IH Hrest).
Qed.

Lemma split_second (sep : ascii) (q rest : string) :
  contains sep q = false →
  (rest = "" ∨ ∃ r, rest = String sep r) →
  split sep (q +:+ rest) !! 0%nat = Some q.
Proof.
  intros Hq [->|[r ->]].
  - rewrite append_nil_r. now rewrite split_without.
  - now rewrite split_at_first.
Qed.

Lemma default_Some {A} (d x : A) : default d (Some x) = x.
Proof. reflexivity. Qed.

Lemma truthy_nonempty (s : string) : s ≠ "" → truthy (Some s) = true.
Proof. intros H. simpl. now rewrite bool_decide_eq_false_2. Qed.

Lemma selector_nonempty (p x : string) : p +:+ String "/" x ≠ "".
Proof. destruct p; discriminate. Qed.

(** X1.  A selector [PORT/PROTOCOL], also when more text follows after a
    second slash: the services kept are those of the target with that port
    number and that protocol; the text after the second slash is never
    looked at. *)
Theorem select_services_by_selector
    (int : string → option Z) (args : ScanArgs) (c : Console)
    (p q rest : string) (n : Z) :
  args_service args = Some (p +:+ String "/" (q +:+ rest)) →
  contains "/" p = false → contains "/" q = false →
  (rest = "" ∨ ∃ r, rest = String "/" r) →
  int p = Some n →
  select_services int args c =
    Return (List.filter
              (fun s => bool_decide (port s = n) && bool_decide (protocol s = q))
              (services (args_machine args))) c.
Proof.
  intros Hsel Hp Hq Hrest Hint. unfold select_services. rewrite Hsel.
  rewrite (truthy_nonempty _ (selector_nonempty p _)), default_Some.
  rewrite (split_at_first "/" p _ Hp). simpl. rewrite Hint.
  now rewrite (split_second "/" q rest Hq Hrest).
Qed.

Lemma select_services_by_selector_witness :
  select_services int_443 selector_extra empty_console =
  Return (List.filter
            (fun s => bool_decide (port s = 443%Z)
                      && bool_decide (protocol s = "tcp"))
            (services (args_machine selector_extra))) empty_console.
Proof.
  apply (select_services_by_selector int_443 selector_extra empty_console
           "443" "tcp" "/extra" 443%Z); try reflexivity.
  right. now exists "extra".
Defined.

(** X2.  A selector that does not read as [PORT/PROTOCOL] makes
    [machine scan] raise before anything is reported or created: when the
    text before the first slash is not an integer the exception is
    [ValueError]; when it is an integer but there is no slash it is
    [IndexError].  The console is left as it was. *)
Theorem machine_scan_bad_selector
    (AVAILABLE_SCANNERS : list Scanner) (int : string → option Z)
    (tool_starts : Scanner → Service → bool)
    (args : ScanArgs) (discovered : list (list Service))
    (env : list WatchEvent) (c : Console) (p rest : string) :
  args_service args = Some (p +:+ rest) → p +:+ rest ≠ "" →
  contains "/" p = false →
  (rest = "" ∨ ∃ r, rest = String "/" r) →
  (int p = None →
   _machine_scan AVAILABLE_SCANNERS int tool_starts args discovered env c
     = Raise ValueError c) ∧
  (rest = "" → int p ≠ None →
   _machine_scan AVAILABLE_SCANNERS int tool_starts args discovered env c
     = Raise IndexError c).
Proof.
  intros Hsel Hne Hp Hrest.
  pose proof (split_second "/" p rest Hp Hrest) as H0.
  split.
  - intros Hint. unfold _machine_scan, bind, select_services.
    rewrite Hsel, (truthy_nonempty _ Hne), default_Some.
    rewrite H0. simpl. now rewrite Hint.
  - intros -> Hint. unfold _machine_scan, bind, select_services.
    rewrite Hsel, (truthy_nonempty _ Hne), default_Some.
    rewrite append_nil_r in *. rewrite (split_without "/" p Hp). simpl.
    destruct (int p); [reflexivity|done].
Qed.

Lemma machine_scan_bad_selector_witness :
  _machine_scan [sample_scanner] int_443 always_starts selector_no_port []
    [] empty_console = Raise ValueError empty_console ∧
  _machine_scan [sample_scanner] int_443 always_starts selector_no_slash []
    [] empty_console = Raise IndexError empty_console.
Proof.
  split.
  - apply (proj1 (machine_scan_bad_selector [sample_scanner] int_443
                    always_starts selector_no_port [] [] empty_console
                    "http" "/tcp" eq_refl ltac:(discriminate) eq_refl
                    ltac:(right; now exists "tcp"))).
    reflexivity.
  - apply (proj2 (machine_scan_bad_selector [sample_scanner] int_443
                    always_starts selector_no_slash [] [] empty_console
                    "443" "" eq_refl ltac:(discriminate) eq_refl
                    ltac:(now left)));
      [reflexivity|discriminate].
Defined.

(** ** The jobs a scan creates *)

Section ScanPlanFacts.

Variable tool_starts : Scanner → Service → bool.

Lemma run_plan_app (args : ScanArgs) (a b : list (Service * Scanner)) :
  ∀ env c,
    run_plan tool_starts args (a ++ b) env c =
    (let* env' := run_plan tool_starts args a env in
     run_plan tool_starts args b env') c.
Proof.
  induction a as [|[svc sc] a IH]; intros env c; [reflexivity|].
  cbn [run_plan app]. unfold bind.
  destruct (start_scan tool_starts args svc sc env c) as [env1 c1| |];
    [|reflexivity..].
  rewrite IH. reflexivity.
Qed.

Lemma scan_service_plan (args : ScanArgs) (svc : Service)
    (scanners : list Scanner) :
  ∀ env c,
    scan_service tool_starts args svc scanners env c =
    run_plan tool_starts args
      (map (pair svc) (List.filter (fun sc => match_service sc svc) scanners))
      env c.
Proof.
  induction scanners as [|sc rest IH]; intros env c; [reflexivity|].
  cbn [scan_service List.filter].
  destruct (match_service sc svc); simpl; [|apply IH].
  unfold bind.
  destruct (start_scan tool_starts args svc sc env c); [|reflexivity..].
  apply IH.
Qed.

Lemma scan_services_plan (args : ScanArgs) (scanners : list Scanner)
    (svcs : list Service) :
  ∀ env c,
    scan_services tool_starts args svcs scanners env c =
    run_plan tool_starts args (scan_plan svcs scanners) env c.
Proof.
  induction svcs as [|svc rest IH]; intros env c; [reflexivity|].
  cbn [scan_services]. unfold scan_plan. cbn [flat_map].
  rewrite run_plan_app. unfold bind. rewrite scan_service_plan.
  destruct (run_plan tool_starts args _ env c) as [env1 c1| |];
    [|reflexivity..].
  apply IH.
Qed.

(** [machine scan] is its no-match reports, or the loop body over the
    planned pairs. *)
Lemma machine_scan_plan (AVAILABLE_SCANNERS : list Scanner)
    (int : string → option Z) (args : ScanArgs)
    (discovered : list (list Service)) (env : list WatchEvent)
    (c : Console) (svcs : list Service) :
  select_services int args c = Return svcs c →
  planned AVAILABLE_SCANNERS args discovered svcs ≠ [] →
  _machine_scan AVAILABLE_SCANNERS int tool_starts args discovered env c =
    run_plan tool_starts args
      (planned AVAILABLE_SCANNERS args discovered svcs) env c.
Proof.
  intros Hsel Hne. unfold planned in *.
  rewrite <- scan_services_plan. apply machine_scan_loop; [done|..].
  - intros ->. now rewrite looped_services_nil in Hne.
  - intros E. rewrite E in Hne. apply Hne. unfold scan_plan. clear.
    induction (looped_services args discovered svcs); [reflexivity|].
    simpl. assumption.
Qed.

Lemma machine_scan_nothing_planned (AVAILABLE_SCANNERS : list Scanner)
    (int : string → option Z) (args : ScanArgs)
    (discovered : list (list Service)) (env : list WatchEvent)
    (c : Console) (svcs : list Service) :
  select_services int args c = Return svcs c →
  planned AVAILABLE_SCANNERS args discovered svcs = [] →
  ∃ msg,
    _machine_scan AVAILABLE_SCANNERS int tool_starts args discovered env c =
      Return env (report (perror_msg msg) c).
Proof.
  intros Hsel Hnil. unfold _machine_scan, bind. rewrite Hsel.
  destruct svcs as [|svc0 svcs0] eqn:Esv; [eauto|]. rewrite <- Esv in *.
  replace (length svcs =? 0) with false by now rewrite Esv.
  destruct (scanners_for_services args svcs
              (scanners_for_machine AVAILABLE_SCANNERS args))
    as [|sc0 scs] eqn:Esc; [eauto|].
  exfalso.
  assert (Hin : In sc0 (scanners_for_services args svcs
              (scanners_for_machine AVAILABLE_SCANNERS args)))
    by (rewrite Esc; now left).
  pose proof Hin as Hsel'.
  apply selected_scanner in Hsel' as (_ & _ & Hex).
  apply existsb_exists in Hex as (svc & Hsvc & Hm).
  assert (Hp : In (svc, sc0)
                 (planned AVAILABLE_SCANNERS args discovered svcs)).
  { unfold planned, scan_plan. apply in_flat_map. exists svc.
    split; [now apply looped_services_selected|].
    apply in_map. apply filter_In. split; [|done]. exact Hin. }
  rewrite Hnil in Hp. destruct Hp.
Qed.

Lemma insert_last (ts : list Tracker) (t t' : Tracker) :
  <[length ts := t']> (ts ++ [t]) = ts ++ [t'].
Proof.
  rewrite <- (Nat.add_0_r (length ts)). now rewrite insert_app_r.
Qed.

(** The monitor, whatever ends its wait: it returns with the remaining
    events, the tracker is as [after_watch] says, and the job enters the
    table exactly when the event was the suspend signal. *)
Lemma monitor_scan_event (c : Console) (r : ref) (t : Tracker)
    (ev : WatchEvent) (env : list WatchEvent) :
  trackers c !! r = Some t → lock t = true →
  ∃ c',
    monitor_scan r (ev :: env) c = Return env c' ∧
    trackers c' = <[r := after_watch r ev t]> (trackers c) ∧
    self_jobs c' =
      self_jobs c ++ match ev with SIGTSTP => [r] | _ => [] end ∧
    self_job_events c' = self_job_events c.
Proof.
  intros Ht Hl. destruct ev as [r'| |].
  - eexists. split; [apply (monitor_scan_completion c r r' t env Ht Hl)|].
    simpl. now rewrite app_nil_r.
  - rewrite monitor_scan_unfold, (monitor_scan_prologue c r t Ht Hl).
    cbv [bind deref pwarning emit assign modify ret]. simpl.
    rewrite (lookup_insert_here _ _ _ _ Ht). simpl.
    rewrite (alter_insert _ _ _ _ (lookup_insert_here _ _ _ _ Ht)).
    rewrite list_insert_insert_eq.
    eexists. split; [reflexivity|]. simpl. now rewrite app_nil_r.
  - eexists. split; [apply (monitor_scan_suspend c r t env Ht Hl)|].
    simpl. done.
Qed.

Lemma scan_foreground (args : ScanArgs) (svc : Service) (sc : Scanner)
    (c : Console) :
  args_background args = false →
  tool_starts sc svc = true →
  scan tool_starts (args_machine args) sc svc false c =
    Return (length (trackers c))
      (with_trackers (trackers c ++ [new_job_for args svc sc]) c).
Proof.
  intros Hbg Hstarts. unfold scan, new_job_for. now rewrite Hbg, Hstarts.
Qed.

Lemma start_scan_foreground (args : ScanArgs) (svc : Service) (sc : Scanner)
    (ev : WatchEvent) (env : list WatchEvent) (c : Console) :
  args_background args = false →
  tool_starts sc svc = true →
  ∃ c',
    start_scan tool_starts args svc sc (ev :: env) c = Return env c' ∧
    trackers c' =
      trackers c ++
      [after_watch (length (trackers c)) ev (new_job_for args svc sc)] ∧
    self_jobs c' =
      self_jobs c ++
      match ev with SIGTSTP => [length (trackers c)] | _ => [] end ∧
    self_job_events c' = self_job_events c.
Proof.
  intros Hbg Hstarts. unfold start_scan. rewrite Hbg.
  cbv [bind poutput emit modify].
  rewrite (scan_foreground _ _ _ _ Hbg Hstarts).
  set (c1 := with_trackers _ _).
  destruct (monitor_scan_event c1 (length (trackers c))
              (new_job_for args svc sc) ev env) as (c' & Hrun & Hts & Hj & Hq).
  { apply lookup_last. }
  { reflexivity. }
  exists c'. split; [exact Hrun|]. rewrite Hts, Hj, Hq. unfold c1. simpl.
  split_and!; try reflexivity. apply insert_last.
Qed.

Lemma start_scan_foreground_blocks (args : ScanArgs) (svc : Service)
    (sc : Scanner) (c : Console) :
  args_background args = false →
  tool_starts sc svc = true →
  ∃ c',
    start_scan tool_starts args svc sc [] c = Blocked c' ∧
    length (trackers c') = S (length (trackers c)).
Proof.
  intros Hbg Hstarts. unfold start_scan. rewrite Hbg.
  cbv [bind poutput emit modify].
  rewrite (scan_foreground _ _ _ _ Hbg Hstarts).
  set (c1 := with_trackers _ _).
  assert (Ht : trackers c1 !! length (trackers c) =
               Some (new_job_for args svc sc)) by apply lookup_last.
  pose proof (monitor_scan_waits c1 _ _ Ht eq_refl) as Hw.
  eexists. split; [exact Hw|]. simpl.
  rewrite length_insert, length_app. simpl. lia.
Qed.

Lemma run_plan_foreground (args : ScanArgs) (plan : list (Service * Scanner)) :
  args_background args = false →
  Forall (fun p => launches tool_starts p = true) plan →
  ∀ evs rest c,
    length evs = length plan →
    ∃ c',
      run_plan tool_starts args plan (evs ++ rest) c = Return rest c' ∧
      trackers c' =
        trackers c ++
        foreground_trackers args (length (trackers c)) plan evs ∧
      self_jobs c' =
        self_jobs c ++ suspended_refs (length (trackers c)) evs ∧
      self_job_events c' = self_job_events c.
Proof.
  intros Hbg Hall.
  induction Hall as [|[svc sc] plan Hp _ IH]; intros evs rest c Hlen.
  - destruct evs; [|done]. exists c. simpl. now rewrite !app_nil_r.
  - destruct evs as [|ev evs]; [done|]. simpl in Hlen.
    cbn [run_plan app]. unfold bind.
    destruct (start_scan_foreground args svc sc ev (evs ++ rest) c Hbg Hp)
      as (c1 & Hrun1 & Hts1 & Hj1 & Hq1). rewrite Hrun1.
    destruct (IH evs rest c1) as (c' & Hrun & Hts & Hj & Hq); [lia|].
    exists c'. split; [exact Hrun|].
    rewrite Hts, Hj, Hq, Hts1, Hj1, Hq1, length_app. simpl.
    rewrite Nat.add_1_r, <- !app_assoc. split_and!; try reflexivity.
    now destruct ev.
Qed.

Lemma run_plan_foreground_blocks (args : ScanArgs)
    (plan : list (Service * Scanner)) :
  args_background args = false →
  Forall (fun p => launches tool_starts p = true) plan →
  ∀ evs c,
    length evs < length plan →
    ∃ c',
      run_plan tool_starts args plan evs c = Blocked c' ∧
      length (trackers c') = S (length (trackers c) + length evs).
Proof.
  intros Hbg Hall.
  induction Hall as [|[svc sc] plan Hp _ IH]; intros evs c Hlen.
  - simpl in Hlen. lia.
  - cbn [run_plan]. unfold bind. destruct evs as [|ev evs].
    + destruct (start_scan_foreground_blocks args svc sc c Hbg Hp)
        as (c' & -> & Hl). exists c'. split; [done|]. simpl. lia.
    + destruct (start_scan_foreground args svc sc ev evs c Hbg Hp)
        as (c1 & Hrun1 & Hts1 & _). rewrite Hrun1.
      destruct (IH evs c1) as (c' & Hrun & Hl); [simpl in Hlen; lia|].
      exists c'. split; [exact Hrun|]. rewrite Hl, Hts1, length_app.
      simpl. lia.
Qed.

Lemma run_plan_background (args : ScanArgs) (plan : list (Service * Scanner)) :
  args_background args = true →
  Forall (fun p => launches tool_starts p = true) plan →
  ∀ env c,
    ∃ c',
      run_plan tool_starts args plan env c = Return env c' ∧
      trackers c' =
        trackers c ++ map (fun p => background_job_for args p.1 p.2) plan ∧
      self_jobs c' =
        self_jobs c ++ seq (length (trackers c)) (length plan) ∧
      self_job_events c' = self_job_events c.
Proof.
  intros Hbg Hall. induction Hall as [|[svc sc] plan Hp _ IH]; intros env c.
  - exists c. simpl. now rewrite !app_nil_r.
  - cbn [run_plan]. unfold bind.
    rewrite (start_scan_background tool_starts args svc sc env c Hbg Hp).
    edestruct IH as (c' & Hrun & Hts & Hj & Hq). exists c'.
    split; [exact Hrun|]. rewrite Hts, Hj, Hq. simpl.
    rewrite length_app, Nat.add_1_r, <- !app_assoc. done.
Qed.

(** A pair whose tool cannot be started ends the loop: the message for the
    pair is printed and the exception leaves. *)
Lemma run_plan_fails (args : ScanArgs) (p : Service * Scanner)
    (post : list (Service * Scanner)) (env : list WatchEvent) (c : Console) :
  launches tool_starts p = false →
  ∃ msg,
    run_plan tool_starts args (p :: post) env c
      = Raise ScanLaunchFailed (report (poutput_msg msg) c).
Proof.
  destruct p as [svc sc]. intros Hp. cbn [run_plan]. unfold bind.
  rewrite (start_scan_fails tool_starts args svc sc env c Hp). by eexists.
Qed.

End ScanPlanFacts.

Lemma foreground_trackers_length (args : ScanArgs)
    (plan : list (Service * Scanner)) :
  ∀ evs base,
    length evs = length plan →
    length (foreground_trackers args base plan evs) = length plan.
Proof.
  induction plan as [|[svc sc] plan IH]; intros [|ev evs] base Hlen;
    try done.
  simpl. f_equal. apply IH. simpl in Hlen. lia.
Qed.

(** X3.  A foreground [machine scan], when every tool can be started: the
    scan reaches the planned pairs in order (the services it visits include
    those appended to the target's list while it runs) and spends exactly
    one of the events that end a watch on each, whatever the event is;
    after a completion, an interrupt or a suspend it goes on with the next
    pair.  With as many events as pairs it returns the unused events,
    having created one tracker per pair, each, but for the status its own
    thread writes, left as its event left it; the job table has gained
    exactly the jobs whose watch was ended by a suspend, and the command
    has put nothing on the completion queue.  With fewer events it stays
    blocked, having started one more job than it consumed events.  When
    the tool of a pair cannot be started, the scan raises at that pair,
    after the watches of the pairs before it. *)
Theorem machine_scan_foreground
    (AVAILABLE_SCANNERS : list Scanner) (int : string → option Z)
    (tool_starts : Scanner → Service → bool)
    (args : ScanArgs) (discovered : list (list Service)) (c : Console)
    (svcs : list Service) :
  args_background args = false →
  select_services int args c = Return svcs c →
  (Forall (fun p => launches tool_starts p = true)
     (planned AVAILABLE_SCANNERS args discovered svcs) →
   (∀ evs rest,
      length evs = length (planned AVAILABLE_SCANNERS args discovered svcs) →
      ∃ c' new,
        _machine_scan AVAILABLE_SCANNERS int tool_starts args discovered
          (evs ++ rest) c = Return rest c' ∧
        trackers c' = trackers c ++ new ∧
        map (set_status "") new =
          map (set_status "")
            (foreground_trackers args (length (trackers c))
               (planned AVAILABLE_SCANNERS args discovered svcs) evs) ∧
        self_jobs c' =
          self_jobs c ++ suspended_refs (length (trackers c)) evs ∧
        self_job_events c' = self_job_events c) ∧
   (∀ evs,
      length evs < length (planned AVAILABLE_SCANNERS args discovered svcs) →
      ∃ c',
        _machine_scan AVAILABLE_SCANNERS int tool_starts args discovered
          evs c = Blocked c' ∧
        length (trackers c') = S (length (trackers c) + length evs))) ∧
  (∀ pre p post evs rest,
     planned AVAILABLE_SCANNERS args discovered svcs = pre ++ p :: post →
     Forall (fun p => launches tool_starts p = true) pre →
     launches tool_starts p = false →
     length evs = length pre →
     ∃ c',
       _machine_scan AVAILABLE_SCANNERS int tool_starts args discovered
         (evs ++ rest) c = Raise ScanLaunchFailed c' ∧
       length (trackers c') = length (trackers c) + length pre ∧
       self_jobs c' =
         self_jobs c ++ suspended_refs (length (trackers c)) evs ∧
       self_job_events c' = self_job_events c).
Proof.
  intros Hbg Hsel. split.
  - intros Hall.
    destruct (planned AVAILABLE_SCANNERS args discovered svcs)
      as [|p0 plan] eqn:Eplan.
    + split.
      * intros evs rest Hlen. destruct evs; [|done].
        destruct (machine_scan_nothing_planned tool_starts AVAILABLE_SCANNERS
                    int args discovered rest c svcs Hsel Eplan)
          as [msg Hrun].
        eexists _, []. split; [exact Hrun|]. simpl. now rewrite !app_nil_r.
      * intros evs Hlen. simpl in Hlen. lia.
    + assert (Hne : planned AVAILABLE_SCANNERS args discovered svcs ≠ [])
        by now rewrite Eplan.
      split.
      * intros evs rest Hlen.
        rewrite (machine_scan_plan tool_starts _ _ _ _ _ _ _ Hsel Hne), Eplan.
        destruct (run_plan_foreground tool_starts args (p0 :: plan) Hbg Hall
                    evs rest c Hlen) as (c' & Hrun & Hts & Hj & Hq).
        exists c', (foreground_trackers args (length (trackers c))
                      (p0 :: plan) evs).
        split_and!; done.
      * intros evs Hlen.
        rewrite (machine_scan_plan tool_starts _ _ _ _ _ _ _ Hsel Hne), Eplan.
        now apply run_plan_foreground_blocks.
  - intros pre p post evs rest Eplan Hpre Hp Hlen.
    assert (Hne : planned AVAILABLE_SCANNERS args discovered svcs ≠ [])
      by (rewrite Eplan; now destruct pre).
    rewrite (machine_scan_plan tool_starts _ _ _ _ _ _ _ Hsel Hne), Eplan.
    rewrite run_plan_app. unfold bind.
    destruct (run_plan_foreground tool_starts args pre Hbg Hpre evs rest c
                Hlen) as (c1 & Hrun & Hts & Hj & Hq).
    rewrite Hrun.
    destruct (run_plan_fails tool_starts args p post rest c1 Hp)
      as [msg Hfail].
    rewrite Hfail. eexists. split; [reflexivity|]. simpl.
    rewrite Hts, Hj, Hq, length_app, foreground_trackers_length by done.
    done.
Qed.

Lemma machine_scan_foreground_witness :
  (∃ c' new,
     _machine_scan [sample_scanner; optional_scanner] no_int always_starts
       foreground_all [[found_service]]
       ([KeyboardInterrupt; SIGTSTP; completion 2; SIGTSTP]
        ++ [completion 0])
       empty_console = Return [completion 0] c' ∧
     trackers c' = trackers empty_console ++ new ∧
     map (set_status "") new =
       map (set_status "")
         (foreground_trackers foreground_all
            (length (trackers empty_console))
            (planned [sample_scanner; optional_scanner] foreground_all
               [[found_service]] [sample_service])
            [KeyboardInterrupt; SIGTSTP; completion 2; SIGTSTP]) ∧
     self_jobs c' =
       self_jobs empty_console ++
       suspended_refs (length (trackers empty_console))
         [KeyboardInterrupt; SIGTSTP; completion 2; SIGTSTP] ∧
     self_job_events c' = self_job_events empty_console) ∧
  (∃ c',
     _machine_scan [sample_scanner; optional_scanner] no_int always_starts
       foreground_all [[found_service]] [completion 0] empty_console
       = Blocked c' ∧
     length (trackers c') =
       S (length (trackers empty_console) + length [completion 0])).
Proof.
  destruct (machine_scan_foreground [sample_scanner; optional_scanner]
              no_int always_starts foreground_all [[found_service]]
              empty_console [sample_service] eq_refl eq_refl)
    as [Hstarts _].
  destruct Hstarts as [A B]; [repeat constructor|].
  split.
  - apply (A [KeyboardInterrupt; SIGTSTP; completion 2; SIGTSTP]
             [completion 0]). reflexivity.
  - apply (B [completion 0]). simpl. lia.
Defined.

(** X4.  A background [machine scan], when every tool can be started,
    returns without consuming an event, having created one job per planned
    pair, in the order of the loops (services outside, scanners inside; the
    services visited include those appended to the target's list while the
    loops run): the store gains the jobs in that order, each with the
    shared queue registered and its lock released, the job table gains
    their references in the same order, and the command puts nothing on
    the completion queue.  When the tool of a pair cannot be started, the
    scan raises at that pair: the jobs of the pairs before it are in the
    table, and none is created for it or for a later pair. *)
Theorem machine_scan_background_table
    (AVAILABLE_SCANNERS : list Scanner) (int : string → option Z)
    (tool_starts : Scanner → Service → bool)
    (args : ScanArgs) (discovered : list (list Service))
    (env : list WatchEvent) (c : Console) (svcs : list Service) :
  args_background args = true →
  select_services int args c = Return svcs c →
  (Forall (fun p => launches tool_starts p = true)
     (planned AVAILABLE_SCANNERS args discovered svcs) →
   ∃ c',
     _machine_scan AVAILABLE_SCANNERS int tool_starts args discovered env c
       = Return env c' ∧
     trackers c' =
       trackers c ++
       map (fun p => background_job_for args p.1 p.2)
           (planned AVAILABLE_SCANNERS args discovered svcs) ∧
     self_jobs c' =
       self_jobs c ++
       seq (length (trackers c))
           (length (planned AVAILABLE_SCANNERS args discovered svcs)) ∧
     self_job_events c' = self_job_events c) ∧
  (∀ pre p post,
     planned AVAILABLE_SCANNERS args discovered svcs = pre ++ p :: post →
     Forall (fun p => launches tool_starts p = true) pre →
     launches tool_starts p = false →
     ∃ c',
       _machine_scan AVAILABLE_SCANNERS int tool_starts args discovered env c
         = Raise ScanLaunchFailed c' ∧
       trackers c' =
         trackers c ++ map (fun p => background_job_for args p.1 p.2) pre ∧
       self_jobs c' =
         self_jobs c ++ seq (length (trackers c)) (length pre) ∧
       self_job_events c' = self_job_events c).
Proof.
  intros Hbg Hsel. split.
  - intros Hall.
    destruct (planned AVAILABLE_SCANNERS args discovered svcs)
      as [|p0 plan] eqn:Eplan.
    + destruct (machine_scan_nothing_planned tool_starts AVAILABLE_SCANNERS
                  int args discovered env c svcs Hsel Eplan) as [msg Hrun].
      eexists. split; [exact Hrun|]. simpl. now rewrite !app_nil_r.
    + assert (Hne : planned AVAILABLE_SCANNERS args discovered svcs ≠ [])
        by now rewrite Eplan.
      rewrite (machine_scan_plan tool_starts _ _ _ _ _ _ _ Hsel Hne), Eplan.
      now apply run_plan_background.
  - intros pre p post Eplan Hpre Hp.
    assert (Hne : planned AVAILABLE_SCANNERS args discovered svcs ≠ [])
      by (rewrite Eplan; now destruct pre).
    rewrite (machine_scan_plan tool_starts _ _ _ _ _ _ _ Hsel Hne), Eplan.
    rewrite run_plan_app. unfold bind.
    destruct (run_plan_background tool_starts args pre Hbg Hpre env c)
      as (c1 & Hrun & Hts & Hj & Hq).
    rewrite Hrun.
    destruct (run_plan_fails tool_starts args p post env c1 Hp)
      as [msg Hfail].
    rewrite Hfail. eexists. split; [reflexivity|]. simpl.
    now rewrite Hts, Hj, Hq.
Qed.

Lemma machine_scan_background_table_witness :
  (∃ c',
     _machine_scan [sample_scanner; optional_scanner] no_int always_starts
       recommended_only [[found_service]] [] empty_console = Return [] c' ∧
     trackers c' =
       trackers empty_console ++
       map (fun p => background_job_for recommended_only p.1 p.2)
           (planned [sample_scanner; optional_scanner] recommended_only
              [[found_service]] [sample_service]) ∧
     self_jobs c' =
       self_jobs empty_console ++
       seq (length (trackers empty_console))
           (length (planned [sample_scanner; optional_scanner]
                      recommended_only [[found_service]]
                      [sample_service])) ∧
     self_job_events c' = self_job_events empty_console) ∧
  (∃ c',
     _machine_scan [sample_scanner; optional_scanner] no_int never_starts
       recommended_only [] [] empty_console = Raise ScanLaunchFailed c' ∧
     trackers c' = trackers empty_console ++ [] ∧
     self_jobs c' = self_jobs empty_console ++ [] ∧
     self_job_events c' = self_job_events empty_console).
Proof.
  split.
  - apply (proj1 (machine_scan_background_table
                    [sample_scanner; optional_scanner] no_int always_starts
                    recommended_only [[found_service]] [] empty_console
                    [sample_service] eq_refl eq_refl)).
    repeat constructor.
  - apply (proj2 (machine_scan_background_table
                    [sample_scanner; optional_scanner] no_int never_starts
                    recommended_only [] [] empty_console [sample_service]
                    eq_refl eq_refl)
             [] (sample_service, sample_scanner) []);
      [reflexivity|constructor|reflexivity].
Defined.

(** ** The job table and the exit drain *)

Lemma reconcile_prefix (good : list ref) :
  ∀ c q,
    self_job_events c = good ++ q →
    NoDup good →
    (∀ k, k ∈ good →
          ∃ t th, trackers c !! k = Some t ∧ thread t = Some th ∧
                  started th = true) →
    reconcile (good ++ q) c =
      reconcile q
        {| trackers := alter_all (set_thread None) good (trackers c);
           self_jobs := self_jobs c;
           self_job_events := q;
           output := output c ++ map thread_join good |}.
Proof.
  induction good as [|r rest IH]; intros c q Hq Hnd Hlive.
  - destruct c; simpl in *. subst. now rewrite app_nil_r.
  - apply NoDup_cons in Hnd as [Hr Hnd].
    destruct (Hlive r) as (t & th & Ht & Hth & Hst); [left|].
    cbn [reconcile app]. cbv [bind modify].
    rewrite (thread_join_started r (with_job_events (rest ++ q) c) t th
               Ht Hth Hst).
    cbv [assign modify]. rewrite IH; simpl.
    + now rewrite <- app_assoc.
    + reflexivity.
    + exact Hnd.
    + intros k Hk.
      destruct (Hlive k) as (tk & thk & Htk & Hthk & Hstk); [now right|].
      exists tk, thk. split; [|done].
      rewrite list_lookup_alter_ne; [done|]. intros ->. done.
Qed.

(** X5.  [jobs list] with a stale queue entry.  Let the queue start with
    entries that are fine (each tracker once, its started thread still set)
    and go on with an entry whose tracker has no thread left, because it is
    one of those before it or because its handle was already cleared.  Then
    [jobs list] raises [AttributeError]: the entries before the stale one
    were joined and cleared, the stale entry is gone from the queue, the
    entries after it are still queued, and no table is printed. *)
Theorem jobs_list_stale_entry
    (c : Console) (good : list ref) (r : ref) (rest : list ref) :
  self_job_events c = good ++ r :: rest →
  NoDup good →
  (∀ k, k ∈ good →
        ∃ t th, trackers c !! k = Some t ∧ thread t = Some th ∧
                started th = true) →
  (r ∈ good ∨ ∃ t, trackers c !! r = Some t ∧ thread t = None) →
  _jobs_list c =
    Raise AttributeError
      {| trackers := alter_all (set_thread None) good (trackers c);
         self_jobs := self_jobs c;
         self_job_events := rest;
         output := output c ++ map thread_join good |}.
Proof.
  intros Hq Hnd Hlive Hstale.
  unfold _jobs_list, bind, gets. rewrite Hq.
  rewrite (reconcile_prefix good c (r :: rest) Hq Hnd Hlive).
  cbn [reconcile]. cbv [bind modify]. unfold thread_join_, bind, deref.
  simpl. rewrite alter_all_lookup by reflexivity.
  destruct Hstale as [Hin|(t & Ht & Hth)].
  - destruct (Hlive r Hin) as (t & th & Ht & _).
    rewrite Ht, (bool_decide_eq_true_2 _ Hin). reflexivity.
  - rewrite Ht. simpl.
    destruct (bool_decide (r ∈ good)); simpl; [reflexivity|].
    now rewrite Hth.
Qed.

Lemma jobs_list_stale_entry_witness :
  _jobs_list one_job_signalled_twice =
    Raise AttributeError
      {| trackers :=
           alter_all (set_thread None) [0] (trackers one_job_signalled_twice);
         self_jobs := self_jobs one_job_signalled_twice;
         self_job_events := [];
         output := output one_job_signalled_twice ++ map thread_join [0] |}.
Proof.
  apply (jobs_list_stale_entry one_job_signalled_twice [0] 0 []).
  - reflexivity.
  - apply NoDup_singleton.
  - intros k Hk. apply list_elem_of_singleton in Hk as ->.
    exists background_job, {| started := true; daemon := false |}.
    split_and!; reflexivity.
  - left. left.
Defined.

Lemma has_thread_set_stop (c : Console) (j k : ref) :
  has_thread (with_trackers (alter (set_stop true) j (trackers c)) c) k
  = has_thread c k.
Proof.
  unfold has_thread. simpl. destruct (decide (j = k)) as [->|Hne].
  - rewrite list_lookup_alter_eq. now destruct (trackers c !! k).
  - now rewrite list_lookup_alter_ne.
Qed.

(** X6.  [jobs kill] only asks: after it accepted a job, the job still has
    its thread, so the jobs the exit drain waits for are the same as before;
    and the command is accepted again for the same index, leaving every
    tracker as the first call left it. *)
Theorem jobs_kill_keeps_live
    (c : Console) (i : Z) (j : ref) (t : Tracker) :
  (0 ≤ i < Z.of_nat (length (self_jobs c)))%Z →
  self_jobs c !! Z.to_nat i = Some j →
  trackers c !! j = Some t →
  thread t ≠ None →
  ∃ c' c'',
    _jobs_kill i c = Return tt c' ∧
    live_jobs c' = live_jobs c ∧
    _jobs_kill i c' = Return tt c'' ∧
    trackers c'' = trackers c' ∧
    output c'' =
      output c ++ [poutput_msg ("killing job " +:+ str i);
                   poutput_msg ("killing job " +:+ str i)].
Proof.
  intros Hi Hj Ht Hth.
  pose proof (jobs_kill_in_range c i j t Hi Hj Ht) as H1.
  destruct (thread t) as [th|] eqn:E; [|done].
  set (c' := with_trackers (alter (set_stop true) j (trackers c))
               (report (poutput_msg ("killing job " +:+ str i)) c)) in H1.
  assert (Ht' : trackers c' !! j = Some (set_stop true t)).
  { simpl. now rewrite list_lookup_alter_eq, Ht. }
  pose proof (jobs_kill_in_range c' i j (set_stop true t) Hi Hj Ht') as H2.
  simpl thread in H2. rewrite E in H2.
  eexists c', _. split_and!; [exact H1| |exact H2| |].
  - unfold live_jobs. simpl. apply filter_ext. intros k.
    exact (has_thread_set_stop (report _ c) j k).
  - simpl. rewrite list_alter_alter_eq. now apply list_alter_ext.
  - simpl. now rewrite <- app_assoc.
Qed.

Lemma jobs_kill_keeps_live_witness :
  ∃ c' c'',
    _jobs_kill 0 one_job = Return tt c' ∧
    live_jobs c' = live_jobs one_job ∧
    _jobs_kill 0 c' = Return tt c'' ∧
    trackers c'' = trackers c' ∧
    output c'' =
      output one_job ++ [poutput_msg ("killing job " +:+ str 0);
                         poutput_msg ("killing job " +:+ str 0)].
Proof.
  apply (jobs_kill_keeps_live one_job 0 0 background_job).
  - simpl. lia.
  - reflexivity.
  - reflexivity.
  - discriminate.
Defined.

Lemma has_thread_marked (c : Console) (t : ref) (q : list ref) (j : ref) :
  has_thread (with_trackers (alter marked t (trackers c))
                (with_job_events q c)) j =
  if decide (t = j) then false else has_thread c j.
Proof.
  unfold has_thread. simpl. destruct (decide (t = j)) as [->|Hne].
  - rewrite list_lookup_alter_eq. now destruct (trackers c !! j).
  - now rewrite list_lookup_alter_ne.
Qed.

(** No interrupt is the next thing the environment does. *)
Lemma wait_queued_takes (t : ref) (rest : list ref) (env : list DrainEvent)
    (c : Console) :
  head env ≠ Some interrupt → live_jobs c ≠ [] →
  wait_queued (t :: rest) env c =
    wait_queued rest env
      (with_trackers (alter marked t (trackers c)) (with_job_events rest c)).
Proof.
  intros Hhead Hlive. cbn [wait_queued].
  destruct (live_jobs c) as [|j l]; [done|].
  destruct env as [|[k|] env']; [| |done];
    cbv [bind modify]; now rewrite mark_completed_run.
Qed.

Lemma wait_queued_enough (queued : list ref) (env : list DrainEvent) :
  head env ≠ Some interrupt →
  ∀ c,
    (∀ j, j ∈ live_jobs c → j ∈ queued) →
    ∃ c',
      wait_queued queued env c = Return (drained, env) c' ∧
      only_marked c c' ∧ live_jobs c' = [] ∧ output c' = output c.
Proof.
  intros Hhead.
  induction queued as [|t rest IH]; intros c Hall;
    destruct (live_jobs c) as [|j l] eqn:Hlive.
  - exists c. cbn [wait_queued]. rewrite Hlive.
    split_and!; [done|apply only_marked_refl|done|done].
  - exfalso. eapply not_elem_of_nil, (Hall j). rewrite ?Hlive. left.
  - exists c. cbn [wait_queued]. rewrite Hlive.
    split_and!; [done|apply only_marked_refl|done|done].
  - rewrite wait_queued_takes by (done || now rewrite Hlive).
    set (c1 := with_trackers _ _).
    destruct (IH c1) as (c' & Hrun & Hm & Hl & Ho).
    { intros k Hk. apply live_jobs_elem in Hk as [Hk1 Hk2].
      assert (Hk3 : (if decide (t = k) then false else has_thread c k) = true)
        by (rewrite <- (has_thread_marked c t rest k); exact Hk2).
      clear Hk2. rename Hk3 into Hk2.
      destruct (decide (t = k)) as [->|Hne]; [done|].
      assert (Hk : k ∈ live_jobs c) by (apply live_jobs_elem; done).
      rewrite ?Hlive in Hk. apply Hall in Hk.
      apply elem_of_cons in Hk as [->|Hk]; [done|exact Hk]. }
    exists c'. split_and!; [exact Hrun| |exact Hl|now rewrite Ho].
    eapply only_marked_trans; [|exact Hm]. exact (only_marked_step t rest c).
Qed.

Lemma no_interrupt_head (env : list DrainEvent) :
  interrupt ∉ env → head env ≠ Some interrupt.
Proof.
  destruct env as [|e env]; [done|]. simpl. intros Hno [= ->].
  apply Hno. left.
Qed.

(** X7.  The exit drain takes what is already queued before it waits.  Let
    the signal of every job that still has its thread be in the completion
    queue.  When the operator does not interrupt, the drain returns without
    waiting for the environment: every job of the table then has its
    handle cleared, those that had a thread are marked completed, and the
    stop flags are as they were.  When the operator interrupts once, as the
    drain first asks the queue, the drain prints the cancelling warning and
    sets the stop flag of every job; the queue still holds the signals, and
    the second wait takes them and returns, again with every handle cleared
    and the jobs that had a thread marked completed. *)
Theorem drain_jobs_queued_signals (env : list DrainEvent) (c : Console) :
  (∀ j, j ∈ live_jobs c → j ∈ self_job_events c) →
  interrupt ∉ env →
  (∃ c', drain_jobs env c = Return tt c' ∧ all_joined c c') ∧
  (live_jobs c ≠ [] →
   ∃ c',
     drain_jobs (interrupt :: env) c = Return tt c' ∧
     self_jobs c' = self_jobs c ∧
     output c' =
       output c ++
       [poutput_msg "waiting for background jobs to complete";
        pwarning_msg "cancelling background jobs"] ∧
     ∀ j t, j ∈ self_jobs c → trackers c !! j = Some t →
       ∃ t', trackers c' !! j = Some t' ∧ thread t' = None ∧
             stop t' = true ∧
             (thread t ≠ None → status t' = "completed")).
Proof.
  intros Hall Hno. pose proof (no_interrupt_head env Hno) as Hhead.
  destruct (announced_same c) as [Hj Ht].
  assert (Hlive : live_jobs (announced c) = live_jobs c).
  { unfold live_jobs, has_thread. now rewrite Hj, Ht. }
  assert (Hq : self_job_events (announced c) = self_job_events c).
  { unfold announced. now destruct (live_jobs c). }
  split.
  - rewrite drain_jobs_announced.
    destruct (wait_queued_enough (self_job_events c) env Hhead (announced c))
      as (c' & Hrun & Hm & Hl & _).
    { now rewrite Hlive. }
    exists c'. split.
    + unfold drain_wait, wait_jobs, bind, gets. now rewrite Hq, Hrun.
    + destruct (drained_all_joined _ _ Hm Hl) as [Hj' Hjoin].
      split; [congruence|]. intros j t Hin Hjt. apply Hjoin; congruence.
  - intros Hne. rewrite drain_jobs_announced.
    assert (Hfirst : drain_wait (interrupt :: env) (announced c) =
                     cancelled_wait env (cancelling (announced c))).
    { unfold drain_wait, wait_jobs, bind, gets. rewrite Hq.
      rewrite <- on_first_interrupt_run.
      destruct (self_job_events c) as [|q0 qs] eqn:Eq.
      - destruct (live_jobs c) as [|j l] eqn:El; [done|].
        exfalso. eapply not_elem_of_nil, (Hall j). left.
      - cbn [wait_queued]. rewrite Hlive.
        now destruct (live_jobs c). }
    rewrite Hfirst.
    destruct (wait_queued_enough (self_job_events c) env Hhead
                (cancelling (announced c))) as (c' & Hrun & Hm & Hl & Ho).
    { now rewrite cancelling_live, Hlive. }
    exists c'. split_and!.
    + unfold cancelled_wait, wait_jobs, bind, gets.
      change (self_job_events (cancelling (announced c)))
        with (self_job_events (announced c)).
      now rewrite Hq, Hrun.
    + destruct Hm as [Hm _]. rewrite Hm. simpl. exact Hj.
    + rewrite Ho. unfold announced. destruct (live_jobs c); [done|].
      simpl. now rewrite <- app_assoc.
    + intros j t Hin Hjt.
      destruct (drained_all_joined _ _ Hm Hl) as [_ Hjoin].
      destruct (Hjoin j (set_stop true t)) as (t' & H1 & H2 & H3 & H4).
      * simpl. now rewrite Hj.
      * rewrite cancelling_lookup, Hj, Ht, Hjt. simpl.
        now rewrite (bool_decide_eq_true_2 _ Hin).
      * exists t'. split_and!; try done.
Qed.

Lemma drain_jobs_queued_signals_witness :
  (∃ c', drain_jobs [] one_job_finished = Return tt c' ∧
         all_joined one_job_finished c') ∧
  (live_jobs one_job_finished ≠ [] →
   ∃ c',
     drain_jobs [interrupt] one_job_finished = Return tt c' ∧
     self_jobs c' = self_jobs one_job_finished ∧
     output c' =
       output one_job_finished ++
       [poutput_msg "waiting for background jobs to complete";
        pwarning_msg "cancelling background jobs"] ∧
     ∀ j t, j ∈ self_jobs one_job_finished →
       trackers one_job_finished !! j = Some t →
       ∃ t', trackers c' !! j = Some t' ∧ thread t' = None ∧
             stop t' = true ∧
             (thread t ≠ None → status t' = "completed")).
Proof.
  apply (drain_jobs_queued_signals [] one_job_finished).
  - intros j Hj. apply live_jobs_elem in Hj as [Hj _]. exact Hj.
  - apply not_elem_of_nil.
Defined.

(** * Properties of the machine commands *)

Section MachineListFacts.

Variable lower : string -> string.
Variable len : string -> nat.
Variable difficulty_bar : list Z -> Exn + string.
Variable format_1f : float -> string.

Lemma machine_row_ok (m : MachineInfo) (bar : string) (c : Console) :
  difficulty_bar (ratings m) = inr bar →
  ∃ row, machine_row lower difficulty_bar format_1f m c = Return row c
    ∧ length row = 9
    ∧ row !! 3 = Some (machine_name (about m))
    ∧ row !! 4 = Some (machine_ip m)
    ∧ row !! 8 = Some (if assigned m
                       then Fore_BLUE +:+ list_state m +:+ Fore_RESET
                       else list_state m).
Proof.
  intros Hbar. unfold machine_row. rewrite Hbar.
  eexists. split; [reflexivity|]. split_and!; reflexivity.
Qed.

Lemma machine_rows_ok (ms : list MachineInfo) (c : Console) :
  Forall (fun m => ∃ bar, difficulty_bar (ratings m) = inr bar) ms →
  ∃ rows, machine_rows lower difficulty_bar format_1f ms c = Return rows c
    ∧ length rows = length ms
    ∧ ∀ i m, ms !! i = Some m →
        ∃ row, rows !! i = Some row
          ∧ length row = 9
          ∧ row !! 3 = Some (machine_name (about m))
          ∧ row !! 4 = Some (machine_ip m)
          ∧ row !! 8 = Some (if assigned m
                             then Fore_BLUE +:+ list_state m +:+ Fore_RESET
                             else list_state m).
Proof.
  induction 1 as [|m ms [bar Hbar] _ (rows & Hrows & Hlen & Hcells)].
  - exists []. split_and!; try reflexivity. intros i m Hi. discriminate.
  - destruct (machine_row_ok m bar c Hbar) as (row & Hrow & Hrest).
    exists (row :: rows). split_and!.
    + simpl. cbv [bind]. rewrite Hrow. fold machine_rows. rewrite Hrows.
      reflexivity.
    + simpl. now rewrite Hlen.
    + intros [|i] m' Hi; simpl in Hi.
      * injection Hi as <-. exists row. split; [reflexivity | exact Hrest].
      * exact (Hcells i m' Hi).
Qed.

Lemma machine_rows_raises (pre post : list MachineInfo) (m : MachineInfo)
    (e : Exn) (c : Console) :
  Forall (fun m => ∃ bar, difficulty_bar (ratings m) = inr bar) pre →
  difficulty_bar (ratings m) = inl e →
  machine_rows lower difficulty_bar format_1f (pre ++ m :: post) c
    = Raise e c.
Proof.
  intros Hpre Hm. induction Hpre as [|p pre [bar Hbar] _ IH].
  - simpl. cbv [bind]. unfold machine_row. now rewrite Hm.
  - destruct (machine_row_ok p bar c Hbar) as (row & Hrow & _).
    simpl. cbv [bind]. rewrite Hrow. fold machine_rows.
    change (machine_rows lower difficulty_bar format_1f (pre ++ m :: post) c)
      with (machine_rows lower difficulty_bar format_1f (pre ++ m :: post) c).
    now rewrite IH.
Qed.

Lemma max_nonempty {A} (f : A → Z) (l : list A) (c : Console) :
  l ≠ [] → ∃ v, max_ (map f l) c = Return v c.
Proof.
  destruct l as [|x l]; [congruence|]. intros _. eexists. reflexivity.
Qed.

Lemma complete_machine_filter (ms : list MachineInfo)
    (running active term_or_reset : option bool) :
  complete_machine lower len ms running active term_or_reset
    = map (completion_item lower len)
        (List.filter (offered running active term_or_reset) ms).
Proof.
  induction ms as [|m ms IH]; [reflexivity|].
  simpl. rewrite IH. unfold offered.
  destruct active as [a|], running as [r|], term_or_reset as [t|];
    destruct (expired m), (spawned m), (terminating m), (resetting m);
    try destruct a; try destruct r; reflexivity.
Qed.

End MachineListFacts.

Lemma listed_elem (state owned : string) (todo_only : bool)
    (machines : list MachineInfo) (m : MachineInfo) :
  m ∈ listed state owned todo_only machines ↔
    m ∈ machines
    ∧ (state = "all" ∨ retired m = bool_decide (state ≠ "active"))
    ∧ (owned = "all"
       ∨ owned_root m && owned_user m = bool_decide (owned = "owned"))
    ∧ (todo_only = true → todo m = true).
Proof.
  unfold listed. rewrite !list_elem_of_In.
  assert (Heqb : ∀ a b, Bool.eqb a b = true ↔ a = b)
    by (intros [] []; simpl; split; congruence).
  destruct todo_only; repeat case_bool_decide;
    rewrite ?filter_In, ?Heqb; intuition congruence.
Qed.

Lemma filter_sublist {A} (f : A → bool) (l : list A) :
  sublist (List.filter f l) l.
Proof.
  induction l as [|x l IH]; simpl; [constructor|].
  destruct (f x); [now apply sublist_skip | now apply sublist_cons].
Qed.

Lemma listed_sublist (state owned : string) (todo_only : bool)
    (machines : list MachineInfo) :
  sublist (listed state owned todo_only machines) machines.
Proof.
  unfold listed.
  destruct todo_only; repeat case_bool_decide;
    repeat (etrans; [apply filter_sublist|]); reflexivity.
Qed.

(** X8. [machine list] raises [ValueError] when no machine passes its
    filters: the first column width is the maximum of an empty list.
    Nothing is printed. *)
Theorem machine_list_empty_selection (lower : string → string)
    (len : string → nat) (difficulty_bar : list Z → Exn + string)
    (format_1f : float → string) (state owned : string) (todo_only : bool)
    (machines : list MachineInfo) (c : Console) :
  listed state owned todo_only machines = [] →
  _machine_list lower len difficulty_bar format_1f state owned todo_only
    machines c = Raise ValueError c.
Proof.
  intros Hnone. unfold _machine_list. rewrite Hnone. reflexivity.
Qed.

Lemma machine_list_empty_selection_witness :
  listed "all" "all" true [idle_box] = []
  ∧ _machine_list id String.length plain_bar (fun _ => "4.5")
      "all" "all" true [idle_box] empty_console
    = Raise ValueError empty_console.
Proof.
  split; [reflexivity|].
  apply (machine_list_empty_selection id String.length plain_bar
           (fun _ => "4.5") "all" "all" true [idle_box] empty_console).
  reflexivity.
Defined.

(** X9. When at least one machine passes the filters, [machine list]
    prints one table and changes nothing else, provided the difficulty bar
    of every listed machine can be drawn: the header, then one row of nine
    cells per listed machine, in the order of the machine list, with the
    machine's name, its address and its state text (in blue for the assigned
    machine).  If the bar of one listed machine raises, the command raises
    that exception and prints no table at all. *)
Theorem machine_list_table (lower : string → string) (len : string → nat)
    (difficulty_bar : list Z → Exn + string) (format_1f : float → string)
    (state owned : string) (todo_only : bool)
    (machines : list MachineInfo) (c : Console) :
  listed state owned todo_only machines ≠ [] →
  (Forall (fun m => ∃ bar, difficulty_bar (ratings m) = inr bar)
     (listed state owned todo_only machines) →
   ∃ rows,
     _machine_list lower len difficulty_bar format_1f state owned todo_only
       machines c
       = Return tt (report (ppaged_table (machine_list_header :: rows)) c)
     ∧ length rows = length (listed state owned todo_only machines)
     ∧ ∀ i m, listed state owned todo_only machines !! i = Some m →
         ∃ row, rows !! i = Some row
           ∧ length row = 9
           ∧ row !! 3 = Some (machine_name (about m))
           ∧ row !! 4 = Some (machine_ip m)
           ∧ row !! 8 = Some (if assigned m
                              then Fore_BLUE +:+ list_state m +:+ Fore_RESET
                              else list_state m))
  ∧ (∀ pre m post e,
       listed state owned todo_only machines = pre ++ m :: post →
       Forall (fun m => ∃ bar, difficulty_bar (ratings m) = inr bar) pre →
       difficulty_bar (ratings m) = inl e →
       _machine_list lower len difficulty_bar format_1f state owned todo_only
         machines c = Raise e c).
Proof.
  intros Hsome. unfold _machine_list.
  destruct (max_nonempty (fun m => Z.of_nat (len (machine_name (about m))))
              _ c Hsome) as [w1 H1].
  destruct (max_nonempty (fun m => Z.of_nat (len (machine_ip m)))
              _ c Hsome) as [w2 H2].
  destruct (max_nonempty (fun m => Z.of_nat (len (str (machine_id m))))
              _ c Hsome) as [w3 H3].
  split.
  - intros Hbars.
    destruct (machine_rows_ok lower difficulty_bar format_1f _ c Hbars)
      as (rows & Hrows & Hlen & Hcells).
    exists rows. split_and!; [|exact Hlen|exact Hcells].
    cbv [bind]. rewrite H1, H2, H3, Hrows. reflexivity.
  - intros pre m post e Hsplit Hpre Hm.
    cbv [bind]. rewrite H1, H2, H3, Hsplit.
    now rewrite (machine_rows_raises lower difficulty_bar format_1f
                   pre post m e c Hpre Hm).
Qed.

Lemma machine_list_table_witness :
  ∃ rows,
    _machine_list id String.length plain_bar (fun _ => "3.0")
      "inactive" "owned" true [idle_box; todo_box] empty_console
      = Return tt
          (report (ppaged_table (machine_list_header :: rows)) empty_console)
    ∧ length rows = 1.
Proof.
  destruct (machine_list_table id String.length plain_bar (fun _ => "3.0")
              "inactive" "owned" true [idle_box; todo_box] empty_console)
    as [Hok _]; [discriminate|].
  destruct Hok as (rows & Hrun & Hlen & _).
  - repeat constructor. now exists "bar".
  - exists rows. split; [exact Hrun | exact Hlen].
Defined.

(** X10. The filters of [machine list] keep the order of the machine list
    and select by these tests: with a state other than [all], the machines
    whose [retired] flag equals [state != "active"] (so every value but
    [active] selects the retired ones); with an ownership other than
    [all], the machines owned for both user and root when it is [owned] and
    every other machine, those owned for only one of the two included,
    otherwise; with [--todo], the machines marked todo. *)
Theorem machine_list_selection (state owned : string) (todo_only : bool)
    (machines : list MachineInfo) :
  sublist (listed state owned todo_only machines) machines
  ∧ ∀ m, m ∈ listed state owned todo_only machines ↔
      m ∈ machines
      ∧ (state = "all" ∨ retired m = bool_decide (state ≠ "active"))
      ∧ (owned = "all"
         ∨ owned_root m && owned_user m = bool_decide (owned = "owned"))
      ∧ (todo_only = true → todo m = true).
Proof.
  split; [apply listed_sublist | intros m; apply listed_elem].
Qed.

(** X11. The state text of [machine list], in terms of the state text
    that completion shows for the same machine: the two agree except that
    a machine both terminating and resetting is listed as [terminating] and
    completed as [resetting], and a machine that is neither spawned,
    terminating nor resetting is listed as [off] and completed as
    [stopped].  [machine info] shows the state of [machine list] in colour,
    after [up for] when it is the time left.  List and completion look the
    operating system icon up the same way. *)
Theorem state_texts (m : MachineInfo) :
  list_state m
    = (if terminating m && resetting m then "terminating"
       else if negb (spawned m || terminating m || resetting m) then "off"
       else completion_state m)
  ∧ completion_state m
    = (if terminating m && resetting m then "resetting"
       else if negb (spawned m || terminating m || resetting m)
       then "stopped"
       else list_state m)
  ∧ info_state m
    = (if spawned m && negb (terminating m || resetting m)
       then Fore_GREEN +:+ "up" +:+ Fore_RESET +:+ " for " +:+ list_state m
       else (if resetting m && negb (terminating m) then Fore_YELLOW
             else Fore_RED) +:+ list_state m +:+ Fore_RESET)
  ∧ ∀ key, os_icon key = os_icon_get key.
Proof.
  unfold list_state, completion_state, info_state.
  split_and!; [| | |intros key; unfold os_icon, os_icon_get;
                     now destruct (OS_ICONS !! key)];
    destruct (spawned m), (terminating m), (resetting m); reflexivity.
Qed.

(** X12. [complete_machine] offers, in the order of the machine list,
    exactly the machines that pass the three tests: [active] set and the
    [expired] flag different from it, [running] set and the [spawned] flag
    equal to it, [term_or_reset] set and the machine terminating or
    resetting.  The value given for [term_or_reset] is not looked at:
    [False] selects the same machines as [True]. *)
Theorem complete_machine_offers (lower : string → string)
    (len : string → nat) (machines : list MachineInfo)
    (running active : option bool) (flag : bool) :
  (∀ term_or_reset,
     complete_machine lower len machines running active term_or_reset
       = map (completion_item lower len)
           (List.filter
              (fun m =>
                 match active with
                 | Some a => negb (Bool.eqb (expired m) a)
                 | None => true
                 end
                 && match running with
                    | Some r => Bool.eqb (spawned m) r
                    | None => true
                    end
                 && match term_or_reset with
                    | Some _ => terminating m || resetting m
                    | None => true
                    end) machines))
  ∧ complete_machine lower len machines running active (Some flag)
    = complete_machine lower len machines running active (Some true).
Proof.
  split.
  - intros t. apply complete_machine_filter.
  - now rewrite !complete_machine_filter.
Qed.

(** * Properties of the commands on one machine *)

Lemma logged_nil (s : Lab) : logged [] s = s.
Proof. destruct s. unfold logged. simpl. now rewrite app_nil_r. Qed.

Lemma retries_S (ip : string) (n : nat) :
  retries ip (S n) = ping ip :: sleep 5 :: retries ip n.
Proof. reflexivity. Qed.

Lemma await_ping_retries (fails : list Z) (rest : list PingEvent) (s : Lab) :
  Forall (fun st => st ≠ 0%Z) fails →
  await_ping (map ping_exit fails ++ rest) s
    = await_ping rest
        (logged (retries (machine_ip (target s)) (length fails)) s).
Proof.
  intros Hfails. revert s.
  induction Hfails as [|st fails Hst _ IH]; intros s.
  - simpl. unfold retries. simpl. now rewrite logged_nil.
  - simpl. cbv [and_then attr step]. simpl.
    rewrite (bool_decide_eq_false_2 _ Hst). fold await_ping.
    rewrite IH. simpl. f_equal. unfold logged. simpl.
    rewrite retries_S. rewrite <- !app_assoc. reflexivity.
Qed.

Lemma offered_elem (running active term_or_reset : option bool)
    (machines : list MachineInfo) (m : MachineInfo) :
  m ∈ List.filter (offered running active term_or_reset) machines ↔
    m ∈ machines ∧ offered running active term_or_reset m = true.
Proof. rewrite !list_elem_of_In. apply filter_In. Qed.

Section MachineCommandFacts.

Variable assign_attr : Attr → bool → MachineInfo → Reply.
Variable cache_invalidated : MachineInfo → Reply.
Variable init : string → MachineInfo → Reply.
Variable enumerate : MachineInfo → Reply.

Lemma machine_stop_not_running (s : Lab) :
  spawned (target s) = false →
  _machine_stop assign_attr s
    = Done tt (logged [console (poutput_msg
                 (name_of (target s) +:+ " is not running"))] s).
Proof.
  intros Hs. unfold _machine_stop. cbv [and_then attr]. simpl.
  rewrite Hs. reflexivity.
Qed.

Lemma machine_enum_running (cnxn_assigned : option MachineInfo)
    (analysis : string) (force : bool) (env : list PingEvent) (s : Lab) :
  spawned (target s) = true →
  _machine_enum assign_attr cache_invalidated init enumerate cnxn_assigned
    analysis force env s
    = enum_services init enumerate analysis force s.
Proof.
  intros Hs. unfold _machine_enum. cbv [and_then attr]. simpl.
  rewrite Hs. reflexivity.
Qed.

End MachineCommandFacts.

(** X13. Completion for [machine stop] offers exactly the machines that
    are not running, and [machine stop] refuses every one of them: it
    prints that the machine is not running and sends no request. *)
Theorem machine_stop_choices_refused (lower : string → string)
    (len : string → nat) (assign_attr : Attr → bool → MachineInfo → Reply)
    (machines : list MachineInfo) :
  ∃ ms,
    machine_stop_choices lower len machines
      = map (completion_item lower len) ms
    ∧ sublist ms machines
    ∧ (∀ m, m ∈ ms ↔ m ∈ machines ∧ spawned m = false)
    ∧ ∀ s, target s ∈ ms →
        _machine_stop assign_attr s
          = Done tt (logged [console (poutput_msg
                       (name_of (target s) +:+ " is not running"))] s).
Proof.
  exists (List.filter (offered (Some false) None None) machines).
  assert (Hin : ∀ m,
    m ∈ List.filter (offered (Some false) None None) machines ↔
      m ∈ machines ∧ spawned m = false).
  { intros m. rewrite offered_elem. unfold offered.
    destruct (spawned m); simpl; intuition congruence. }
  split_and!.
  - apply complete_machine_filter.
  - apply filter_sublist.
  - exact Hin.
  - intros s Hs. apply machine_stop_not_running. now apply Hin in Hs.
Qed.

(** X14. Completion for [machine reset] offers exactly the running
    machines of the lab, in the lab's order, and for each of them
    [machine reset] sends the reset request; completion for
    [machine start] offers exactly the machines that are not running, for
    which [machine start] sends the spawn request, so a running machine
    whose ownership [machine start] would transfer is never offered;
    completion for [machine cancel] offers exactly the machines with a
    termination or reset pending, for which [machine cancel] without
    options starts with a request that cancels one. *)
Theorem machine_choices_accepted (lower : string → string)
    (len : string → nat) (assign_attr : Attr → bool → MachineInfo → Reply)
    (machines : list MachineInfo) :
  (∃ ms,
     machine_reset_choices lower len machines
       = map (completion_item lower len) ms
     ∧ sublist ms machines
     ∧ (∀ m, m ∈ ms ↔ m ∈ machines ∧ spawned m = true)
     ∧ ∀ s, target s ∈ ms →
         steps (lab_of (_machine_reset assign_attr s))
           = steps s
             ++ [psuccess_msg (name_of (target s) +:+ ": scheduling reset");
                 setattr attr_resetting true])
  ∧ (∃ ms,
       machine_start_choices lower len machines
         = map (completion_item lower len) ms
       ∧ sublist ms machines
       ∧ (∀ m, m ∈ ms ↔ m ∈ machines ∧ spawned m = false)
       ∧ ∀ s cnxn_assigned, target s ∈ ms →
           ∃ rest,
             steps (lab_of (_machine_start assign_attr cnxn_assigned s))
               = steps s
                 ++ psuccess_msg ("starting " +:+ name_of (target s))
                 :: setattr attr_spawned true :: rest)
  ∧ (∃ ms,
       machine_cancel_choices lower len machines
         = map (completion_item lower len) ms
       ∧ sublist ms machines
       ∧ (∀ m, m ∈ ms ↔
               m ∈ machines ∧ terminating m || resetting m = true)
       ∧ ∀ s, target s ∈ ms →
           ∃ a rest,
             (a = attr_terminating ∨ a = attr_resetting)
             ∧ steps (lab_of (_machine_cancel assign_attr [] s))
                 = steps s ++ setattr a false :: rest).
Proof.
  split_and!.
  - exists (List.filter (offered (Some true) None None) machines).
    split_and!; [apply complete_machine_filter|apply filter_sublist| |].
    { intros m. rewrite offered_elem. unfold offered.
      destruct (spawned m); simpl; intuition congruence. }
    intros s Hs. apply offered_elem in Hs as [_ Hs]. unfold offered in Hs.
    unfold _machine_reset. cbv [and_then attr]. simpl.
    destruct (spawned (target s)); [|discriminate]. simpl.
    cbv [psuccess step set_attr call]. simpl.
    destruct (raised _); simpl; now rewrite <- app_assoc.
  - exists (List.filter (offered (Some false) None None) machines).
    split_and!; [apply complete_machine_filter|apply filter_sublist| |].
    { intros m. rewrite offered_elem. unfold offered.
      destruct (spawned m); simpl; intuition congruence. }
    intros s a Hs. apply offered_elem in Hs as [_ Hs]. unfold offered in Hs.
    unfold _machine_start. cbv [and_then attr]. simpl.
    destruct (spawned (target s)); [discriminate|]. simpl.
    cbv [psuccess step set_attr call try_except say]. simpl.
    destruct (raised _) as [[]|]; simpl; rewrite <- ?app_assoc; simpl;
      eexists; reflexivity.
  - exists (List.filter (offered None None (Some true)) machines).
    split_and!; [apply complete_machine_filter|apply filter_sublist| |].
    { intros m. rewrite offered_elem. unfold offered. simpl. reflexivity. }
    intros s Hs. apply offered_elem in Hs as [_ Hs]. unfold offered in Hs.
    simpl in Hs. unfold _machine_cancel. simpl.
    cbv [and_then attr]. simpl.
    destruct (terminating (target s)) eqn:Ht.
    + exists attr_terminating.
      cbv [set_attr call psuccess step done]. simpl.
      destruct (raised (assign_attr attr_terminating false (target s))).
      * simpl. eexists. split; [now left | reflexivity].
      * simpl.
        destruct (resetting
                    (after (assign_attr attr_terminating false (target s)))).
        -- destruct (raised (assign_attr attr_resetting false _)); simpl;
             rewrite <- ?app_assoc; simpl;
             (eexists; split; [now left | reflexivity]).
        -- simpl. rewrite <- ?app_assoc. simpl.
           eexists; split; [now left | reflexivity].
    + simpl in Hs. exists attr_resetting.
      cbv [set_attr call psuccess step done]. simpl. rewrite Hs.
      destruct (raised (assign_attr attr_resetting false (target s))); simpl;
        rewrite <- ?app_assoc; simpl;
        (eexists; split; [now right | reflexivity]).
Qed.

(** X15. [machine start] never asks the lab to spawn a machine that is
    already running: with no machine assigned it asks for the ownership
    instead, and an exception of that request leaves the command; with
    another machine assigned it only prints that the transfer is
    impossible.  For a machine that is not running it asks for the spawn,
    and reports a [RequestFailed] of that request instead of raising it. *)
Theorem machine_start_outcomes
    (assign_attr : Attr → bool → MachineInfo → Reply)
    (cnxn_assigned : option MachineInfo) (s : Lab) :
  if spawned (target s) then
    match cnxn_assigned with
    | Some a =>
        _machine_start assign_attr cnxn_assigned s
          = Done tt (logged [console (poutput_msg
                       ("unable to transfer machine. " +:+ name_of a
                        +:+ " is currently assigned."))] s)
    | None =>
        let reply := assign_attr attr_assigned true (target s) in
        let s' :=
          {| target := after reply;
             steps := steps s
               ++ [console (poutput_msg (name_of (target s)
                     +:+ ": machine already running, transferring ownership..."));
                   setattr attr_assigned true] |} in
        _machine_start assign_attr cnxn_assigned s
          = match raised reply with
            | Some e => Failed e s'
            | None => Done tt s'
            end
    end
  else
    let reply := assign_attr attr_spawned true (target s) in
    let asked :=
      steps s ++ [psuccess_msg ("starting " +:+ name_of (target s));
                  setattr attr_spawned true] in
    _machine_start assign_attr cnxn_assigned s
      = match raised reply with
        | None => Done tt {| target := after reply; steps := asked |}
        | Some (RequestFailed msg) =>
            Done tt
              {| target := after reply;
                 steps := asked
                   ++ [console (perror_msg ("request failed: " +:+ msg))] |}
        | Some e => Failed e {| target := after reply; steps := asked |}
        end.
Proof.
  unfold _machine_start. cbv [and_then attr]. simpl.
  destruct (spawned (target s)).
  - destruct cnxn_assigned as [a|]; [reflexivity|].
    cbv [say step set_attr call]. simpl.
    destruct (raised _); simpl; now rewrite <- app_assoc.
  - destruct cnxn_assigned as [a|];
      cbv [try_except psuccess set_attr call say step logged]; simpl;
      destruct (raised _) as [[]|]; simpl; rewrite <- ?app_assoc;
      reflexivity.
Qed.

(** X16. [machine cancel] with an empty selection behaves as with both
    [t] and [r] selected.  Whatever is selected, it does nothing at all,
    not even print, for a machine with no termination and no reset pending;
    and when [t] is not selected (and something is), it never asks to
    cancel the termination. *)
Theorem machine_cancel_selection
    (assign_attr : Attr → bool → MachineInfo → Reply)
    (cancel : list string) (s : Lab) :
  _machine_cancel assign_attr [] s = _machine_cancel assign_attr ["t"; "r"] s
  ∧ (terminating (target s) || resetting (target s) = false →
     _machine_cancel assign_attr cancel s = Done tt s)
  ∧ (cancel ≠ [] → "t" ∉ cancel →
     ∃ new,
       steps (lab_of (_machine_cancel assign_attr cancel s)) = steps s ++ new
       ∧ setattr attr_terminating false ∉ new).
Proof.
  split_and!.
  - reflexivity.
  - intros Hnone. apply orb_false_iff in Hnone as [Ht Hr].
    unfold _machine_cancel. cbv [and_then attr done]. simpl.
    destruct (bool_decide (length cancel = 0) || bool_decide ("t" ∈ cancel));
      destruct (bool_decide (length cancel = 0) || bool_decide ("r" ∈ cancel));
      rewrite ?Ht, ?Hr; reflexivity.
  - intros Hsome Ht.
    assert (Hlen : bool_decide (length cancel = 0) = false).
    { apply bool_decide_eq_false_2. now destruct cancel. }
    unfold _machine_cancel. rewrite Hlen, (bool_decide_eq_false_2 _ Ht).
    simpl. cbv [and_then attr done]. simpl.
    destruct (bool_decide ("r" ∈ cancel)).
    + destruct (resetting (target s)).
      * cbv [set_attr call psuccess step]. simpl.
        destruct (raised _); simpl.
        -- eexists. split; [reflexivity|].
           rewrite list_elem_of_singleton. discriminate.
        -- rewrite <- app_assoc. eexists. split; [reflexivity|].
           simpl. rewrite !elem_of_cons, elem_of_nil.
           intros [|[|[]]]; discriminate.
      * exists []. split; [now rewrite app_nil_r | apply not_elem_of_nil].
    + exists []. split; [now rewrite app_nil_r | apply not_elem_of_nil].
Qed.

(** X17. [machine enum] on a machine that is not running, with no machine
    assigned and a spawn request the lab grants: after [n] pings without
    reply, each followed by a pause of five seconds, a ping that is
    answered makes the command pause ten seconds, invalidate the cache and
    go on with the enumeration; an interrupt makes it print that the
    enumeration is cancelled and return, with the spawn request neither
    withdrawn nor followed by any other call; and as long as nothing else
    happens it goes on waiting. *)
Theorem machine_enum_ping
    (assign_attr : Attr → bool → MachineInfo → Reply)
    (cache_invalidated : MachineInfo → Reply)
    (init : string → MachineInfo → Reply)
    (enumerate : MachineInfo → Reply)
    (analysis : string) (force : bool) (fails : list Z)
    (env : list PingEvent) (s : Lab) :
  spawned (target s) = false →
  raised (assign_attr attr_spawned true (target s)) = None →
  Forall (fun st => st ≠ 0%Z) fails →
  let m := after (assign_attr attr_spawned true (target s)) in
  let tried :=
    steps s
    ++ [console (pwarning_msg ("starting " +:+ name_of (target s)));
        setattr attr_spawned true;
        console (pwarning_msg "waiting for machine to respond to ping...")]
    ++ retries (machine_ip m) (length fails) in
  _machine_enum assign_attr cache_invalidated init enumerate None analysis
    force (map ping_exit fails ++ ping_exit 0 :: env) s
    = (let s' :=
         {| target := after (cache_invalidated m);
            steps := tried
              ++ [ping (machine_ip m);
                  psuccess_msg "received ping response!";
                  console (poutput_msg "waiting for services to start...");
                  sleep 10;
                  invalidate_cache] |} in
       match raised (cache_invalidated m) with
       | Some e => Failed e s'
       | None => enum_services init enumerate analysis force s'
       end)
  ∧ _machine_enum assign_attr cache_invalidated init enumerate None analysis
      force (map ping_exit fails ++ ping_interrupt :: env) s
    = Done tt
        {| target := m;
           steps := tried
             ++ [console (perror_msg
                   "no ping response received. cancelling enumeration.")] |}
  ∧ _machine_enum assign_attr cache_invalidated init enumerate None analysis
      force (map ping_exit fails) s
    = Waiting {| target := m; steps := tried |}.
Proof.
  intros Hs Hok Hfails m tried.
  assert (Hstart : ∀ evs,
    _machine_enum assign_attr cache_invalidated init enumerate None analysis
      force (map ping_exit fails ++ evs) s
    = (let* up := await_ping evs in
       if up then
         say (poutput_msg "waiting for services to start...") ;;
         step (sleep 10) ;;
         call invalidate_cache cache_invalidated ;;
         enum_services init enumerate analysis force
       else
         say (perror_msg
                "no ping response received. cancelling enumeration.") ;;
         done tt)%cmd {| target := m; steps := tried |}).
  { intros evs. unfold _machine_enum. cbv [and_then attr]. simpl.
    rewrite Hs. simpl. cbv [say step set_attr call]. simpl. rewrite Hok.
    rewrite (await_ping_retries fails evs _ Hfails). simpl.
    unfold logged. simpl. fold m. rewrite <- !app_assoc. simpl.
    fold tried.
    destruct (await_ping evs _) as [[] s0|e s0|s0]; try reflexivity.
    simpl. destruct (raised (cache_invalidated (target s0))); reflexivity. }
  split_and!.
  - rewrite Hstart. simpl. cbv [and_then attr step psuccess say call done].
    simpl. rewrite <- !app_assoc. simpl.
    destruct (raised (cache_invalidated m)); reflexivity.
  - rewrite Hstart. reflexivity.
  - rewrite <- (app_nil_r (map ping_exit fails)). rewrite Hstart. reflexivity.
Qed.

Lemma machine_enum_ping_witness :
  _machine_enum granting unchanged (fun _ => unchanged) unchanged None
    "/tmp/htb" false [ping_exit 1; ping_exit 2; ping_interrupt]
    (start_of idle_box)
  = Done tt
      {| target := after (granting attr_spawned true idle_box);
         steps :=
           [console (pwarning_msg ("starting " +:+ name_of idle_box));
            setattr attr_spawned true;
            console (pwarning_msg "waiting for machine to respond to ping...");
            ping "10.10.10.7"; sleep 5; ping "10.10.10.7"; sleep 5;
            console (perror_msg
              "no ping response received. cancelling enumeration.")] |}.
Proof.
  destruct (machine_enum_ping granting unchanged (fun _ => unchanged)
              unchanged "/tmp/htb" false [1; 2]%Z [] (start_of idle_box))
    as (_ & Hint & _).
  - reflexivity.
  - reflexivity.
  - repeat constructor; discriminate.
  - exact Hint.
Defined.

(** X18. [machine enum] on a machine that is not running while another
    machine is assigned only prints a warning: no request, no ping, no
    enumeration.  With no machine assigned, an exception of the spawn
    request leaves the command, a [RequestFailed] included, before any
    ping is sent. *)
Theorem machine_enum_not_started
    (assign_attr : Attr → bool → MachineInfo → Reply)
    (cache_invalidated : MachineInfo → Reply)
    (init : string → MachineInfo → Reply)
    (enumerate : MachineInfo → Reply)
    (analysis : string) (force : bool) (env : list PingEvent) (s : Lab) :
  spawned (target s) = false →
  (∀ a,
     _machine_enum assign_attr cache_invalidated init enumerate (Some a)
       analysis force env s
     = Done tt (logged [console (pwarning_msg
                  ("unable to start " +:+ name_of (target s) +:+ ". "
                   +:+ name_of a +:+ " is already assigned."))] s))
  ∧ (∀ e,
       raised (assign_attr attr_spawned true (target s)) = Some e →
       _machine_enum assign_attr cache_invalidated init enumerate None
         analysis force env s
       = Failed e
           {| target := after (assign_attr attr_spawned true (target s));
              steps := steps s
                ++ [console (pwarning_msg
                      ("starting " +:+ name_of (target s)));
                    setattr attr_spawned true] |}).
Proof.
  intros Hs. split.
  - intros a. unfold _machine_enum. cbv [and_then attr]. simpl.
    rewrite Hs. reflexivity.
  - intros e He. unfold _machine_enum. cbv [and_then attr]. simpl.
    rewrite Hs. simpl. cbv [say step set_attr call]. simpl. rewrite He.
    now rewrite <- app_assoc.
Qed.

Lemma machine_enum_not_started_witness :
  _machine_enum refusing unchanged (fun _ => unchanged) unchanged
    (Some todo_box) "/tmp/htb" true [ping_exit 0] (start_of idle_box)
  = Done tt (logged [console (pwarning_msg
               ("unable to start " +:+ name_of idle_box +:+ ". "
                +:+ name_of todo_box +:+ " is already assigned."))]
               (start_of idle_box))
  ∧ _machine_enum refusing unchanged (fun _ => unchanged) unchanged
      None "/tmp/htb" true [ping_exit 0] (start_of idle_box)
    = Failed (RequestFailed "denied")
        {| target := idle_box;
           steps := [console (pwarning_msg ("starting " +:+ name_of idle_box));
                     setattr attr_spawned true] |}.
Proof.
  destruct (machine_enum_not_started refusing unchanged (fun _ => unchanged)
              unchanged "/tmp/htb" true [ping_exit 0] (start_of idle_box))
    as [Hrefused Hraised]; [reflexivity|].
  split; [apply Hrefused | now apply Hraised].
Defined.

(** X19. [machine enum] on a running machine sends no spawn request and
    no ping.  If the analysis structure is missing and cannot be set up
    because [/etc/hosts] cannot be written, it reports that and does not
    enumerate.  With the structure present it enumerates exactly when the
    machine has no known service or [--force] is given, and reports a
    failure of [masscan] or [nmap] instead of raising it; otherwise it only
    prints how many services are already known. *)
Theorem machine_enum_services
    (assign_attr : Attr → bool → MachineInfo → Reply)
    (cache_invalidated : MachineInfo → Reply)
    (init : string → MachineInfo → Reply)
    (enumerate : MachineInfo → Reply)
    (cnxn_assigned : option MachineInfo)
    (analysis : string) (force : bool) (env : list PingEvent) (s : Lab) :
  spawned (target s) = true →
  match analysis_path (target s) with
  | None =>
      raised (init analysis (target s)) = Some EtcHostsFailed →
      _machine_enum assign_attr cache_invalidated init enumerate
        cnxn_assigned analysis force env s
      = Done tt
          {| target := after (init analysis (target s));
             steps := steps s
               ++ [console (pwarning_msg "initializing analysis structure");
                   machine_init analysis;
                   console (perror_msg "failed to add host to /etc/hosts")] |}
  | Some _ =>
      _machine_enum assign_attr cache_invalidated init enumerate
        cnxn_assigned analysis force env s
      = if bool_decide (length (services (about (target s))) = 0) || force
        then
          let s' :=
            {| target := after (enumerate (target s));
               steps := steps s
                 ++ [console (poutput_msg "enumerating machine services");
                     machine_enumerate] |} in
          match raised (enumerate (target s)) with
          | None => Done tt s'
          | Some MasscanFailed =>
              Done tt (logged [console (perror_msg "masscan failed")] s')
          | Some NmapFailed =>
              Done tt (logged [console (perror_msg "nmap failed")] s')
          | Some e => Failed e s'
          end
        else
          Done tt
            (logged [console (poutput_msg
               (name_of (target s) +:+ " already enumerated ("
                +:+ str (Z.of_nat (length (services (about (target s)))))
                +:+ " service(s) detected)"))] s)
  end.
Proof.
  intros Hs.
  rewrite (machine_enum_running assign_attr cache_invalidated init enumerate
             cnxn_assigned analysis force env s Hs).
  unfold enum_services. cbv [and_then attr]. simpl.
  destruct (analysis_path (target s)).
  - simpl.
    destruct (bool_decide (length (services (about (target s))) = 0) || force);
      [|reflexivity].
    cbv [say step try_except call logged]. simpl.
    destruct (raised (enumerate (target s))) as [[]|]; simpl;
      rewrite <- ?app_assoc; reflexivity.
  - intros Hinit. cbv [say step try_except call and_then done]. simpl.
    rewrite Hinit. simpl. rewrite <- !app_assoc. reflexivity.
Qed.

Lemma machine_enum_services_witness :
  _machine_enum granting unchanged hosts_fail masscan_fails None "/tmp/htb"
    false [] (start_of todo_box)
  = Done tt
      {| target := todo_box;
         steps := [console (pwarning_msg "initializing analysis structure");
                   machine_init "/tmp/htb";
                   console (perror_msg "failed to add host to /etc/hosts")] |}.
Proof.
  pose proof (machine_enum_services granting unchanged hosts_fail
                masscan_fails None "/tmp/htb" false [] (start_of todo_box)
                eq_refl) as H.
  simpl in H. apply H. reflexivity.
Defined.

(** * Properties of the string handling *)

Lemma split_nonempty (sep : ascii) (s : string) :
  ∃ h t, split sep s = h :: t.
Proof.
  induction s as [|ch rest (h & t & IH)]; simpl; [by eexists _, _|].
  case_bool_decide; [by eexists _, _|]. rewrite IH. by eexists _, _.
Qed.

Lemma split_app_head (sep : ascii) (a b h : string) (t : list string) :
  contains sep a = false → split sep b = h :: t →
  split sep (a +:+ b) = (a +:+ h) :: t.
Proof.
  intros Ha Hb. induction a as [|ch a IH]; [exact Hb|].
  simpl in Ha. apply orb_false_iff in Ha as [Hch Ha].
  rewrite append_cons. simpl. rewrite Hch, (IH Ha). reflexivity.
Qed.

Lemma concat_split (sep : ascii) (s : string) :
  String.concat (String sep "") (split sep s) = s.
Proof.
  induction s as [|ch rest IH]; [reflexivity|]. simpl.
  destruct (split_nonempty sep rest) as (h & t & Hsplit).
  rewrite Hsplit in *. case_bool_decide as Hch.
  - subst ch. change (String.concat (String sep "") ("" :: h :: t))
      with (String sep (String.concat (String sep "") (h :: t))).
    now rewrite IH.
  - destruct t as [|h' t]; simpl in *; [now rewrite IH|].
    now rewrite <- IH.
Qed.

Lemma append_assoc (a b c : string) : (a +:+ b) +:+ c = a +:+ (b +:+ c).
Proof.
  induction a as [|ch a IH]; [reflexivity|].
  now rewrite !append_cons, IH.
Qed.

Lemma contains_append (sep : ascii) (a b : string) :
  contains sep (a +:+ b) = contains sep a || contains sep b.
Proof.
  induction a as [|ch a IH]; [reflexivity|].
  rewrite append_cons. simpl. now rewrite IH, orb_assoc.
Qed.

Lemma split_head (sep : ascii) (a rest : string) :
  contains sep a = false →
  (rest = "" ∨ ∃ r, rest = String sep r) →
  ∃ t, split sep (a +:+ rest) = a :: t.
Proof.
  intros Ha [->|[r ->]].
  - rewrite append_nil_r, (split_without sep a Ha). by eexists.
  - rewrite (split_at_first sep a r Ha). by eexists.
Qed.

(** X20. The server name a notification is compared with is the first
    label of the lab's host name without its first dash-separated word:
    for a host name [PREFIX-SERVER.DOMAIN] it is [SERVER], dashes in it
    kept.  A message for another server is ignored; a message for this
    server is shown as the text between the first and the second closing
    bracket of its title in lower case, and raises when that title has no
    closing bracket. *)
Theorem on_notification_server (lower : string → string)
    (prefix server domain sent title : string)
    (message : gmap string string) :
  contains "-" prefix = false → contains "." prefix = false →
  contains "." server = false →
  (domain = "" ∨ ∃ d, domain = String "." d) →
  message !! "server" = Some sent → message !! "title" = Some title →
  (sent ≠ server →
   _on_notification lower (prefix +:+ String "-" (server +:+ domain)) message
     = ignored)
  ∧ (sent = server →
     (contains "]" (lower title) = false →
      _on_notification lower (prefix +:+ String "-" (server +:+ domain))
        message = raises_IndexError)
     ∧ (∀ tag text rest,
          lower title = tag +:+ String "]" (text +:+ rest) →
          contains "]" tag = false → contains "]" text = false →
          (rest = "" ∨ ∃ r, rest = String "]" r) →
          _on_notification lower (prefix +:+ String "-" (server +:+ domain))
            message = alerted text)).
Proof.
  intros Hdash Hdot Hserver Hdomain Hsent Htitle.
  assert (Hlabel : ∃ t,
    split "." (prefix +:+ String "-" (server +:+ domain))
      = (prefix +:+ String "-" server) :: t).
  { change (String "-" (server +:+ domain))
      with (String "-" server +:+ domain).
    rewrite <- append_assoc.
    apply split_head; [|exact Hdomain].
    rewrite contains_append, Hdot. simpl. exact Hserver. }
  destruct Hlabel as [t Hlabel].
  assert (Hname :
    String.concat "-"
      (drop 1 (split "-" (default ""
         (split "." (prefix +:+ String "-" (server +:+ domain)) !! 0%nat))))
    = server).
  { rewrite Hlabel. simpl. rewrite (split_at_first "-" prefix server Hdash).
    simpl. apply (concat_split "-"). }
  unfold _on_notification. rewrite Hname, Hsent, Htitle.
  split.
  - intros Hne. now rewrite (bool_decide_eq_true_2 _ Hne).
  - intros ->. rewrite bool_decide_eq_false_2 by (intros H; now apply H).
    split.
    + intros Hnone. now rewrite (split_without "]" _ Hnone).
    + intros tag text rest -> Htag Htext Hrest.
      rewrite (split_at_first "]" tag _ Htag). simpl.
      now rewrite (split_second "]" text rest Htext Hrest).
Qed.

Lemma on_notification_server_witness :
  _on_notification id "edge-eu-free-1.hackthebox.eu" sample_message
    = alerted " box reset".
Proof.
  assert (Hdomain : ".hackthebox.eu" = ""
                    ∨ ∃ d, ".hackthebox.eu" = String "." d)
    by (right; by eexists).
  exact (proj2 (proj2 (on_notification_server id "edge" "eu-free-1"
                         ".hackthebox.eu" "eu-free-1" "[machine] box reset"
                         sample_message eq_refl eq_refl eq_refl Hdomain
                         eq_refl eq_refl) eq_refl)
           "[machine" " box reset" "" eq_refl eq_refl eq_refl
           (or_introl eq_refl)).
Defined.

(** X21. The UUID read from the output of [nmcli] is the text between
    the first opening parenthesis and the next closing one, decoded; a
    missing closing parenthesis is not noticed, the text up to the end of
    the output (or the next opening parenthesis) is taken.  Output without
    an opening parenthesis, or with text there that does not decode, is
    reported as unexpected. *)
Theorem imported_uuid_between_parentheses
    (decode_utf8 : string → option string) (stdout : string) :
  (contains "(" stdout = false → imported_uuid decode_utf8 stdout = None)
  ∧ ∀ before uuid rest,
      stdout = before +:+ String "(" (uuid +:+ rest) →
      contains "(" before = false →
      contains "(" uuid = false → contains ")" uuid = false →
      (rest = "" ∨ ∃ r, rest = String ")" r ∨ rest = String "(" r) →
      imported_uuid decode_utf8 stdout = decode_utf8 uuid.
Proof.
  split.
  - intros Hnone. unfold imported_uuid.
    now rewrite (split_without "(" stdout Hnone).
  - intros before uuid rest -> Hbefore Hopen Hclose Hrest.
    unfold imported_uuid. rewrite (split_at_first "(" before _ Hbefore).
    simpl.
    destruct Hrest as [->|[r [->| ->]]].
    + rewrite append_nil_r, (split_without "(" uuid Hopen). simpl.
      now rewrite (split_without ")" uuid Hclose).
    + destruct (split_nonempty "(" r) as (h & t & Hr).
      rewrite (split_app_head "(" uuid (String ")" r) (String ")" h) t Hopen).
      * simpl. now rewrite (split_at_first ")" uuid h Hclose).
      * simpl. now rewrite Hr.
    + rewrite (split_at_first "(" uuid r Hopen). simpl.
      now rewrite (split_without ")" uuid Hclose).
Qed.

Lemma imported_uuid_between_parentheses_witness :
  imported_uuid Some nmcli_added
    = Some "0a1b2c3d-0000-4000-8000-00000000000f".
Proof.
  exact (proj2 (imported_uuid_between_parentheses Some nmcli_added)
           "Connection 'lab' " "0a1b2c3d-0000-4000-8000-00000000000f"
           ") successfully added." eq_refl eq_refl eq_refl eq_refl
           (or_intror (ex_intro _ " successfully added."
                         (or_introl eq_refl)))).
Defined.

(** * Properties of the lab VPN *)

Lemma configured_guard (cfg : Config) (uuid : string) :
  configured cfg = Some uuid →
  negb (has_section cfg "lab") || negb (has_option cfg "lab" "connection")
    = false.
Proof.
  unfold configured, has_option. intros H. rewrite H.
  unfold get_option, section_options, has_section in *. simpl in *.
  destruct (sections cfg !! "lab"); [reflexivity | discriminate].
Qed.

Lemma unconfigured_guard (cfg : Config) :
  configured cfg = None →
  negb (has_section cfg "lab") || negb (has_option cfg "lab" "connection")
    = true.
Proof.
  unfold configured, has_option. intros ->. simpl. apply orb_true_r.
Qed.

Lemma configured_reset (cfg : Config) (uuid : string) :
  configured (reset_section "lab" "connection" uuid cfg) = Some uuid.
Proof.
  unfold configured, get_option, section_options, reset_section. simpl.
  rewrite lookup_insert_eq. simpl. now rewrite lookup_singleton_eq.
Qed.

Section LabVpnFacts.

Variable GetConnectionByUuid : string → Failure + NmConnection.
Variable Delete : NmConnection → option Failure.
Variable lab_config : Failure + string.
Variable nmcli : string → Failure + CompletedProcess.
Variable decode_utf8 : string → option string.
Variable GetImportedByUuid : string → Failure + NmConnection.
Variable GetSettings : NmConnection → Failure + Settings.
Variable Update : NmConnection → Settings → option Failure.
Variable write : Config → option Failure.

Lemma get_vpn_connection_found (s : Vpn) (uuid : string) (c : NmConnection) :
  configured (config s) = Some uuid →
  GetConnectionByUuid uuid = inr c →
  _nm_get_vpn_connection GetConnectionByUuid s = Done (c, uuid) s.
Proof.
  intros Hcfg Hc. unfold _nm_get_vpn_connection.
  cbv [and_then get_config]. rewrite (configured_guard _ _ Hcfg).
  unfold configured in Hcfg. rewrite Hcfg. simpl.
  cbv [try_except returned]. rewrite Hc. reflexivity.
Qed.

Lemma get_vpn_connection_cases (s : Vpn) :
  match _nm_get_vpn_connection GetConnectionByUuid s with
  | Done (c, uuid) s' =>
      s' = s ∧ configured (config s) = Some uuid
      ∧ GetConnectionByUuid uuid = inr c
  | Failed e s' => s' = s
  | Waiting s' => False
  end.
Proof.
  unfold _nm_get_vpn_connection. cbv [and_then get_config].
  destruct (configured (config s)) as [uuid|] eqn:Hcfg.
  - rewrite (configured_guard _ _ Hcfg).
    unfold configured in Hcfg. rewrite Hcfg. simpl.
    cbv [try_except returned].
    destruct (GetConnectionByUuid uuid) as [[]|c] eqn:Hc; simpl; auto.
  - rewrite (unconfigured_guard _ Hcfg). reflexivity.
Qed.

Lemma adjust_connection_config (name uuid : string) (s : Vpn) :
  config (lab_of (adjust_connection GetImportedByUuid GetSettings Update
                    name uuid s)) = config s
  ∧ match adjust_connection GetImportedByUuid GetSettings Update name uuid s
    with
    | Waiting _ => False
    | _ => True
    end.
Proof.
  unfold adjust_connection. cbv [and_then returned failing done].
  destruct (GetImportedByUuid uuid) as [e|c]; [now split|].
  destruct (GetSettings c) as [e|st]; [now split|].
  destruct (set_setting "connection" "id" _ st) as [e|s1]; [now split|].
  destruct (set_setting "ipv4" "never-default" _ s1) as [e|s2]; [now split|].
  destruct (set_setting "ipv6" "never-default" _ s2) as [e|s3]; [now split|].
  cbv [vpn_step completed]. simpl.
  destruct (Update c s3); now split.
Qed.

Lemma existing_connection_cases (force : bool) (s : Vpn) :
  match existing_connection GetConnectionByUuid Delete force s with
  | Done (Some (c, uuid)) s' =>
      s' = s ∧ force = false ∧ configured (config s) = Some uuid
      ∧ GetConnectionByUuid uuid = inr c
  | Done None s' => config s' = config s
  | Failed e s' => config s' = config s
  | Waiting s' => False
  end.
Proof.
  unfold existing_connection. cbv [try_except and_then].
  pose proof (get_vpn_connection_cases s) as Hget.
  destruct (_nm_get_vpn_connection GetConnectionByUuid s)
    as [[c uuid] s'|e s'|s']; [| |done].
  - destruct Hget as (-> & Hcfg & Hc). destruct force; [|done].
    cbv [vpn_step completed done failing]. simpl.
    destruct (Delete c) as [[]|]; reflexivity.
  - subst s'. destruct e; try reflexivity.
Qed.

Lemma import_connection_cases (name : string) (s : Vpn) :
  match import_connection lab_config nmcli decode_utf8 GetImportedByUuid
          GetSettings Update write name s with
  | Done (Some (c, uuid)) s' =>
      config s' = reset_section "lab" "connection" uuid (config s)
      ∧ write (config s') = None
      ∧ ∃ ovpn p, lab_config = inr ovpn ∧ nmcli ovpn = inr p
          ∧ returncode p = 0%Z
          ∧ imported_uuid decode_utf8 (stdout p) = Some uuid
  | Done None s' => config s' = config s
  | Failed e s' =>
      config s' = config s
      ∨ ∃ uuid, config s' = reset_section "lab" "connection" uuid (config s)
          ∧ write (config s') = Some e
  | Waiting s' => False
  end.
Proof.
  unfold import_connection. cbv [and_then returned failing done].
  destruct lab_config as [e|ovpn] eqn:Hovpn; [now left|].
  cbv [vpn_step]. simpl.
  destruct (nmcli ovpn) as [e|p] eqn:Hp; [now left|].
  case_bool_decide as Hrc.
  - cbv [vpn_say vpn_step decode_bytes failing done]. simpl.
    destruct (decode_utf8 (stderr p)); [reflexivity | now left].
  - destruct (imported_uuid decode_utf8 (stdout p)) as [uuid|] eqn:Huuid.
    + cbv [try_except and_then].
      pose proof (adjust_connection_config name uuid
                    {| config := config s;
                       vpn_steps := vpn_steps s ++ [nmcli_import ovpn] |})
        as [Hcfg Hw].
      destruct (adjust_connection GetImportedByUuid GetSettings Update name
                  uuid _) as [c s'|e s'|s']; [| |done]; simpl in Hcfg.
      * cbv [done get_config set_config vpn_step completed failing]. simpl.
        rewrite Hcfg.
        destruct (write (reset_section "lab" "connection" uuid (config s)))
          as [e|] eqn:Hwrite.
        -- right. exists uuid. simpl. split; [reflexivity | exact Hwrite].
        -- simpl. split_and!; [reflexivity | exact Hwrite|].
           exists ovpn, p. split_and!; try done.
           all: destruct (decide (returncode p = 0%Z)); [done|now destruct Hrc].
      * destruct e; try (now left).
        cbv [vpn_say vpn_step done]. simpl. exact Hcfg.
    + cbv [vpn_say vpn_step decode_bytes failing done]. simpl.
      destruct (decode_utf8 (stderr p)); [|now left]. simpl.
      destruct (decode_utf8 (stdout p)); [reflexivity | now left].
Qed.

End LabVpnFacts.

(** X22. [lab import] without [--reload], when the configuration names a
    connection NetworkManager knows: nothing is imported, deleted, renamed
    or written, the name given is not used, and the command still prints
    that it imported the configuration, with the UUID already stored. *)
Theorem lab_import_existing
    (GetConnectionByUuid : string → Failure + NmConnection)
    (Delete : NmConnection → option Failure)
    (lab_config : Failure + string)
    (nmcli : string → Failure + CompletedProcess)
    (decode_utf8 : string → option string)
    (GetImportedByUuid : string → Failure + NmConnection)
    (GetSettings : NmConnection → Failure + Settings)
    (Update : NmConnection → Settings → option Failure)
    (write : Config → option Failure)
    (name : string) (s : Vpn) (uuid : string) (c : NmConnection) :
  configured (config s) = Some uuid →
  GetConnectionByUuid uuid = inr c →
  _nm_import_vpn GetConnectionByUuid Delete lab_config nmcli decode_utf8
    GetImportedByUuid GetSettings Update write name false s
    = Done (Some (c, uuid)) s
  ∧ _lab_import GetConnectionByUuid Delete lab_config nmcli decode_utf8
      GetImportedByUuid GetSettings Update write name false s
    = Done tt (vpn_logged [vpn_psuccess
                 ("imported vpn configuration w/ uuid " +:+ uuid)] s).
Proof.
  intros Hcfg Hc.
  assert (Himport :
    _nm_import_vpn GetConnectionByUuid Delete lab_config nmcli decode_utf8
      GetImportedByUuid GetSettings Update write name false s
    = Done (Some (c, uuid)) s).
  { unfold _nm_import_vpn, existing_connection. cbv [and_then try_except].
    now rewrite (get_vpn_connection_found GetConnectionByUuid s uuid c
                   Hcfg Hc). }
  split; [exact Himport|].
  unfold _lab_import. cbv [and_then]. now rewrite Himport.
Qed.

(** X23. What [_nm_import_vpn] does to the configuration.  Whenever it
    returns [(None, None)] the configuration is as it was, also when a
    forced import had already deleted the connection it names.  When it
    raises, the configuration is as it was, unless the exception comes
    from writing the file, after the configuration was changed in memory.
    When it returns a connection, the configuration names the UUID
    returned: either nothing was forced and nothing changed, or the [lab]
    section was replaced by one that holds only the new connection and the
    file was written.  It never stays waiting. *)
Theorem nm_import_config
    (GetConnectionByUuid : string → Failure + NmConnection)
    (Delete : NmConnection → option Failure)
    (lab_config : Failure + string)
    (nmcli : string → Failure + CompletedProcess)
    (decode_utf8 : string → option string)
    (GetImportedByUuid : string → Failure + NmConnection)
    (GetSettings : NmConnection → Failure + Settings)
    (Update : NmConnection → Settings → option Failure)
    (write : Config → option Failure)
    (name : string) (force : bool) (s : Vpn) :
  match _nm_import_vpn GetConnectionByUuid Delete lab_config nmcli
          decode_utf8 GetImportedByUuid GetSettings Update write name force s
  with
  | Done (Some (c, uuid)) s' =>
      configured (config s') = Some uuid
      ∧ (force = false ∧ s' = s
         ∨ config s' = reset_section "lab" "connection" uuid (config s)
           ∧ sections (config s') !! "lab" = Some {[ "connection" := uuid ]}
           ∧ write (config s') = None)
  | Done None s' => config s' = config s
  | Failed e s' =>
      config s' = config s
      ∨ ∃ uuid, config s' = reset_section "lab" "connection" uuid (config s)
          ∧ write (config s') = Some e
  | Waiting s' => False
  end.
Proof.
  unfold _nm_import_vpn. cbv [and_then].
  pose proof (existing_connection_cases GetConnectionByUuid Delete force s)
    as Hfirst.
  destruct (existing_connection GetConnectionByUuid Delete force s)
    as [[[c uuid]|] s1|e s1|s1]; [| | |done].
  - destruct Hfirst as (-> & -> & Hcfg & _). split; [exact Hcfg | now left].
  - pose proof (import_connection_cases lab_config nmcli decode_utf8
                  GetImportedByUuid GetSettings Update write name s1)
      as Hrest.
    destruct (import_connection lab_config nmcli decode_utf8
                GetImportedByUuid GetSettings Update write name s1)
      as [[[c uuid]|] s2|e s2|s2]; [| | |done].
    + destruct Hrest as (Hcfg & Hwrite & _). rewrite Hfirst in Hcfg.
      split; [rewrite Hcfg; apply configured_reset|].
      right. split_and!; [exact Hcfg| |exact Hwrite].
      rewrite Hcfg. simpl. apply lookup_insert_eq.
    + congruence.
    + rewrite Hfirst in Hrest. exact Hrest.
  - left. exact Hfirst.
Qed.

(** X24. [lab import --reload] when the configuration names a connection
    NetworkManager knows and [nmcli] then fails: the old connection has
    been deleted, the three error messages are printed, nothing else is
    done, and the configuration still names the deleted connection. *)
Theorem lab_import_reload_failure
    (GetConnectionByUuid : string → Failure + NmConnection)
    (Delete : NmConnection → option Failure)
    (lab_config : Failure + string)
    (nmcli : string → Failure + CompletedProcess)
    (decode_utf8 : string → option string)
    (GetImportedByUuid : string → Failure + NmConnection)
    (GetSettings : NmConnection → Failure + Settings)
    (Update : NmConnection → Settings → option Failure)
    (write : Config → option Failure)
    (name : string) (s : Vpn) (uuid ovpn err : string) (c : NmConnection)
    (p : CompletedProcess) :
  configured (config s) = Some uuid →
  GetConnectionByUuid uuid = inr c →
  Delete c = None →
  lab_config = inr ovpn →
  nmcli ovpn = inr p →
  returncode p ≠ 0%Z →
  decode_utf8 (stderr p) = Some err →
  ∃ s',
    _lab_import GetConnectionByUuid Delete lab_config nmcli decode_utf8
      GetImportedByUuid GetSettings Update write name true s = Done tt s'
    ∧ vpn_steps s'
      = vpn_steps s
        ++ [connection_Delete c;
            nmcli_import ovpn;
            vpn_console (perror_msg "failed to import vpn configuration");
            vpn_console (perror_msg nmcli_tip);
            vpn_console (perror_msg ("nmcli stderr output:" +:+ NL +:+ err))]
    ∧ configured (config s') = Some uuid.
Proof.
  intros Hcfg Hc Hdel Hovpn Hp Hrc Herr.
  unfold _lab_import, _nm_import_vpn, existing_connection.
  cbv [and_then try_except].
  rewrite (get_vpn_connection_found GetConnectionByUuid s uuid c Hcfg Hc).
  cbv [vpn_step completed done]. simpl. rewrite Hdel.
  unfold import_connection. cbv [and_then returned done vpn_step]. simpl.
  rewrite Hovpn, Hp. simpl. rewrite (bool_decide_eq_true_2 _ Hrc).
  cbv [vpn_say vpn_step decode_bytes done]. simpl. rewrite Herr. simpl.
  eexists. split; [reflexivity|]. simpl. split; [|exact Hcfg].
  now rewrite <- !app_assoc.
Qed.

Lemma adjusted_settings_inr (name : string) (old new : Settings) :
  adjusted_settings name old = inr new →
  ∃ g0 g1 g2,
    old !! "connection" = Some g0 ∧ old !! "ipv4" = Some g1
    ∧ old !! "ipv6" = Some g2
    ∧ new = <["ipv6" := <["never-default" := bool_value true]> g2]>
              (<["ipv4" := <["never-default" := bool_value true]> g1]>
                 (<["connection" := <["id" := text_value name]> g0]> old)).
Proof.
  unfold adjusted_settings, set_setting. intros Hnew.
  destruct (old !! "connection") as [g0|] eqn:H0; [|done].
  cbv beta iota in Hnew. rewrite lookup_insert_ne in Hnew by done.
  destruct (old !! "ipv4") as [g1|] eqn:H1; [|done].
  cbv beta iota in Hnew. rewrite !lookup_insert_ne in Hnew by done.
  destruct (old !! "ipv6") as [g2|] eqn:H2; [|done].
  injection Hnew as <-. by eexists _, _, _.
Qed.

(** X25. A first [lab import] that succeeds: with no connection
    configured, [nmcli] ending with status 0 and a UUID in its output, and
    NetworkManager accepting the update, the command imports, renames the
    new connection to the name given and sets [never-default] for IPv4 and
    IPv6, stores the UUID as the only option of the [lab] section, writes
    the file and prints the UUID.  The configuration then names the
    imported connection. *)
Theorem lab_import_first
    (GetConnectionByUuid : string → Failure + NmConnection)
    (Delete : NmConnection → option Failure)
    (lab_config : Failure + string)
    (nmcli : string → Failure + CompletedProcess)
    (decode_utf8 : string → option string)
    (GetImportedByUuid : string → Failure + NmConnection)
    (GetSettings : NmConnection → Failure + Settings)
    (Update : NmConnection → Settings → option Failure)
    (write : Config → option Failure)
    (name : string) (reload : bool) (s : Vpn) (ovpn uuid : string)
    (p : CompletedProcess) (c : NmConnection) (old new : Settings) :
  configured (config s) = None →
  lab_config = inr ovpn →
  nmcli ovpn = inr p →
  returncode p = 0%Z →
  imported_uuid decode_utf8 (stdout p) = Some uuid →
  GetImportedByUuid uuid = inr c →
  GetSettings c = inr old →
  adjusted_settings name old = inr new →
  Update c new = None →
  write (reset_section "lab" "connection" uuid (config s)) = None →
  _lab_import GetConnectionByUuid Delete lab_config nmcli decode_utf8
    GetImportedByUuid GetSettings Update write name reload s
    = Done tt
        {| config := reset_section "lab" "connection" uuid (config s);
           vpn_steps := vpn_steps s
             ++ [nmcli_import ovpn;
                 connection_Update c new;
                 config_write
                   (reset_section "lab" "connection" uuid (config s));
                 vpn_psuccess
                   ("imported vpn configuration w/ uuid " +:+ uuid)] |}
  ∧ configured (reset_section "lab" "connection" uuid (config s)) = Some uuid
  ∧ (new !! "connection") ≫= (.!! "id") = Some (text_value name)
  ∧ (new !! "ipv4") ≫= (.!! "never-default") = Some (bool_value true)
  ∧ (new !! "ipv6") ≫= (.!! "never-default") = Some (bool_value true).
Proof.
  intros Hcfg Hovpn Hp Hrc Huuid Hc Hold Hnew Hupdate Hwrite.
  split_and!.
  - unfold _lab_import, _nm_import_vpn, existing_connection,
      _nm_get_vpn_connection.
    cbv [and_then try_except get_config].
    rewrite (unconfigured_guard _ Hcfg). simpl.
    unfold import_connection. cbv [and_then returned done vpn_step]. simpl.
    rewrite Hovpn, Hp. simpl.
    rewrite bool_decide_eq_false_2 by (intros H; now apply H).
    rewrite Huuid. unfold adjust_connection.
    cbv [try_except and_then returned done]. rewrite Hc, Hold.
    unfold adjusted_settings in Hnew.
    destruct (set_setting "connection" "id" _ old) as [|s1]; [done|].
    destruct (set_setting "ipv4" "never-default" _ s1) as [|s2]; [done|].
    rewrite Hnew. cbv [vpn_step completed done]. simpl. rewrite Hupdate.
    cbv [get_config set_config vpn_step]. simpl. rewrite Hwrite. simpl.
    now rewrite <- !app_assoc.
  - apply configured_reset.
  - destruct (adjusted_settings_inr name old new Hnew)
      as (g0 & g1 & g2 & _ & _ & _ & ->).
    rewrite !lookup_insert_ne by done. rewrite lookup_insert_eq. simpl.
    apply lookup_insert_eq.
  - destruct (adjusted_settings_inr name old new Hnew)
      as (g0 & g1 & g2 & _ & _ & _ & ->).
    rewrite lookup_insert_ne by done. rewrite lookup_insert_eq. simpl.
    apply lookup_insert_eq.
  - destruct (adjusted_settings_inr name old new Hnew)
      as (g0 & g1 & g2 & _ & _ & _ & ->).
    rewrite lookup_insert_eq. simpl. apply lookup_insert_eq.
Qed.

Lemma lab_import_existing_witness :
  _lab_import (fun _ => inr old_connection) (fun _ => None) (inr "client")
    nmcli_ok Some (fun _ => inr new_connection) (fun _ => inr fresh_settings)
    (fun _ _ => None) (fun _ => None) "htb" false lab_configured
  = Done tt (vpn_logged [vpn_psuccess
               ("imported vpn configuration w/ uuid " +:+ "old-uuid")]
               lab_configured).
Proof.
  exact (proj2 (lab_import_existing (fun _ => inr old_connection)
                  (fun _ => None) (inr "client") nmcli_ok Some
                  (fun _ => inr new_connection) (fun _ => inr fresh_settings)
                  (fun _ _ => None) (fun _ => None) "htb" lab_configured
                  "old-uuid" old_connection eq_refl eq_refl)).
Defined.

Lemma lab_import_reload_failure_witness :
  ∃ s',
    _lab_import (fun _ => inr old_connection) (fun _ => None) (inr "client")
      nmcli_fails Some (fun _ => inr new_connection)
      (fun _ => inr fresh_settings) (fun _ _ => None) (fun _ => None)
      "htb" true lab_configured = Done tt s'
    ∧ vpn_steps s'
      = vpn_steps lab_configured
        ++ [connection_Delete old_connection;
            nmcli_import "client";
            vpn_console (perror_msg "failed to import vpn configuration");
            vpn_console (perror_msg nmcli_tip);
            vpn_console (perror_msg ("nmcli stderr output:" +:+ NL
                                     +:+ "Error: no plugin"))]
    ∧ configured (config s') = Some "old-uuid".
Proof.
  apply (lab_import_reload_failure (fun _ => inr old_connection)
           (fun _ => None) (inr "client") nmcli_fails Some
           (fun _ => inr new_connection) (fun _ => inr fresh_settings)
           (fun _ _ => None) (fun _ => None) "htb" lab_configured
           "old-uuid" "client" "Error: no plugin" old_connection
           {| returncode := 1; stdout := ""; stderr := "Error: no plugin" |});
    try reflexivity.
  discriminate.
Defined.

Lemma lab_import_first_witness :
  _lab_import (fun _ => inr old_connection) (fun _ => None) (inr "client")
    nmcli_ok Some (fun _ => inr new_connection) (fun _ => inr fresh_settings)
    (fun _ _ => None) (fun _ => None) "htb" false lab_unconfigured
  = Done tt
      {| config :=
           reset_section "lab" "connection"
             "0a1b2c3d-0000-4000-8000-00000000000f" (config lab_unconfigured);
         vpn_steps :=
           vpn_steps lab_unconfigured
           ++ [nmcli_import "client";
               connection_Update new_connection renamed_settings;
               config_write
                 (reset_section "lab" "connection"
                    "0a1b2c3d-0000-4000-8000-00000000000f"
                    (config lab_unconfigured));
               vpn_psuccess
                 ("imported vpn configuration w/ uuid "
                  +:+ "0a1b2c3d-0000-4000-8000-00000000000f")] |}.
Proof.
  exact (proj1 (lab_import_first (fun _ => inr old_connection)
                  (fun _ => None) (inr "client") nmcli_ok Some
                  (fun _ => inr new_connection) (fun _ => inr fresh_settings)
                  (fun _ _ => None) (fun _ => None) "htb" false
                  lab_unconfigured "client"
                  "0a1b2c3d-0000-4000-8000-00000000000f"
                  {| returncode := 0; stdout := nmcli_added; stderr := "" |}
                  new_connection fresh_settings renamed_settings
                  eq_refl eq_refl eq_refl eq_refl eq_refl eq_refl eq_refl
                  eq_refl eq_refl eq_refl)).
Defined.

Lemma disconnect_first_skips (Deactivate : ActiveConnection → option Failure)
    (uuid : string) (pre rest : list ActiveConnection) (s : Vpn) :
  configured (config s) = Some uuid →
  Forall (fun c => Uuid c ≠ uuid) pre →
  disconnect_first Deactivate (pre ++ rest) s
    = disconnect_first Deactivate rest s.
Proof.
  intros Hcfg Hpre. induction Hpre as [|c pre Hc _ IH]; [reflexivity|].
  simpl. cbv [and_then get_config returned]. unfold configured in Hcfg.
  rewrite Hcfg. simpl. now rewrite (bool_decide_eq_false_2 _ Hc).
Qed.

(** X26. [lab disconnect] with no connection configured only prints the
    hint to import one.  Otherwise it deactivates the first active
    connection that has the configured UUID, and no other, also when more
    of them have it, and prints that the connection is deactivated unless
    the deactivation raises; when no active connection has the UUID it
    prints that the connection is not active or not found. *)
Theorem lab_disconnect_first_match
    (Deactivate : ActiveConnection → option Failure)
    (active : list ActiveConnection) (s : Vpn) :
  match configured (config s) with
  | None =>
      _lab_disconnect Deactivate active s
        = Done tt (vpn_logged [vpn_console (perror_msg not_imported)] s)
  | Some uuid =>
      (Forall (fun c => Uuid c ≠ uuid) active →
       _lab_disconnect Deactivate active s
         = Done tt (vpn_logged [vpn_console (poutput_msg
                      "vpn connection not active or not found")] s))
      ∧ ∀ pre c post,
          active = pre ++ c :: post →
          Forall (fun c => Uuid c ≠ uuid) pre → Uuid c = uuid →
          _lab_disconnect Deactivate active s
            = match Deactivate c with
              | Some e => Failed e (vpn_logged [DeactivateConnection c] s)
              | None =>
                  Done tt (vpn_logged
                             [DeactivateConnection c;
                              vpn_psuccess "vpn connection deactivated"] s)
              end
  end.
Proof.
  destruct (configured (config s)) as [uuid|] eqn:Hcfg.
  - assert (Hrun : _lab_disconnect Deactivate active s
                   = disconnect_first Deactivate active s).
    { unfold _lab_disconnect. cbv [and_then get_config].
      now rewrite (configured_guard _ _ Hcfg). }
    rewrite Hrun. split.
    + intros Hnone. rewrite <- (app_nil_r active).
      now rewrite (disconnect_first_skips Deactivate uuid active [] s
                     Hcfg Hnone).
    + intros pre c post -> Hpre Hc.
      rewrite (disconnect_first_skips Deactivate uuid pre (c :: post) s
                 Hcfg Hpre).
      simpl. cbv [and_then get_config returned]. unfold configured in Hcfg.
      rewrite Hcfg. simpl. rewrite (bool_decide_eq_true_2 _ Hc).
      cbv [vpn_step completed failing done vpn_logged]. simpl.
      destruct (Deactivate c); simpl; rewrite <- ?app_assoc; reflexivity.
  - unfold _lab_disconnect. cbv [and_then get_config].
    now rewrite (unconfigured_guard _ Hcfg).
Qed.
